(** * LOF arbitrage profit calculator: a shallow embedding

    This development embeds the computational core of
    [jisilu_profit_calculator.py] and proves the properties its
    specification claims about it, together with further properties that
    the code shows:

    - [PyStr]    Python [str] values as sequences of code points, with the
                 string methods the program calls;
    - [Dec]      [decimal.Decimal] under the default context (28 digits,
                 ROUND_HALF_EVEN, traps on InvalidOperation, DivisionByZero
                 and Overflow);
    - the program itself: [Account], [FundItem], [parse_apply_fee],
      [calculate_arbitrage_profit], [filter_arbitrage_opportunities],
      [calculate_all_profits], [sort_by_profit], [sort_by_profit_rate] and
      the per-account loop of [main], over a store of mutable objects;
    - the reader and the printer of decimals: [safe_decimal] on the cells
      of the parsed quotes, and [format_decimal] with [str(Decimal)] and
      [quantize(..., ROUND_HALF_UP)];
    - what [print_summary_format] computes before it prints: the funds
      with a positive profit and their totals. *)

From Stdlib Require Import ZArith NArith QArith Qabs Qpower Qminmax Lqa String Ascii
  Lia List Permutation Sorted.
From stdpp Require Import base option list gmap.
Import ListNotations.

#[local] Open Scope Z_scope.

(** ** Exceptions and results *)

(** The exceptions the modelled code can raise: the three signals the
    default decimal context traps, and [TypeError] for an ordering
    comparison that involves [None]. *)
Inductive exn : Type :=
| InvalidOperation
| DivisionByZero
| Overflow
| TypeError.

Inductive result (A : Type) : Type :=
| OK (a : A)
| Raise (e : exn).
Arguments OK {A} a.
Arguments Raise {A} e.

Definition rbind {A B : Type} (r : result A) (k : A -> result B) : result B :=
  match r with
  | OK a => k a
  | Raise e => Raise e
  end.

Declare Scope result_scope.
Delimit Scope result_scope with result.
Notation "'let!' x ':=' r 'in' k" := (rbind r (fun x => k))
  (at level 10, x name, r at level 100, k at level 200) : result_scope.
#[local] Open Scope result_scope.

(** ** Python strings *)

Module PyStr.

(** A [str] is a sequence of Unicode code points. *)
Definition str : Type := list N.

(** Decoding of a UTF-8 literal of this file into code points, so that
    constants can be written as the source writes them. *)
Fixpoint bytes_of_string (s : string) : list N :=
  match s with
  | EmptyString => []
  | String a r => N_of_ascii a :: bytes_of_string r
  end.

Definition cont (b : N) : N := N.land b 63.

Fixpoint utf8_decode (fuel : nat) (bs : list N) : str :=
  match fuel with
  | O => []
  | S fuel' =>
    match bs with
    | [] => []
    | b0 :: r0 =>
      if (b0 <? 128)%N then b0 :: utf8_decode fuel' r0
      else if (b0 <? 224)%N then
        match r0 with
        | b1 :: r1 => (N.land b0 31 * 64 + cont b1)%N :: utf8_decode fuel' r1
        | _ => []
        end
      else if (b0 <? 240)%N then
        match r0 with
        | b1 :: b2 :: r2 =>
          (N.land b0 15 * 4096 + cont b1 * 64 + cont b2)%N :: utf8_decode fuel' r2
        | _ => []
        end
      else
        match r0 with
        | b1 :: b2 :: b3 :: r3 =>
          (N.land b0 7 * 262144 + cont b1 * 4096 + cont b2 * 64 + cont b3)%N
            :: utf8_decode fuel' r3
        | _ => []
        end
    end
  end.

Definition lit (s : string) : str :=
  let bs := bytes_of_string s in utf8_decode (length bs) bs.

(** [str.isspace] of one code point (the Unicode database's whitespace
    property as CPython tabulates it). *)
Definition isspace (c : N) : bool :=
  ((9 <=? c) && (c <=? 13) || (28 <=? c) && (c <=? 32)
   || (c =? 133) || (c =? 160) || (c =? 5760)
   || (8192 <=? c) && (c <=? 8202)
   || (c =? 8232) || (c =? 8233) || (c =? 8239) || (c =? 8287)
   || (c =? 12288))%N.

Fixpoint lstrip (s : str) : str :=
  match s with
  | c :: r => if isspace c then lstrip r else s
  | [] => []
  end.

(** [s.strip()]: leading and trailing whitespace removed. *)
Definition strip (s : str) : str := rev (lstrip (rev (lstrip s))).

Fixpoint startswith (s p : str) {struct p} : bool :=
  match p, s with
  | [], _ => true
  | a :: p', b :: s' => (a =? b)%N && startswith s' p'
  | _ :: _, [] => false
  end.

(** [sub in s]: [sub] occurs in [s] as a contiguous run. *)
Fixpoint contains (sub s : str) : bool :=
  startswith s sub ||
  match s with
  | [] => false
  | _ :: r => contains sub r
  end.

(** [s.replace(old, new)] for a one-character [old], as every call of the
    program has it. *)
Definition replace (old : N) (new s : str) : str :=
  flat_map (fun c => if (c =? old)%N then new else [c]) s.

Definition eqb (s t : str) : bool := bool_decide (s = t).

End PyStr.

Abbreviation str := PyStr.str.

(** ** decimal.Decimal under the default context *)

Module Dec.

(** A finite decimal is [(-1)^sign * coeff * 10^exp]; the sign and the
    diagnostic payload of a NaN are not tracked (nothing in the program
    observes them). *)
Inductive Decimal : Type :=
| Fin (sign : bool) (coeff : N) (exp : Z)
| Inf (sign : bool)
| NaN (signaling : bool).

(** The default context: [prec=28], [rounding=ROUND_HALF_EVEN],
    [Emin=-999999], [Emax=999999], [clamp=0]. *)
Definition prec : Z := 28.
Definition Emax : Z := 999999.
Definition Emin : Z := -999999.
Definition Etiny : Z := Emin - prec + 1.
Definition Etop : Z := Emax - prec + 1.

(** [len(str(c))]: the number of decimal digits of a coefficient. *)
Fixpoint ndigits_aux (fuel : nat) (c : N) : Z :=
  match fuel with
  | O => 1
  | S f => if (c <? 10)%N then 1 else 1 + ndigits_aux f (c / 10)%N
  end.

Definition ndigits (c : N) : Z := ndigits_aux (N.to_nat (N.log2 c)) c.

Definition pow10 (k : Z) : N := (10 ^ Z.to_N k)%N.

(** [adjusted()]: the exponent of the most significant digit. *)
Definition adjusted (c : N) (e : Z) : Z := ndigits c + e - 1.

(** ROUND_HALF_EVEN on a coefficient split into the kept part [q] and the
    [k] dropped digits [r]: [true] when the kept part is incremented. *)
Definition round_half_even (q r : N) (k : Z) : bool :=
  let half := (5 * pow10 (k - 1))%N in
  if (half <? r)%N then true
  else if (r =? half)%N then N.odd q
  else false.

(** [Decimal._fix]: round to the context's precision and exponent range.
    Only [Overflow] is trapped; the other signals set flags that the
    program never reads. *)
Definition fix_ (d : Decimal) : result Decimal :=
  match d with
  | Fin s c e =>
    if (c =? 0)%N then OK (Fin s 0 (Z.min (Z.max e Etiny) Emax))
    else
      let exp_min := ndigits c + e - prec in
      if Etop <? exp_min then Raise Overflow
      else
        let exp_min := if exp_min <? Etiny then Etiny else exp_min in
        if e <? exp_min then
          let digits := ndigits c + e - exp_min in
          let '(c1, e1) := if digits <? 0 then (1%N, exp_min - 1) else (c, e) in
          let k := exp_min - e1 in
          let q := (c1 / pow10 k)%N in
          let r := (c1 mod pow10 k)%N in
          if round_half_even q r k then
            let coeff := (q + 1)%N in
            let '(coeff, exp_min) :=
              if prec <? ndigits coeff then ((coeff / 10)%N, exp_min + 1)
              else (coeff, exp_min) in
            if Etop <? exp_min then Raise Overflow
            else OK (Fin s coeff exp_min)
          else OK (Fin s q exp_min)
        else OK d
  | _ => OK d
  end.

(** [Decimal(n)] for a Python [int]. *)
Definition of_int (z : Z) : Decimal := Fin (z <? 0) (Z.abs_N z) 0.

Definition copy_negate (d : Decimal) : Decimal :=
  match d with
  | Fin s c e => Fin (negb s) c e
  | Inf s => Inf (negb s)
  | NaN sg => NaN sg
  end.

Definition is_nan (d : Decimal) : bool :=
  match d with NaN _ => true | _ => false end.

Definition is_finite (d : Decimal) : bool :=
  match d with Fin _ _ _ => true | _ => false end.

(** [a * b] *)
Definition mul (a b : Decimal) : result Decimal :=
  match a, b with
  | NaN true, _ | _, NaN true => Raise InvalidOperation
  | NaN false, _ | _, NaN false => OK (NaN false)
  | Inf sa, Inf sb => OK (Inf (xorb sa sb))
  | Inf sa, Fin sb cb _ =>
    if (cb =? 0)%N then Raise InvalidOperation else OK (Inf (xorb sa sb))
  | Fin sa ca _, Inf sb =>
    if (ca =? 0)%N then Raise InvalidOperation else OK (Inf (xorb sa sb))
  | Fin sa ca ea, Fin sb cb eb => fix_ (Fin (xorb sa sb) (ca * cb) (ea + eb))
  end.

Definition signed (s : bool) (c : N) : Z :=
  if s then - Z.of_N c else Z.of_N c.

(** [a + b]: the exact sum at the smaller exponent, then [_fix]. *)
Definition add (a b : Decimal) : result Decimal :=
  match a, b with
  | NaN true, _ | _, NaN true => Raise InvalidOperation
  | NaN false, _ | _, NaN false => OK (NaN false)
  | Inf sa, Inf sb =>
    if Bool.eqb sa sb then OK (Inf sa) else Raise InvalidOperation
  | Inf sa, Fin _ _ _ => OK (Inf sa)
  | Fin _ _ _, Inf sb => OK (Inf sb)
  | Fin sa ca ea, Fin sb cb eb =>
    let exp := Z.min ea eb in
    let z := signed sa (ca * pow10 (ea - exp)) + signed sb (cb * pow10 (eb - exp)) in
    if z =? 0 then fix_ (Fin (sa && sb) 0 exp)
    else fix_ (Fin (z <? 0) (Z.abs_N z) exp)
  end.

(** [a - b] is [a + b.copy_negate()]. *)
Definition sub (a b : Decimal) : result Decimal := add a (copy_negate b).

(** The loop of [__truediv__] that brings an exact quotient as close to
    the ideal exponent as its trailing zeros allow. *)
Fixpoint strip_zeros (fuel : nat) (coeff : N) (exp ideal_exp : Z) : N * Z :=
  match fuel with
  | O => (coeff, exp)
  | S f =>
    if (exp <? ideal_exp) && (coeff mod 10 =? 0)%N
    then strip_zeros f (coeff / 10)%N (exp + 1) ideal_exp
    else (coeff, exp)
  end.

(** [a / b] *)
Definition div (a b : Decimal) : result Decimal :=
  match a, b with
  | NaN true, _ | _, NaN true => Raise InvalidOperation
  | NaN false, _ | _, NaN false => OK (NaN false)
  | Inf _, Inf _ => Raise InvalidOperation
  | Inf sa, Fin sb _ _ => OK (Inf (xorb sa sb))
  | Fin sa _ _, Inf sb => OK (Fin (xorb sa sb) 0 Etiny)
  | Fin sa ca ea, Fin sb cb eb =>
    let sign := xorb sa sb in
    if (cb =? 0)%N then
      if (ca =? 0)%N then Raise InvalidOperation else Raise DivisionByZero
    else if (ca =? 0)%N then fix_ (Fin sign 0 (ea - eb))
    else
      let shift := ndigits cb - ndigits ca + prec + 1 in
      let exp := ea - eb - shift in
      let '(coeff, remainder) :=
        if 0 <=? shift
        then ((ca * pow10 shift / cb)%N, (ca * pow10 shift mod cb)%N)
        else ((ca / (cb * pow10 (- shift)))%N, (ca mod (cb * pow10 (- shift)))%N) in
      let '(coeff, exp) :=
        if (remainder =? 0)%N
        then strip_zeros (Z.to_nat (ea - eb - exp)) coeff exp (ea - eb)
        else (if (coeff mod 5 =? 0)%N then (coeff + 1)%N else coeff, exp) in
      fix_ (Fin sign coeff exp)
  end.

(** [Decimal._cmp] on operands that are not NaN: [Lt], [Eq] or [Gt]. *)
Definition sign_cmp (s : bool) : comparison := if s then Lt else Gt.

Definition cmp (a b : Decimal) : comparison :=
  match a, b with
  | Fin sa ca ea, Fin sb cb eb =>
    if (ca =? 0)%N then
      if (cb =? 0)%N then Eq else CompOpp (sign_cmp sb)
    else if (cb =? 0)%N then sign_cmp sa
    else if negb sb && sa then Lt
    else if negb sa && sb then Gt
    else
      let self_adjusted := adjusted ca ea in
      let other_adjusted := adjusted cb eb in
      if self_adjusted =? other_adjusted then
        let self_padded := (ca * pow10 (ea - eb))%N in
        let other_padded := (cb * pow10 (eb - ea))%N in
        if (self_padded =? other_padded)%N then Eq
        else if (self_padded <? other_padded)%N then CompOpp (sign_cmp sa)
        else sign_cmp sa
      else if other_adjusted <? self_adjusted then sign_cmp sa
      else CompOpp (sign_cmp sa)
  | _, _ =>
    let isinfinity d :=
      match d with Inf false => 1 | Inf true => -1 | _ => 0 end in
    isinfinity a ?= isinfinity b
  end.

(** The rational number a finite decimal denotes. *)
Definition to_Q (s : bool) (c : N) (e : Z) : Q :=
  (inject_Z (signed s c) * 10 ^ e)%Q.

Definition denotes (d : Decimal) (q : Q) : Prop :=
  match d with
  | Fin s c e => (to_Q s c e == q)%Q
  | _ => False
  end.

(** The ordering operators raise [InvalidOperation] on any NaN. *)
Definition compare_with (test : comparison -> bool) (a b : Decimal) : result bool :=
  if is_nan a || is_nan b then Raise InvalidOperation
  else OK (test (cmp a b)).

Definition lt : Decimal -> Decimal -> result bool :=
  compare_with (fun c => match c with Lt => true | _ => false end).
Definition gt : Decimal -> Decimal -> result bool :=
  compare_with (fun c => match c with Gt => true | _ => false end).
Definition ge : Decimal -> Decimal -> result bool :=
  compare_with (fun c => match c with Lt => false | _ => true end).

(** [abs(d)]: the sign is cleared and the result rounded to the context. *)
Definition abs (d : Decimal) : result Decimal :=
  match d with
  | NaN true => Raise InvalidOperation
  | NaN false => OK (NaN false)
  | Inf _ => OK (Inf false)
  | Fin _ c e => fix_ (Fin false c e)
  end.

(** *** [Decimal(str)]

    The constructor is exact (no rounding to the context).  The string is
    stripped of surrounding whitespace, underscores are dropped, Unicode
    decimal digits are read as their ASCII digits, and the rest must be a
    numeric string of the decimal arithmetic specification.  The limits of
    the exact constructor on exponents and digit counts (about 10^18 on
    64-bit builds) are not modelled. *)

(** The code points with decimal digit value 0 (Unicode 14.0); each starts
    a run of the ten digits 0 to 9. *)
Definition decimal_zeros : list N :=
  [48; 1632; 1776; 1984; 2406; 2534; 2662; 2790; 2918; 3046; 3174; 3302;
   3430; 3558; 3664; 3792; 3872; 4160; 4240; 6112; 6160; 6470; 6608; 6784;
   6800; 6992; 7088; 7232; 7248; 42528; 43216; 43264; 43472; 43504; 43600;
   44016; 65296; 66720; 68912; 69734; 69872; 69942; 70096; 70384; 70736;
   70864; 71248; 71360; 71472; 71904; 72016; 72784; 73040; 73120; 92768;
   92864; 93008; 120782; 120792; 120802; 120812; 120822; 123200; 123632;
   125264; 130032]%N.

Definition todecimal (c : N) : option N :=
  match List.find (fun z => (z <=? c) && (c <? z + 10))%N decimal_zeros with
  | Some z => Some (c - z)%N
  | None => None
  end.

Fixpoint as_ascii (s : str) : option (list N) :=
  match s with
  | [] => Some []
  | c :: r =>
    if (c =? 95)%N then as_ascii r
    else if (0 <? c)%N && (c <=? 127)%N then cons c <$> as_ascii r
    else if PyStr.isspace c then cons 32%N <$> as_ascii r
    else
      match todecimal c with
      | Some d => cons (48 + d)%N <$> as_ascii r
      | None => None
      end
  end.

Definition is_digit (c : N) : bool := ((48 <=? c) && (c <=? 57))%N.

Definition lower (c : N) : N :=
  if ((65 <=? c) && (c <=? 90))%N then (c + 32)%N else c.

Fixpoint span_digits (s : list N) : list N * list N :=
  match s with
  | c :: r =>
    if is_digit c then let '(ds, rest) := span_digits r in (c :: ds, rest)
    else ([], s)
  | [] => ([], [])
  end.

Definition int_of_digits (ds : list N) : N :=
  fold_left (fun acc d => (acc * 10 + (d - 48))%N) ds 0%N.

Definition parse_sign (s : list N) : bool * list N :=
  match s with
  | 43%N :: r => (false, r)
  | 45%N :: r => (true, r)
  | _ => (false, s)
  end.

Definition parse_exponent (s : list N) : option Z :=
  let '(sg, r) := parse_sign s in
  match span_digits r with
  | ((_ :: _) as ds, []) => Some (signed sg (int_of_digits ds))
  | _ => None
  end.

Definition parse_number (sign : bool) (s : list N) : option Decimal :=
  let '(ip, r1) := span_digits s in
  let '(fp, r2) :=
    match r1 with
    | 46%N :: r => span_digits r
    | _ => ([], r1)
    end in
  match ip ++ fp with
  | [] => None
  | ds =>
    match r2 with
    | [] => Some (Fin sign (int_of_digits ds) (- Z.of_nat (length fp)))
    | c :: r3 =>
      if (lower c =? 101)%N then
        match parse_exponent r3 with
        | Some x => Some (Fin sign (int_of_digits ds) (x - Z.of_nat (length fp)))
        | None => None
        end
      else None
    end
  end.

Definition parse_special (s : list N) : option Decimal :=
  let w := map lower s in
  if bool_decide (w = PyStr.lit "inf") || bool_decide (w = PyStr.lit "infinity")
  then Some (Inf false)
  else if PyStr.startswith w (PyStr.lit "nan") && forallb is_digit (drop 3 w)
  then Some (NaN false)
  else if PyStr.startswith w (PyStr.lit "snan") && forallb is_digit (drop 4 w)
  then Some (NaN true)
  else None.

Definition with_sign (sg : bool) (d : Decimal) : Decimal :=
  if sg then copy_negate d else d.

Definition of_str (s : str) : result Decimal :=
  match as_ascii (PyStr.strip s) with
  | None => Raise InvalidOperation
  | Some a =>
    let '(sg, r) := parse_sign a in
    match parse_special r with
    | Some d => OK (with_sign sg d)
    | None =>
      match parse_number sg r with
      | Some d => OK d
      | None => Raise InvalidOperation
      end
    end
  end.

End Dec.

Abbreviation Decimal := Dec.Decimal.

(** ** The program *)

(** Decimal literals of the source, as the constructor reads them. *)
Definition Decimal_0 : Decimal := Dec.Fin false 0 0.        (* Decimal('0') *)
Definition Decimal_100 : Decimal := Dec.Fin false 100 0.    (* Decimal('100') *)
Definition Decimal_1_0 : Decimal := Dec.Fin false 10 (-1).  (* Decimal('1.0') *)
Definition Decimal_0_0012 : Decimal := Dec.Fin false 12 (-4). (* Decimal('0.0012') *)

(** An optional argument: [None] when the caller omits it. *)
Definition arg {A : Type} (dflt : A) (a : option A) : A :=
  match a with
  | Some x => x
  | None => dflt
  end.

(** [try: body / except: handler], for a body without side effects. *)
Definition try_except {A : Type} (body : result A) (handler : A) : A :=
  match body with
  | OK a => a
  | Raise _ => handler
  end.

(** The built-in [max(a, b)]: [b] replaces [a] only when [b > a]. *)
Definition py_max (a b : Decimal) : result Decimal :=
  let! g := Dec.gt b a in OK (if g then b else a).

Record Account : Type := {
  name : str;
  commission_rate : Decimal;
  min_commission : Decimal;
  transfer_fee : Decimal
}.

Record FundItem : Type := {
  fund_id : str;
  fund_name : str;
  price : Decimal;
  fund_nav : Decimal;
  discount_rt : Decimal;
  apply_fee : str;
  redeem_fee : str;
  apply_status : str;
  redeem_status : str;
  volume : Decimal;
  amount : Decimal;
  issuer_nm : str;
  (* computed fields, [None] until a calculation assigns them *)
  subscribe_fee_rate : option Decimal;
  estimated_sell_price : option Decimal;
  profit : option Decimal;
  profit_rate : option Decimal
}.

Definition set_subscribe_fee_rate (v : Decimal) (f : FundItem) : FundItem :=
  {| fund_id := fund_id f; fund_name := fund_name f; price := price f;
     fund_nav := fund_nav f; discount_rt := discount_rt f;
     apply_fee := apply_fee f; redeem_fee := redeem_fee f;
     apply_status := apply_status f; redeem_status := redeem_status f;
     volume := volume f; amount := amount f; issuer_nm := issuer_nm f;
     subscribe_fee_rate := Some v;
     estimated_sell_price := estimated_sell_price f;
     profit := profit f; profit_rate := profit_rate f |}.

Definition set_estimated_sell_price (v : Decimal) (f : FundItem) : FundItem :=
  {| fund_id := fund_id f; fund_name := fund_name f; price := price f;
     fund_nav := fund_nav f; discount_rt := discount_rt f;
     apply_fee := apply_fee f; redeem_fee := redeem_fee f;
     apply_status := apply_status f; redeem_status := redeem_status f;
     volume := volume f; amount := amount f; issuer_nm := issuer_nm f;
     subscribe_fee_rate := subscribe_fee_rate f;
     estimated_sell_price := Some v;
     profit := profit f; profit_rate := profit_rate f |}.

Definition set_profit (v : Decimal) (f : FundItem) : FundItem :=
  {| fund_id := fund_id f; fund_name := fund_name f; price := price f;
     fund_nav := fund_nav f; discount_rt := discount_rt f;
     apply_fee := apply_fee f; redeem_fee := redeem_fee f;
     apply_status := apply_status f; redeem_status := redeem_status f;
     volume := volume f; amount := amount f; issuer_nm := issuer_nm f;
     subscribe_fee_rate := subscribe_fee_rate f;
     estimated_sell_price := estimated_sell_price f;
     profit := Some v; profit_rate := profit_rate f |}.

Definition set_profit_rate (v : Decimal) (f : FundItem) : FundItem :=
  {| fund_id := fund_id f; fund_name := fund_name f; price := price f;
     fund_nav := fund_nav f; discount_rt := discount_rt f;
     apply_fee := apply_fee f; redeem_fee := redeem_fee f;
     apply_status := apply_status f; redeem_status := redeem_status f;
     volume := volume f; amount := amount f; issuer_nm := issuer_nm f;
     subscribe_fee_rate := subscribe_fee_rate f;
     estimated_sell_price := estimated_sell_price f;
     profit := profit f; profit_rate := Some v |}.

(** The body of the [try] of [parse_apply_fee]. *)
Definition parse_apply_fee_body (self : FundItem) : result Decimal :=
  let fee_str := PyStr.strip (apply_fee self) in
  if PyStr.contains (PyStr.lit "%") fee_str then
    let! d := Dec.of_str (PyStr.replace 37 (PyStr.lit "") fee_str) in
    Dec.div d Decimal_100
  else Dec.of_str fee_str.

(** [FundItem.parse_apply_fee]: the bare [except] turns every exception of
    the body into the default rate. *)
Definition parse_apply_fee (self : FundItem) : Decimal :=
  try_except (parse_apply_fee_body self) Decimal_0_0012.

(** The local variables of [calculate_arbitrage_profit] (lines 80 to 92),
    up to the value that is assigned to [self.profit]. *)
Record Locals : Type := {
  subscribe_amount : Decimal;
  subscribe_fee : Decimal;
  actual_cost : Decimal;
  sell_amount : Decimal;
  sell_commission : Decimal;
  net_profit : Decimal
}.

Definition arbitrage_locals (self : FundItem) (rate : Decimal)
    (account : Account) (quantity : Z) : result Locals :=
  let! subscribe_amount := Dec.mul (fund_nav self) (Dec.of_int quantity) in
  let! subscribe_fee := Dec.mul subscribe_amount rate in
  let! actual_cost := Dec.add subscribe_amount subscribe_fee in
  let! sell_amount := Dec.mul (price self) (Dec.of_int quantity) in
  let! product := Dec.mul sell_amount (commission_rate account) in
  let! sell_commission := py_max product (min_commission account) in
  let! d1 := Dec.sub sell_amount actual_cost in
  let! d2 := Dec.sub d1 sell_commission in
  let! net_profit := Dec.sub d2 (transfer_fee account) in
  OK {| subscribe_amount := subscribe_amount; subscribe_fee := subscribe_fee;
        actual_cost := actual_cost; sell_amount := sell_amount;
        sell_commission := sell_commission; net_profit := net_profit |}.

Definition default_quantity : Z := 10000.

(** [FundItem.calculate_arbitrage_profit]: the state of [self] when the
    call ends, and the value returned or the exception raised. *)
Definition calculate_arbitrage_profit (self : FundItem) (account : Account)
    (quantity : option Z) : FundItem * result Decimal :=
  let quantity := arg default_quantity quantity in
  let rate := parse_apply_fee self in
  let self := set_subscribe_fee_rate rate self in
  match arbitrage_locals self rate account quantity with
  | Raise e => (self, Raise e)
  | OK v =>
    let self := set_profit (net_profit v) self in
    let self := set_estimated_sell_price (price self) self in
    match Dec.gt (actual_cost v) (Dec.of_int 0) with
    | Raise e => (self, Raise e)
    | OK true =>
      match (let! ratio := Dec.div (net_profit v) (actual_cost v) in
             Dec.mul ratio (Dec.of_int 100)) with
      | Raise e => (self, Raise e)
      | OK pr => (set_profit_rate pr self, OK (net_profit v))
      end
    | OK false => (set_profit_rate Decimal_0 self, OK (net_profit v))
    end
  end.

(** Functions that only read the objects of a list are stated over any
    representation [Ref] of object references with its dereference. *)
Section Readers.

Context {Ref : Type} (deref : Ref -> FundItem).

Definition status_open (fund : FundItem) : bool :=
  PyStr.contains (PyStr.lit "开放") (apply_status fund)
  || PyStr.contains (PyStr.lit "限大额") (apply_status fund).

(** [fund.discount_rt < 0 and abs(fund.discount_rt) >= min_premium] *)
Definition premium_test (fund : FundItem) (min_premium : Decimal) : result bool :=
  let! neg := Dec.lt (discount_rt fund) (Dec.of_int 0) in
  if neg then
    let! a := Dec.abs (discount_rt fund) in Dec.ge a min_premium
  else OK false.

(** [fund.discount_rt > 0 and fund.discount_rt >= min_premium] *)
Definition discount_test (fund : FundItem) (min_premium : Decimal) : result bool :=
  let! pos := Dec.gt (discount_rt fund) (Dec.of_int 0) in
  if pos then Dec.ge (discount_rt fund) min_premium else OK false.

(** The loop of [filter_arbitrage_opportunities] over the funds that are
    left, with the list built so far. *)
Fixpoint filter_loop (funds : list Ref) (min_premium : Decimal) (mode : str)
    (opportunities : list Ref) : result (list Ref) :=
  match funds with
  | [] => OK opportunities
  | fund :: rest =>
    if negb (status_open (deref fund)) then
      filter_loop rest min_premium mode opportunities
    else if PyStr.eqb mode (PyStr.lit "premium") then
      let! c := premium_test (deref fund) min_premium in
      filter_loop rest min_premium mode
        (if c then opportunities ++ [fund] else opportunities)
    else if PyStr.eqb mode (PyStr.lit "discount") then
      let! c := discount_test (deref fund) min_premium in
      filter_loop rest min_premium mode
        (if c then opportunities ++ [fund] else opportunities)
    else filter_loop rest min_premium mode opportunities
  end.

Definition filter_arbitrage_opportunities (funds : list Ref)
    (min_premium : option Decimal) (mode : option str) : result (list Ref) :=
  filter_loop funds (arg Decimal_1_0 min_premium)
    (arg (PyStr.lit "premium") mode) [].

(** [a < b] on sort keys: an attribute that is still [None] cannot be
    ordered. *)
Definition key_lt (a b : option Decimal) : result bool :=
  match a, b with
  | Some x, Some y => Dec.lt x y
  | _, _ => Raise TypeError
  end.

(** The built-in [sorted(l, key=key, reverse=reverse)].  It is a stable
    sort that compares keys with [<] only; here by insertion, each element
    going behind the elements that are not greater.  With [reverse] the
    list is reversed before and after, which keeps equal keys in input
    order. *)
Fixpoint insert_by_key (x : option Decimal * Ref)
    (l : list (option Decimal * Ref)) : result (list (option Decimal * Ref)) :=
  match l with
  | [] => OK [x]
  | y :: r =>
    let! b := key_lt (fst x) (fst y) in
    if b then OK (x :: y :: r)
    else let! r' := insert_by_key x r in OK (y :: r')
  end.

Fixpoint sort_keyed (done todo : list (option Decimal * Ref))
    : result (list (option Decimal * Ref)) :=
  match todo with
  | [] => OK done
  | x :: r => let! done' := insert_by_key x done in sort_keyed done' r
  end.

Definition sorted (l : list Ref) (key : FundItem -> option Decimal)
    (reverse : bool) : result (list Ref) :=
  let keyed := map (fun x => (key (deref x), x)) l in
  let! s := sort_keyed [] (if reverse then rev keyed else keyed) in
  OK (map snd (if reverse then rev s else s)).

Definition sort_by_profit (funds : list Ref) (descending : option bool)
    : result (list Ref) :=
  sorted funds profit (arg true descending).

Definition sort_by_profit_rate (funds : list Ref) (descending : option bool)
    : result (list Ref) :=
  sorted funds profit_rate (arg true descending).

End Readers.

(** *** The object store

    [FundItem] instances are mutable objects; a list of funds holds
    references to them, and the same object can be reached from several
    lists. *)

Definition loc : Type := positive.

Definition blank_fund : FundItem :=
  {| fund_id := []; fund_name := []; price := Decimal_0; fund_nav := Decimal_0;
     discount_rt := Decimal_0; apply_fee := []; redeem_fee := [];
     apply_status := []; redeem_status := []; volume := Decimal_0;
     amount := Decimal_0; issuer_nm := [];
     subscribe_fee_rate := None; estimated_sell_price := None;
     profit := None; profit_rate := None |}.

#[export] Instance FundItem_inhabited : Inhabited FundItem := populate blank_fund.

(** The object behind a reference. *)
Definition obj (h : gmap loc FundItem) (l : loc) : FundItem := h !!! l.

(** [calculate_all_profits]: every object of the list is updated in place;
    an exception leaves the loop with the updates made so far. *)
Fixpoint calculate_loop (funds : list loc) (account : Account)
    (quantity : option Z) (h : gmap loc FundItem) : gmap loc FundItem * result unit :=
  match funds with
  | [] => (h, OK tt)
  | fund :: rest =>
    let '(self, r) := calculate_arbitrage_profit (obj h fund) account quantity in
    let h := <[fund := self]> h in
    match r with
    | Raise e => (h, Raise e)
    | OK _ => calculate_loop rest account quantity h
    end
  end.

Definition calculate_all_profits (funds : list loc) (account : Account)
    (quantity : option Z) (h : gmap loc FundItem)
    : gmap loc FundItem * result (list loc) :=
  let '(h, r) := calculate_loop funds account (Some (arg default_quantity quantity)) h in
  (h, let! _ := r in OK funds).

(** [copy.deepcopy] of a list of funds: a new list of new objects, one per
    distinct object of the input (the memo keeps shared objects shared);
    the field values are immutable and are not copied. *)
Fixpoint deepcopy_loop (funds : list loc) (memo : gmap loc loc)
    (h : gmap loc FundItem) : gmap loc FundItem * list loc :=
  match funds with
  | [] => (h, [])
  | fund :: rest =>
    match memo !! fund with
    | Some copy =>
      let '(h, copies) := deepcopy_loop rest memo h in (h, copy :: copies)
    | None =>
      let copy := fresh (dom h) in
      let '(h, copies) :=
        deepcopy_loop rest (<[fund := copy]> memo) (<[copy := obj h fund]> h) in
      (h, copy :: copies)
    end
  end.

Definition deepcopy (funds : list loc) (h : gmap loc FundItem)
    : gmap loc FundItem * list loc :=
  deepcopy_loop funds ∅ h.

(** The configuration of [main]. *)
Definition MIN_PREMIUM_RATE : Decimal := Decimal_0.
Definition ARBITRAGE_MODE : str := PyStr.lit "premium".
Definition QUANTITY : Z := 10000.

(** One turn of the loop [for account in accounts] of [main], up to the
    sorted list that is handed to the reports: the copy that was
    evaluated, and the sorted list or the exception. *)
Definition main_account (opportunities : list loc) (account : Account)
    (h : gmap loc FundItem)
    : gmap loc FundItem * list loc * result (list loc) :=
  let '(h, account_funds) := deepcopy opportunities h in
  let '(h, r) := calculate_all_profits account_funds account (Some QUANTITY) h in
  (h, account_funds,
   let! fs := r in sort_by_profit (obj h) fs (Some true)).

(** *** The worked example of the specification *)

Definition Decimal_1_0000 : Decimal := Dec.Fin false 10000 (-4).  (* Decimal('1.0000') *)
Definition Decimal_1_0500 : Decimal := Dec.Fin false 10500 (-4).  (* Decimal('1.0500') *)
Definition Decimal_0_0003 : Decimal := Dec.Fin false 3 (-4).      (* Decimal('0.0003') *)
Definition Decimal_5 : Decimal := Dec.Fin false 5 0.              (* Decimal('5') *)

Definition example_fund : FundItem :=
  {| fund_id := PyStr.lit "161226"; fund_name := PyStr.lit "LOF";
     price := Decimal_1_0500; fund_nav := Decimal_1_0000;
     discount_rt := Dec.Fin true 476 (-2);
     apply_fee := PyStr.lit "0.12%"; redeem_fee := PyStr.lit "0.50%";
     apply_status := PyStr.lit "开放申购"; redeem_status := PyStr.lit "开放赎回";
     volume := Decimal_0; amount := Decimal_0; issuer_nm := [];
     subscribe_fee_rate := None; estimated_sell_price := None;
     profit := None; profit_rate := None |}.

Definition example_account : Account :=
  {| name := PyStr.lit "B"; commission_rate := Decimal_0_0003;
     min_commission := Decimal_5; transfer_fee := Decimal_0 |}.

(** [x] agrees with [y] when both are rounded to four decimal places. *)
Definition approx4 (x y : Q) : Prop := (Qabs (x - y) <= 1 # 20000)%Q.

(** What an evaluation of the example produces, with [rate] for the profit
    rate in percent. *)
Definition example_outcome (fund : FundItem) (account : Account) (rate : Q) : Prop :=
  exists v self' pr q,
    arbitrage_locals fund (parse_apply_fee fund) account 10000 = OK v /\
    calculate_arbitrage_profit fund account (Some 10000) = (self', OK (net_profit v)) /\
    profit self' = Some (net_profit v) /\
    profit_rate self' = Some pr /\
    Dec.denotes (subscribe_amount v) 10000 /\
    Dec.denotes (subscribe_fee v) 12 /\
    Dec.denotes (actual_cost v) 10012 /\
    Dec.denotes (sell_amount v) 10500 /\
    Dec.denotes (sell_commission v) 5 /\
    Dec.denotes (net_profit v) 483 /\
    Dec.denotes pr q /\ approx4 q rate.

Definition is_example (fund : FundItem) (account : Account) : Prop :=
  fund_nav fund = Decimal_1_0000 /\ price fund = Decimal_1_0500 /\
  apply_fee fund = PyStr.lit "0.12%" /\
  commission_rate account = Decimal_0_0003 /\
  min_commission account = Decimal_5 /\ transfer_fee account = Decimal_0.

(** A fund that differs from [example_fund] in the fields given. *)
Definition fund_with (status : str) (rt : Decimal) (fee : str) : FundItem :=
  {| fund_id := fund_id example_fund; fund_name := fund_name example_fund;
     price := price example_fund; fund_nav := fund_nav example_fund;
     discount_rt := rt; apply_fee := fee; redeem_fee := redeem_fee example_fund;
     apply_status := status; redeem_status := redeem_status example_fund;
     volume := Decimal_0; amount := Decimal_0; issuer_nm := [];
     subscribe_fee_rate := None; estimated_sell_price := None;
     profit := None; profit_rate := None |}.

(** Two states of a fund agree on every field that is an input of the
    calculation: the identifier, the prices, the divergence rate, the fee
    fields, the status fields and the rest of the quote. *)
Definition same_inputs (f g : FundItem) : Prop :=
  fund_id f = fund_id g /\ fund_name f = fund_name g /\
  price f = price g /\ fund_nav f = fund_nav g /\
  discount_rt f = discount_rt g /\
  apply_fee f = apply_fee g /\ redeem_fee f = redeem_fee g /\
  apply_status f = apply_status g /\ redeem_status f = redeem_status g /\
  volume f = volume g /\ amount f = amount g /\ issuer_nm f = issuer_nm g.

Definition other_account : Account :=
  {| name := PyStr.lit "A"; commission_rate := Dec.Fin false 1 (-4);
     min_commission := Dec.Fin false 1 0; transfer_fee := Decimal_0 |}.

Definition example_store : gmap loc FundItem :=
  {[ 1%positive := example_fund;
     2%positive := fund_with (PyStr.lit "限大额") (Dec.Fin true 15 (-1)) (PyStr.lit "0.0015") ]}.

(** *** Ordering of sort keys *)

(** A key can be ordered when the attribute has been computed and is not
    NaN. *)
Definition orderable (k : option Decimal) : bool :=
  match k with
  | Some d => negb (Dec.is_nan d)
  | None => false
  end.

Definition key_cmp (a b : option Decimal) : comparison :=
  match a, b with
  | Some x, Some y => Dec.cmp x y
  | _, _ => Eq
  end.

(** [a] is not above [b], [a] is not below [b], [a] and [b] are equal. *)
Definition key_le (a b : option Decimal) : Prop := key_cmp a b <> Gt.
Definition key_ge (a b : option Decimal) : Prop := key_cmp a b <> Lt.
Definition key_eqb (a b : option Decimal) : bool :=
  match key_cmp a b with Eq => true | _ => false end.

(** A list of funds is in the order of a metric: ascending, or descending
    when [reverse] is set (no entry is below a later one). *)
Definition metric_sorted {Ref : Type} (deref : Ref -> FundItem)
    (key : FundItem -> option Decimal) (reverse : bool) (l : list Ref) : Prop :=
  StronglySorted
    (fun x y => if reverse then key_ge (key (deref x)) (key (deref y))
                else key_le (key (deref x)) (key (deref y))) l.

(** The entries of a list whose metric equals [k], in the order of the
    list. *)
Definition with_metric {Ref : Type} (deref : Ref -> FundItem)
    (key : FundItem -> option Decimal) (k : option Decimal) (l : list Ref)
    : list Ref :=
  List.filter (fun x => key_eqb k (key (deref x))) l.

(** What it means for [out] to be the stable sort of [funds] by a metric. *)
Definition stable_sort_of {Ref : Type} (deref : Ref -> FundItem)
    (key : FundItem -> option Decimal) (reverse : bool)
    (funds out : list Ref) : Prop :=
  Permutation funds out /\
  metric_sorted deref key reverse out /\
  forall k, orderable k = true ->
    with_metric deref key k out = with_metric deref key k funds.

(** A result is computed when both metrics have been assigned numbers. *)
Definition computed (f : FundItem) : bool :=
  orderable (profit f) && orderable (profit_rate f).

(** A computed result with the given identifier and metrics. *)
Definition result_with (id : str) (p pr : Decimal) : FundItem :=
  set_profit_rate pr (set_profit p (fund_with (PyStr.lit "开放") Decimal_0 id)).


(** *** Quotes of the data model *)

(** A decimal that the context represents exactly: a finite number of at
    most 28 digits whose exponent is in range, so that no operation has to
    round it. *)
Definition representable (d : Decimal) : bool :=
  match d with
  | Dec.Fin _ c e =>
    (Dec.Etiny <=? e) &&
    (if (c =? 0)%N then e <=? Dec.Emax
     else (Dec.ndigits c <=? Dec.prec) && (Dec.adjusted c e <=? Dec.Emax))
  | _ => false
  end.

(** The rational a finite decimal denotes (0 for the special values). *)
Definition Qval (d : Decimal) : Q :=
  match d with
  | Dec.Fin s c e => Dec.to_Q s c e
  | _ => 0%Q
  end.

Definition Qltb (x y : Q) : bool := negb (Qle_bool y x).

(** The quotes the specification asks of the filter: the subscription
    channel is open, and the divergence rate is negative with absolute value
    at least the threshold (premium), or positive and at least the threshold
    (discount). *)
Definition premium_eligible (min_divergence : Decimal) (fund : FundItem) : bool :=
  status_open fund
  && Qltb (Qval (discount_rt fund)) 0
  && Qle_bool (Qval min_divergence) (Qabs (Qval (discount_rt fund))).

Definition discount_eligible (min_divergence : Decimal) (fund : FundItem) : bool :=
  status_open fund
  && Qltb 0 (Qval (discount_rt fund))
  && Qle_bool (Qval min_divergence) (Qval (discount_rt fund)).

(** Every quote that passes the status gate carries a divergence rate that
    is a number of the working precision. *)
Definition divergence_ok (fund : FundItem) : bool :=
  negb (status_open fund) || representable (discount_rt fund).


(** A finite decimal whose exponent is at least [L] and whose leading
    digit has an exponent of at most [U]. *)
Definition ranged (L U : Z) (d : Decimal) : Prop :=
  match d with
  | Dec.Fin _ c e => L <= e /\ Dec.adjusted c e <= U
  | _ => False
  end.

Definition is_zero (d : Decimal) : bool :=
  match d with
  | Dec.Fin _ c _ => (c =? 0)%N
  | _ => false
  end.

(** An ordinary amount, price or rate of the data model: a finite decimal
    with at most 1000 fractional digits and an absolute value below
    10^1001. *)
Definition ordinary (d : Decimal) : bool :=
  match d with
  | Dec.Fin _ c e => (-1000 <=? e) && (Dec.adjusted c e <=? 1000)
  | _ => false
  end.

(** The inputs of an evaluation are ordinary numbers. *)
Definition ordinary_inputs (self : FundItem) (account : Account) (quantity : Z) : bool :=
  ordinary (fund_nav self) && ordinary (price self)
  && ordinary (parse_apply_fee self)
  && ordinary (commission_rate account) && ordinary (min_commission account)
  && ordinary (transfer_fee account) && ordinary (Dec.of_int quantity).


(** A run of whitespace. *)
Definition all_space (s : str) : bool := forallb PyStr.isspace s.

(** A string that does not start with whitespace. *)
Definition starts_clean (s : str) : Prop :=
  match s with
  | [] => True
  | c :: _ => PyStr.isspace c = false
  end.

(** A string without whitespace at either end. *)
Definition trimmed (m : str) : Prop := starts_clean m /\ starts_clean (rev m).

(** A decimal whose hundredth is exact in the context: it is representable
    and two more fractional digits stay above the smallest exponent. *)
Definition percent_exact (x : Decimal) : bool :=
  match x with
  | Dec.Fin _ _ e => representable x && (Dec.Etiny + 2 <=? e)
  | _ => false
  end.

(** *** One turn of the filter's loop *)

(** What the loop of [filter_arbitrage_opportunities] decides for one
    quote: [OK true] when the quote is appended, [OK false] when it is
    passed over, and the exception when a comparison raises. *)
Definition filter_keeps (fund : FundItem) (min_premium : Decimal) (mode : str)
    : result bool :=
  if negb (status_open fund) then OK false
  else if PyStr.eqb mode (PyStr.lit "premium") then premium_test fund min_premium
  else if PyStr.eqb mode (PyStr.lit "discount") then discount_test fund min_premium
  else OK false.

(** A sort key that is a number or still [None], but not NaN. *)
Definition number_or_none (k : option Decimal) : bool :=
  match k with
  | Some d => negb (Dec.is_nan d)
  | None => true
  end.

(** *** Copies in progress *)

(** The memo of a [deepcopy] in progress, for originals in [P]: every
    original it has met is mapped to an object of the store with the same
    fields, outside the originals, and different originals have different
    copies. *)
Definition memo_ok (P : gset loc) (memo : gmap loc loc) (h : gmap loc FundItem)
    : Prop :=
  (forall k c, memo !! k = Some c ->
     k ∈ P /\ c ∈ dom h /\ c ∉ P /\ obj h c = obj h k) /\
  (forall k1 k2 c, memo !! k1 = Some c -> memo !! k2 = Some c -> k1 = k2).

(** *** Plain inputs *)

(** A finite decimal with exponent at least [L] whose leading digit has an
    exponent of at most [U]: at most [-L] fractional digits and an absolute
    value below [10^(U+1)]. *)
Definition within (L U : Z) (d : Decimal) : bool :=
  match d with
  | Dec.Fin _ c e => (L <=? e) && (Dec.adjusted c e <=? U)
  | _ => false
  end.

(** Inputs as quotes and accounts have them: prices and amounts below
    100000 with at most four fractional digits, rates below 10 with at most
    six, and a quantity below ten million. *)
Definition plain_inputs (self : FundItem) (account : Account) (quantity : Z) : bool :=
  within (-4) 4 (fund_nav self) && within (-4) 4 (price self)
  && within (-6) 0 (parse_apply_fee self)
  && within (-6) 0 (commission_rate account)
  && within (-4) 4 (min_commission account)
  && within (-4) 4 (transfer_fee account)
  && (0 <=? quantity) && (quantity <? 10000000).

(** *** Text of numbers *)

(** The decimal digits of a natural number, most significant first, as
    [str(n)] writes them. *)
Fixpoint digits_aux (fuel : nat) (c : N) (acc : str) : str :=
  match fuel with
  | O => acc
  | S f =>
    if (c <? 10)%N then (48 + c)%N :: acc
    else digits_aux f (c / 10)%N ((48 + c mod 10)%N :: acc)
  end.

Definition digits (c : N) : str := digits_aux (S (N.to_nat (N.log2 c))) c [].

(** [str(n)] for a Python [int]. *)
Definition str_of_int (z : Z) : str :=
  if z <? 0 then 45%N :: digits (Z.abs_N z) else digits (Z.abs_N z).

Definition zeros (k : Z) : str := repeat 48%N (Z.to_nat k).

(** [str(d)] for a [Decimal] (scientific notation of the decimal
    arithmetic specification, capital [E]).  The text of a NaN shows its sign
    and payload, which [Decimal] does not track: it is [None] here. *)
Definition Decimal_str (d : Decimal) : option str :=
  match d with
  | Dec.NaN _ => None
  | Dec.Inf s => Some ((if s then [45%N] else []) ++ PyStr.lit "Infinity")
  | Dec.Fin s c e =>
    let sign := if s then [45%N] else [] in
    let int_ := digits c in
    let len := Dec.ndigits c in
    let leftdigits := e + len in
    let dotplace := if (e <=? 0) && (-6 <? leftdigits) then leftdigits else 1 in
    let '(intpart, fracpart) :=
      if dotplace <=? 0 then ([48%N], 46%N :: zeros (- dotplace) ++ int_)
      else if len <=? dotplace then (int_ ++ zeros (dotplace - len), [])
      else (take (Z.to_nat dotplace) int_, 46%N :: drop (Z.to_nat dotplace) int_) in
    let exp :=
      if leftdigits =? dotplace then []
      else 69%N :: (if leftdigits - dotplace <? 0 then 45%N else 43%N)
                :: digits (Z.abs_N (leftdigits - dotplace)) in
    Some (sign ++ intpart ++ fracpart ++ exp)
  end.

(** [Decimal._rescale(exp, ROUND_HALF_UP)] of a nonzero finite number: the
    coefficient at exponent [exp], rounded up when the first digit dropped
    is 5 or more. *)
Definition rescale_half_up (s : bool) (c : N) (e exp : Z) : Decimal :=
  if exp <=? e then Dec.Fin s (c * Dec.pow10 (e - exp)) exp
  else
    let digits := Dec.ndigits c + e - exp in
    let '(c1, e1) := if digits <? 0 then (1%N, exp - 1) else (c, e) in
    let k := exp - e1 in
    let q := (c1 / Dec.pow10 k)%N in
    let r := (c1 mod Dec.pow10 k)%N in
    Dec.Fin s (if (5 * Dec.pow10 (k - 1) <=? r)%N then (q + 1)%N else q) exp.

(** [self.quantize(exp, rounding=ROUND_HALF_UP)] under the default
    context. *)
Definition quantize_half_up (self exp : Decimal) : result Decimal :=
  match self, exp with
  | Dec.NaN true, _ | _, Dec.NaN true => Raise InvalidOperation
  | Dec.NaN false, _ | _, Dec.NaN false => OK (Dec.NaN false)
  | Dec.Inf s, Dec.Inf _ => OK (Dec.Inf s)
  | Dec.Inf _, Dec.Fin _ _ _ | Dec.Fin _ _ _, Dec.Inf _ => Raise InvalidOperation
  | Dec.Fin s c e, Dec.Fin _ _ x =>
    if negb ((Dec.Etiny <=? x) && (x <=? Dec.Emax)) then Raise InvalidOperation
    else if (c =? 0)%N then Dec.fix_ (Dec.Fin s 0 x)
    else if Dec.Emax <? Dec.adjusted c e then Raise InvalidOperation
    else if Dec.prec <? Dec.adjusted c e - x + 1 then Raise InvalidOperation
    else
      match rescale_half_up s c e x with
      | Dec.Fin s' c' e' =>
        if Dec.Emax <? Dec.adjusted c' e' then Raise InvalidOperation
        else if Dec.prec <? Dec.ndigits c' then Raise InvalidOperation
        else Dec.fix_ (Dec.Fin s' c' e')
      | ans => OK ans
      end
  end.

(** *** Reading and printing decimals *)

(** The values that a cell of the parsed JSON holds and [safe_decimal] is
    modelled on: [None], a string, an integer or a boolean. *)
Inductive value : Type :=
| VNone
| VStr (s : str)
| VInt (z : Z)
| VBool (b : bool).

(** [str(value)] *)
Definition str_of_value (v : value) : str :=
  match v with
  | VNone => PyStr.lit "None"
  | VStr s => s
  | VInt z => str_of_int z
  | VBool b => if b then PyStr.lit "True" else PyStr.lit "False"
  end.

(** [value == s] for a string [s]: only a string equals a string. *)
Definition value_eq_str (v : value) (s : str) : bool :=
  match v with
  | VStr t => PyStr.eqb t s
  | _ => false
  end.

(** The text [safe_decimal] hands to the constructor. *)
Definition cleaned (v : value) : str :=
  PyStr.strip
    (PyStr.replace 44 (PyStr.lit "") (PyStr.replace 37 (PyStr.lit "") (str_of_value v))).

(** The body of the [try] of [JisiluLOFFetcher.safe_decimal]. *)
Definition safe_decimal_body (v : value) (default : Decimal) : result Decimal :=
  if match v with VNone => true | _ => false end
     || value_eq_str v (PyStr.lit "-") || value_eq_str v (PyStr.lit "")
  then OK default
  else
    match cleaned v with
    | [] => OK default
    | text => Dec.of_str text
    end.

(** [JisiluLOFFetcher.safe_decimal(value, default=Decimal('0'))] *)
Definition safe_decimal (v : value) (default : option Decimal) : Decimal :=
  try_except (safe_decimal_body v (arg Decimal_0 default)) (arg Decimal_0 default).

(** [format_decimal(value, places=4)]; [None] stands for a text that
    [Decimal_str] does not give. *)
Definition format_decimal (v : option Decimal) (places : option Z) : option str :=
  match v with
  | None => Some (PyStr.lit "N/A")
  | Some d =>
    let quantize_str := PyStr.lit "0." ++ zeros (arg 4 places) in
    match (let! q := Dec.of_str quantize_str in quantize_half_up d q) with
    | OK r => Decimal_str r
    | Raise _ => Decimal_str d
    end
  end.

(** *** Numerals *)

(** A numeric string in the layout [Decimal_str] writes: a sign, integer
    digits, optionally a point and fraction digits, optionally an
    exponent. *)
Definition numeral (s : bool) (ip : str) (frac : option str) (ex : option Z) : str :=
  (if s then [45%N] else [])
  ++ ip
  ++ match frac with Some fp => 46%N :: fp | None => [] end
  ++ match ex with
     | Some x => 69%N :: (if x <? 0 then 45%N else 43%N) :: digits (Z.abs_N x)
     | None => []
     end.

(** The decimal a numeral spells. *)
Definition numeral_value (s : bool) (ip : str) (frac : option str) (ex : option Z)
    : Decimal :=
  let fp := default [] frac in
  Dec.Fin s (Dec.int_of_digits (ip ++ fp)) (default 0 ex - Z.of_nat (length fp)).

(** *** One account of [main] as a function of the quotes *)

(** The record an evaluation leaves, for the quantity [main] passes. *)
Definition evaluated (account : Account) (quote : FundItem) : FundItem :=
  (calculate_arbitrage_profit quote account (Some QUANTITY)).1.

(** The records of a report, in rank order: every quote evaluated, then
    ranked by profit, best first. *)
Definition report (account : Account) (quotes : list FundItem)
    : result (list FundItem) :=
  sort_by_profit id (map (evaluated account) quotes) (Some true).

(** *** The locals of the summary report *)

(** What [print_summary_format] computes before it prints: the funds with
    a positive profit, the sum of their profits and the money they take. *)
Record Summary (Ref : Type) : Type := {
  profitable_funds : list Ref;
  total_profit : Decimal;
  total_cost : Decimal;
}.
Arguments profitable_funds {Ref} _.
Arguments total_profit {Ref} _.
Arguments total_cost {Ref} _.

Section Reports.
Context {Ref : Type} (deref : Ref -> FundItem).

(** [f.profit > 0]: a profit that is still [None] cannot be compared with
    an integer, a NaN raises [InvalidOperation]. *)
Definition profit_positive (f : FundItem) : result bool :=
  match profit f with
  | Some p => Dec.gt p (Dec.of_int 0)
  | None => Raise TypeError
  end.

(** [[f for f in funds if f.profit > 0]] *)
Fixpoint profitable (funds : list Ref) : result (list Ref) :=
  match funds with
  | [] => OK []
  | f :: rest =>
    let! b := profit_positive (deref f) in
    let! out := profitable rest in
    OK (if b then f :: out else out)
  end.

(** [sum(term(fund) for fund in funds)]: each term is computed and added
    to the running total in turn, from the left. *)
Fixpoint sum_from (acc : Decimal) (term : FundItem -> result Decimal)
    (funds : list Ref) : result Decimal :=
  match funds with
  | [] => OK acc
  | f :: rest =>
    let! x := term (deref f) in
    let! acc' := Dec.add acc x in
    sum_from acc' term rest
  end.

(** The built-in [sum] starts from the integer 0, which the first addition
    converts to [Decimal(0)]; it is used on lists that are not empty. *)
Definition py_sum (term : FundItem -> result Decimal) (funds : list Ref)
    : result Decimal :=
  sum_from (Dec.of_int 0) term funds.

(** [fund.profit] as a term of a sum: [None] cannot be added. *)
Definition profit_term (f : FundItem) : result Decimal :=
  match profit f with
  | Some p => OK p
  | None => Raise TypeError
  end.

(** [fund.fund_nav * quantity] *)
Definition cost_term (quantity : Z) (f : FundItem) : result Decimal :=
  Dec.mul (fund_nav f) (Dec.of_int quantity).

(** The locals of [print_summary_format(funds, account, quantity)];
    [OK None] when it returns without a summary. *)
Definition summary_locals (funds : list Ref) (quantity : Z)
    : result (option (Summary Ref)) :=
  match funds with
  | [] => OK None
  | _ =>
    let! profitable_funds := profitable funds in
    match profitable_funds with
    | [] => OK None
    | _ =>
      let! total_profit := py_sum profit_term profitable_funds in
      let! total_cost := py_sum (cost_term quantity) profitable_funds in
      OK (Some {| profitable_funds := profitable_funds;
                  total_profit := total_profit;
                  total_cost := total_cost |})
    end
  end.

End Reports.

(** * Properties *)

(** ** Results *)

Lemma rbind_OK {A B : Type} (r : result A) (k : A -> result B) (b : B) :
  rbind r k = OK b -> exists a, r = OK a /\ k a = OK b.
Proof. destruct r as [a|e]; simpl; [eauto | discriminate]. Qed.

(** ** The worked example *)

Lemma example_locals (fund : FundItem) (account : Account) :
  is_example fund account ->
  parse_apply_fee fund = Decimal_0_0012 /\
  arbitrage_locals fund Decimal_0_0012 account 10000 =
    OK {| subscribe_amount := Dec.Fin false 100000000 (-4);
          subscribe_fee := Dec.Fin false 1200000000 (-8);
          actual_cost := Dec.Fin false 1001200000000 (-8);
          sell_amount := Dec.Fin false 105000000 (-4);
          sell_commission := Decimal_5;
          net_profit := Dec.Fin false 48300000000 (-8) |}.
Proof.
  intros (Hnav & Hprice & Hfee & Hrate & Hmin & Htr).
  unfold parse_apply_fee, parse_apply_fee_body, arbitrage_locals.
  rewrite Hnav, Hprice, Hfee, Hrate, Hmin, Htr.
  split; vm_compute; reflexivity.
Qed.

Lemma example_profit_rate :
  (let! ratio := Dec.div (Dec.Fin false 48300000000 (-8))
                         (Dec.Fin false 1001200000000 (-8)) in
   Dec.mul ratio (Dec.of_int 100))
  = OK (Dec.Fin false 4824210946863763483819416700 (-27)).
Proof. vm_compute. reflexivity. Qed.

Lemma example_evaluation (fund : FundItem) (account : Account) (rate : Q) :
  is_example fund account ->
  example_outcome fund account rate <->
  approx4 (Dec.to_Q false 4824210946863763483819416700 (-27)) rate.
Proof.
  intros Hex. destruct (example_locals fund account Hex) as [Hp Hl].
  assert (Hc : calculate_arbitrage_profit fund account (Some 10000) =
    (set_profit_rate (Dec.Fin false 4824210946863763483819416700 (-27))
       (set_estimated_sell_price (price fund)
          (set_profit (Dec.Fin false 48300000000 (-8))
             (set_subscribe_fee_rate Decimal_0_0012 fund))),
     OK (Dec.Fin false 48300000000 (-8)))).
  { unfold calculate_arbitrage_profit. simpl arg. rewrite Hp.
    replace (arbitrage_locals (set_subscribe_fee_rate Decimal_0_0012 fund)
               Decimal_0_0012 account 10000)
      with (arbitrage_locals fund Decimal_0_0012 account 10000) by reflexivity.
    rewrite Hl. cbn [net_profit actual_cost].
    change (Dec.gt (Dec.Fin false 1001200000000 (-8)) (Dec.of_int 0)) with (OK true).
    rewrite example_profit_rate. reflexivity. }
  unfold example_outcome. rewrite Hp, Hl, Hc. split.
  - intros (v & self' & pr & q & Hv & Hs & _ & Hpr & _ & _ & _ & _ & _ & _ & Hq & Ha).
    injection Hv as <-. injection Hs as <-. simpl in Hpr. injection Hpr as <-.
    simpl in Hq. unfold approx4 in *. rewrite Hq. exact Ha.
  - intros Ha. eexists _, _, _, _.
    split; [reflexivity|]. split; [reflexivity|]. split; [reflexivity|].
    split; [reflexivity|].
    repeat (split; [vm_compute; reflexivity|]).
    split; [simpl; reflexivity | exact Ha].
Qed.

(** C1 (as amended): for the quote with netAssetValue=1.0000,
    exchangePrice=1.0500, subscriptionFeeField="0.12%", quantity=10000 and an
    account with commissionRate=0.0003, minimumCommission=5, transferFee=0,
    the evaluation produces subscriptionAmount=10000, subscriptionFee=12,
    actualCost=10012, saleAmount=10500, saleCommission=5, netProfit=483 and
    a profit rate of 4.8242 percent to four decimal places. *)
Theorem example_evaluation_4_8242 (fund : FundItem) (account : Account) :
  is_example fund account ->
  example_outcome fund account (48242 # 10000).
Proof.
  intros Hex. apply example_evaluation; [exact Hex|].
  vm_compute. discriminate.
Qed.

Lemma example_evaluation_4_8242_witness :
  is_example example_fund example_account /\
  example_outcome example_fund example_account (48242 # 10000).
Proof.
  split.
  - repeat split; reflexivity.
  - apply (example_evaluation_4_8242 example_fund example_account).
    repeat split; reflexivity.
Defined.

(** The profit rate of the example is not 4.8262 percent: the claim as the
    specification words it fails on the example itself. *)
Lemma example_evaluation_not_4_8262 :
  is_example example_fund example_account /\
  ~ example_outcome example_fund example_account (48262 # 10000).
Proof.
  assert (Hex : is_example example_fund example_account)
    by (repeat split; reflexivity).
  split; [exact Hex|]. intros H.
  apply (example_evaluation _ _ _ Hex) in H.
  vm_compute in H. apply H. reflexivity.
Qed.

(** ** Strings *)

Lemma replace_absent (c : N) (s : str) :
  PyStr.contains [c] s = false -> PyStr.replace c [] s = s.
Proof.
  induction s as [|a s IH]; simpl; [reflexivity|].
  intros H. apply orb_false_elim in H as [H1 H2].
  rewrite N.eqb_sym. destruct (c =? a)%N; [discriminate H1|].
  simpl. f_equal. apply IH. exact H2.
Qed.

(** ** Fee parsing fails soft *)

Lemma parse_apply_fee_body_of_str (self : FundItem) (e : exn) :
  Dec.of_str (PyStr.replace 37 [] (PyStr.strip (apply_fee self))) = Raise e ->
  parse_apply_fee_body self = Raise e.
Proof.
  intros H. unfold parse_apply_fee_body. cbv zeta.
  change (PyStr.lit "%") with [37%N]. change (PyStr.lit "") with (@nil N).
  destruct (PyStr.contains [37%N] (PyStr.strip (apply_fee self))) eqn:Hc.
  - rewrite H. reflexivity.
  - rewrite (replace_absent _ _ Hc) in H. exact H.
Qed.

(** C6: whenever parsing fails, either because the cleaned fee string is
    not a numeric string (empty, non-numeric, malformed) or because any other
    step of the body raises, [parse_apply_fee] returns the default 0.0012;
    it is a total function, so nothing is raised to its caller. *)
Theorem parse_apply_fee_fail_soft (self : FundItem) (e : exn) :
  Dec.of_str (PyStr.replace 37 [] (PyStr.strip (apply_fee self))) = Raise e
  \/ parse_apply_fee_body self = Raise e ->
  parse_apply_fee self = Decimal_0_0012 /\
  Dec.of_str (PyStr.lit "0.0012") = OK (parse_apply_fee self).
Proof.
  intros H.
  assert (Hb : parse_apply_fee_body self = Raise e).
  { destruct H as [H|H]; [apply parse_apply_fee_body_of_str|]; exact H. }
  unfold parse_apply_fee. rewrite Hb. split; reflexivity.
Qed.

Lemma parse_apply_fee_fail_soft_witness :
  (Dec.of_str (PyStr.replace 37 []
     (PyStr.strip (apply_fee (fund_with [] Decimal_0 (PyStr.lit "n/a %")))))
     = Raise InvalidOperation
   \/ parse_apply_fee_body (fund_with [] Decimal_0 (PyStr.lit "n/a %"))
     = Raise InvalidOperation) /\
  parse_apply_fee (fund_with [] Decimal_0 (PyStr.lit "n/a %")) = Decimal_0_0012.
Proof.
  split.
  - left. vm_compute. reflexivity.
  - apply (parse_apply_fee_fail_soft _ InvalidOperation).
    left. vm_compute. reflexivity.
Defined.

Example parse_apply_fee_empty :
  parse_apply_fee (fund_with [] Decimal_0 []) = Decimal_0_0012.
Proof. vm_compute. reflexivity. Qed.

Example parse_apply_fee_signalling :
  parse_apply_fee (fund_with [] Decimal_0 (PyStr.lit "sNaN%")) = Decimal_0_0012.
Proof. vm_compute. reflexivity. Qed.

(** ** Filtering *)

Section FilterFacts.

Context {Ref : Type} (deref : Ref -> FundItem).

Lemma filter_loop_unknown_mode (funds acc : list Ref) (m : Decimal) (mode : str) :
  PyStr.eqb mode (PyStr.lit "premium") = false ->
  PyStr.eqb mode (PyStr.lit "discount") = false ->
  filter_loop deref funds m mode acc = OK acc.
Proof.
  intros Hp Hd. induction funds as [|fund rest IH]; simpl; [reflexivity|].
  rewrite Hp, Hd. destruct (negb _); exact IH.
Qed.

(** C10: with a mode that is neither "premium" nor "discount", the filter
    returns the empty list for every list of quotes and every threshold,
    and raises nothing. *)
Theorem filter_unknown_mode (funds : list Ref) (min_premium : option Decimal)
    (mode : str) :
  PyStr.eqb mode (PyStr.lit "premium") = false ->
  PyStr.eqb mode (PyStr.lit "discount") = false ->
  filter_arbitrage_opportunities deref funds min_premium (Some mode) = OK [].
Proof.
  intros Hp Hd. unfold filter_arbitrage_opportunities.
  apply filter_loop_unknown_mode; assumption.
Qed.

End FilterFacts.

Lemma filter_unknown_mode_witness :
  PyStr.eqb (PyStr.lit "both") (PyStr.lit "premium") = false /\
  PyStr.eqb (PyStr.lit "both") (PyStr.lit "discount") = false /\
  filter_arbitrage_opportunities id
    [example_fund; fund_with (PyStr.lit "开放") (Dec.NaN false) []]
    None (Some (PyStr.lit "both")) = OK [].
Proof.
  split; [reflexivity|]. split; [reflexivity|].
  apply (filter_unknown_mode id); reflexivity.
Defined.

(** ** Defaults *)

(** C9 (as amended): the quantity defaults to 10000 in
    [calculate_arbitrage_profit] and [calculate_all_profits]; the threshold
    of the filter defaults to [Decimal('1.0')], one percent, and the mode to
    "premium"; the threshold 0 is the value the entry point passes. *)
Theorem argument_defaults :
  (forall (Ref : Type) (deref : Ref -> FundItem) funds mode,
     filter_arbitrage_opportunities deref funds None mode =
     filter_arbitrage_opportunities deref funds (Some Decimal_1_0) mode) /\
  (forall (Ref : Type) (deref : Ref -> FundItem) funds m,
     filter_arbitrage_opportunities deref funds m None =
     filter_arbitrage_opportunities deref funds m (Some (PyStr.lit "premium"))) /\
  (forall self account,
     calculate_arbitrage_profit self account None =
     calculate_arbitrage_profit self account (Some 10000)) /\
  (forall funds account h,
     calculate_all_profits funds account None h =
     calculate_all_profits funds account (Some 10000) h) /\
  Dec.of_str (PyStr.lit "1.0") = OK Decimal_1_0 /\
  Dec.denotes Decimal_1_0 1 /\
  MIN_PREMIUM_RATE = Decimal_0 /\ QUANTITY = 10000.
Proof.
  repeat split; try reflexivity.
Qed.

(** With the threshold omitted the filter does not behave as with the
    threshold 0: a quote at a premium of half a percent passes the
    threshold 0 and not the default. *)
Lemma filter_default_threshold_not_zero :
  let funds := [fund_with (PyStr.lit "开放") (Dec.Fin true 5 (-1)) []] in
  filter_arbitrage_opportunities id funds None None = OK [] /\
  filter_arbitrage_opportunities id funds (Some Decimal_0) None = OK funds /\
  filter_arbitrage_opportunities id funds None None <>
  filter_arbitrage_opportunities id funds (Some Decimal_0) None.
Proof.
  cbv zeta. split; [|split]; vm_compute; first [reflexivity | discriminate].
Qed.

(** ** Evaluation and the object store *)

Lemma calculate_same_inputs (self : FundItem) (account : Account)
    (quantity : option Z) :
  same_inputs self (calculate_arbitrage_profit self account quantity).1.
Proof.
  unfold calculate_arbitrage_profit.
  destruct (arbitrage_locals _ _ _ _) as [v|e]; [|repeat split].
  destruct (Dec.gt _ _) as [[|]|e]; [|repeat split..].
  destruct (rbind _ _) as [pr|e]; repeat split.
Qed.

Section StoreFacts.

Implicit Types (h : gmap loc FundItem) (P : gset loc).

(** The loop of [calculate_all_profits] writes to the objects of its list
    only. *)
Lemma calculate_loop_frame funds account quantity h l :
  l ∉ funds ->
  (calculate_loop funds account quantity h).1 !! l = h !! l.
Proof.
  revert h. induction funds as [|fund rest IH]; intros h Hl; [reflexivity|].
  apply not_elem_of_cons in Hl as [Hne Hrest]. simpl.
  destruct (calculate_arbitrage_profit _ _ _) as [self r].
  destruct r as [d|e]; simpl.
  - rewrite IH by exact Hrest. apply lookup_insert_ne. congruence.
  - apply lookup_insert_ne. congruence.
Qed.

Lemma calculate_loop_dom funds account quantity h l :
  l ∈ dom h -> l ∈ dom (calculate_loop funds account quantity h).1.
Proof.
  revert h. induction funds as [|fund rest IH]; intros h Hl; [exact Hl|].
  simpl. destruct (calculate_arbitrage_profit _ _ _) as [self r].
  assert (l ∈ dom (<[fund:=self]> h)) by (rewrite dom_insert; set_solver).
  destruct r as [d|e]; simpl; [apply IH|]; assumption.
Qed.

(** [deepcopy] leaves every object that exists untouched, and the objects
    of the copy are new. *)
Lemma deepcopy_loop_fresh P funds memo h :
  P ⊆ dom h ->
  (forall k c, memo !! k = Some c -> (c ∉ P) /\ (c ∈ dom h)) ->
  let '(h', copies) := deepcopy_loop funds memo h in
  (forall l, l ∈ P -> h' !! l = h !! l) /\
  (forall c, c ∈ copies -> (c ∉ P) /\ (c ∈ dom h')) /\
  dom h ⊆ dom h'.
Proof.
  revert memo h. induction funds as [|fund rest IH]; intros memo h HP Hmemo; simpl.
  - split; [reflexivity|]. split; [|reflexivity]. intros c Hc. inversion Hc.
  - destruct (memo !! fund) as [copy|] eqn:Hm.
    + specialize (IH memo h HP Hmemo).
      destruct (deepcopy_loop rest memo h) as [h' copies].
      destruct IH as (Hsame & Hcopies & Hdom).
      split; [exact Hsame|]. split; [|exact Hdom].
      intros c Hc. apply elem_of_cons in Hc as [->|Hc]; [|auto].
      destruct (Hmemo _ _ Hm). split; [assumption|]. set_solver.
    + pose proof (is_fresh (dom h)) as Hfresh.
      set (copy := fresh (dom h)) in *.
      assert (HP' : P ⊆ dom (<[copy:=obj h fund]> h))
        by (rewrite dom_insert; set_solver).
      assert (Hmemo' : forall k c, <[fund:=copy]> memo !! k = Some c ->
                (c ∉ P) /\ (c ∈ dom (<[copy:=obj h fund]> h))).
      { intros k c Hk. rewrite dom_insert.
        destruct (decide (fund = k)) as [->|Hne].
        - rewrite lookup_insert_eq in Hk. injection Hk as <-. set_solver.
        - rewrite lookup_insert_ne in Hk by exact Hne.
          destruct (Hmemo _ _ Hk). set_solver. }
      specialize (IH _ _ HP' Hmemo').
      destruct (deepcopy_loop rest _ _) as [h' copies].
      destruct IH as (Hsame & Hcopies & Hdom).
      rewrite dom_insert in Hdom.
      split; [|split].
      * intros l Hl. rewrite Hsame by exact Hl.
        apply lookup_insert_ne. set_solver.
      * intros c Hc. apply elem_of_cons in Hc as [->|Hc]; [|auto].
        set_solver.
      * set_solver.
Qed.

(** One turn of the loop of [main] leaves every object that existed before
    it as it was, whatever the outcome; the list it evaluates is new. *)
Lemma main_account_frame opportunities account h :
  let '(h', account_funds, r) := main_account opportunities account h in
  (forall l, l ∈ dom h -> h' !! l = h !! l) /\
  (forall c, c ∈ account_funds -> (c ∉ dom h) /\ (c ∈ dom h')).
Proof.
  unfold main_account, deepcopy, calculate_all_profits.
  pose proof (deepcopy_loop_fresh (dom h) opportunities ∅ h) as Hd.
  destruct (deepcopy_loop opportunities ∅ h) as [h1 copies].
  destruct Hd as (Hsame & Hcopies & Hdom); [set_solver| |].
  { intros k c Hk. rewrite lookup_empty in Hk. discriminate. }
  pose proof (calculate_loop_frame copies account
                (Some (arg default_quantity (Some QUANTITY))) h1) as Hf.
  pose proof (calculate_loop_dom copies account
                (Some (arg default_quantity (Some QUANTITY))) h1) as Hk.
  destruct (calculate_loop copies account _ h1) as [h2 r]. simpl in Hf, Hk.
  split.
  - intros l Hl. rewrite Hf; [apply Hsame; exact Hl|].
    intros Hin. apply Hcopies in Hin as [Hn _]. contradiction.
  - intros c Hc. destruct (Hcopies c Hc). split; [assumption|]. apply Hk. assumption.
Qed.

End StoreFacts.

(** C8: an evaluation leaves the input fields of the quote record as they
    were; in [main], the evaluation for an account works on a copy, so the
    shared quotes stay unchanged in every field, and the evaluation for a
    second account leaves the records computed for the first account as they
    were. *)
Theorem evaluation_isolated (opportunities : list loc) (first second : Account)
    (h h1 h2 : gmap loc FundItem) (funds1 funds2 : list loc)
    (r1 r2 : result (list loc)) :
  main_account opportunities first h = (h1, funds1, r1) ->
  main_account opportunities second h1 = (h2, funds2, r2) ->
  (forall self account quantity,
     same_inputs self (calculate_arbitrage_profit self account quantity).1) /\
  (forall l, l ∈ dom h -> h1 !! l = h !! l /\ h2 !! l = h !! l) /\
  (forall l, l ∈ funds1 -> (l ∉ dom h) /\ (l ∉ funds2) /\ h2 !! l = h1 !! l).
Proof.
  intros H1 H2.
  pose proof (main_account_frame opportunities first h) as F1.
  pose proof (main_account_frame opportunities second h1) as F2.
  rewrite H1 in F1. rewrite H2 in F2.
  destruct F1 as [S1 C1], F2 as [S2 C2].
  split; [exact calculate_same_inputs|]. split.
  - intros l Hl. split; [auto|].
    rewrite S2; [auto|]. apply elem_of_dom. rewrite S1 by exact Hl.
    apply elem_of_dom. exact Hl.
  - intros l Hl. destruct (C1 l Hl) as [Hn Hd].
    split; [exact Hn|]. split; [|auto].
    intros Hin. apply C2 in Hin as [Hn2 _]. contradiction.
Qed.

Lemma evaluation_isolated_witness :
  let t1 := main_account [1; 2; 1]%positive example_account example_store in
  let t2 := main_account [1; 2; 1]%positive other_account t1.1.1 in
  (forall l, l ∈ dom example_store ->
     t1.1.1 !! l = example_store !! l /\ t2.1.1 !! l = example_store !! l) /\
  (forall l, l ∈ t1.1.2 ->
     (l ∉ dom example_store) /\ (l ∉ t2.1.2) /\ t2.1.1 !! l = t1.1.1 !! l).
Proof.
  intros t1 t2.
  assert (H1 : main_account [1; 2; 1]%positive example_account example_store
               = (t1.1.1, t1.1.2, t1.2)).
  { subst t1 t2.
    destruct (main_account [1; 2; 1]%positive example_account example_store)
      as [[? ?] ?]; reflexivity. }
  assert (H2 : main_account [1; 2; 1]%positive other_account t1.1.1
               = (t2.1.1, t2.1.2, t2.2)).
  { subst t2.
    destruct (main_account [1; 2; 1]%positive other_account t1.1.1)
      as [[? ?] ?]; reflexivity. }
  pose proof (evaluation_isolated _ _ _ _ _ _ _ _ _ _ H1 H2) as H.
  exact (proj2 H).
Defined.

(** Without the copy the records are shared: evaluating a second account
    over the same list replaces what the first evaluation stored. *)
Example shared_evaluation_overwrites :
  let h1 := (calculate_all_profits [1%positive] example_account None example_store).1 in
  let h2 := (calculate_all_profits [1%positive] other_account None h1).1 in
  profit (obj h1 1%positive) = Some (Dec.Fin false 48300000000 (-8)) /\
  profit (obj h2 1%positive) = Some (Dec.Fin false 48695000000 (-8)).
Proof. vm_compute. split; reflexivity. Qed.

(** ** Decimal arithmetic facts *)

(** ** Decimal coefficients and their digits *)

Lemma pow10_pos (k : Z) : (0 < Dec.pow10 k)%N.
Proof. unfold Dec.pow10. apply N.neq_0_lt_0, N.pow_nonzero. discriminate. Qed.

Lemma pow10_add (a b : Z) :
  0 <= a -> 0 <= b -> Dec.pow10 (a + b) = (Dec.pow10 a * Dec.pow10 b)%N.
Proof.
  intros Ha Hb. unfold Dec.pow10.
  rewrite Z2N.inj_add by assumption. apply N.pow_add_r.
Qed.

Lemma pow10_0 (k : Z) : k <= 0 -> Dec.pow10 k = 1%N.
Proof.
  intros Hk. unfold Dec.pow10.
  replace (Z.to_N k) with 0%N by lia. reflexivity.
Qed.

Lemma pow10_succ (k : Z) : 0 <= k -> Dec.pow10 (k + 1) = (10 * Dec.pow10 k)%N.
Proof.
  intros Hk. rewrite pow10_add by lia. change (Dec.pow10 1) with 10%N. lia.
Qed.

Lemma pow10_le (a b : Z) : a <= b -> (Dec.pow10 a <= Dec.pow10 b)%N.
Proof.
  intros Hab. unfold Dec.pow10. apply N.pow_le_mono_r; [discriminate | lia].
Qed.

Lemma ndigits_aux_spec (fuel : nat) (c : N) :
  (0 < c)%N -> (c < 2 ^ N.of_nat (S fuel))%N ->
  1 <= Dec.ndigits_aux fuel c /\
  (Dec.pow10 (Dec.ndigits_aux fuel c - 1) <= c
   < Dec.pow10 (Dec.ndigits_aux fuel c))%N.
Proof.
  revert c. induction fuel as [|fuel IH]; intros c Hpos Hlt.
  - simpl. change (2 ^ N.of_nat 1)%N with 2%N in Hlt.
    change (Dec.pow10 (1 - 1)) with 1%N. change (Dec.pow10 1) with 10%N. lia.
  - cbn [Dec.ndigits_aux]. destruct (N.ltb_spec c 10) as [Hc|Hc].
    + change (Dec.pow10 (1 - 1)) with 1%N. change (Dec.pow10 1) with 10%N. lia.
    + assert (Hq : (0 < c / 10)%N) by (apply N.div_str_pos; lia).
      assert (Hb : (c / 10 < 2 ^ N.of_nat (S fuel))%N).
      { apply N.Div0.div_lt_upper_bound.
        replace (N.of_nat (S (S fuel))) with (N.succ (N.of_nat (S fuel))) in Hlt by lia.
        rewrite N.pow_succ_r' in Hlt. lia. }
      destruct (IH _ Hq Hb) as (H1 & Hlo & Hhi).
      set (n := Dec.ndigits_aux fuel (c / 10)) in *.
      replace (1 + n - 1) with ((n - 1) + 1) by lia.
      replace (1 + n) with (n + 1) by lia.
      rewrite !pow10_succ by lia.
      pose proof (N.Div0.mul_div_le c 10) as Hdm.
      pose proof (N.mul_succ_div_gt c 10 ltac:(discriminate)) as Hm.
      lia.
Qed.

Lemma ndigits_spec (c : N) :
  (0 < c)%N ->
  1 <= Dec.ndigits c /\
  (Dec.pow10 (Dec.ndigits c - 1) <= c < Dec.pow10 (Dec.ndigits c))%N.
Proof.
  intros Hpos. unfold Dec.ndigits. apply ndigits_aux_spec; [exact Hpos|].
  rewrite Nat2N.inj_succ, N2Nat.id.
  apply N.log2_spec. exact Hpos.
Qed.

Lemma ndigits_pos (c : N) : 1 <= Dec.ndigits c.
Proof.
  destruct (N.eq_0_gt_0_cases c) as [->|H]; [reflexivity|].
  apply ndigits_spec. exact H.
Qed.

Lemma pow10_lt_inv (a b : Z) : 0 <= a -> (Dec.pow10 a < Dec.pow10 b)%N -> a < b.
Proof.
  intros Ha H. destruct (Z_lt_le_dec a b) as [|Hle]; [assumption|].
  apply pow10_le in Hle. lia.
Qed.

Lemma ndigits_unique (c : N) (k : Z) :
  1 <= k -> (Dec.pow10 (k - 1) <= c < Dec.pow10 k)%N -> Dec.ndigits c = k.
Proof.
  intros Hk [Hlo Hhi].
  assert (Hpos : (0 < c)%N) by (pose proof (pow10_pos (k - 1)); lia).
  destruct (ndigits_spec c Hpos) as (H1 & Hlo' & Hhi').
  assert (Dec.ndigits c - 1 < k) by (apply pow10_lt_inv; lia).
  assert (k - 1 < Dec.ndigits c) by (apply pow10_lt_inv; lia).
  lia.
Qed.

Lemma ndigits_mul_pow10 (c : N) (k : Z) :
  (0 < c)%N -> 0 <= k -> Dec.ndigits (c * Dec.pow10 k) = Dec.ndigits c + k.
Proof.
  intros Hpos Hk. destruct (ndigits_spec c Hpos) as (H1 & Hlo & Hhi).
  apply ndigits_unique; [lia|].
  replace (Dec.ndigits c + k - 1) with ((Dec.ndigits c - 1) + k) by lia.
  rewrite !pow10_add by lia.
  pose proof (pow10_pos k). split; [apply N.mul_le_mono_r | apply N.mul_lt_mono_pos_r]; lia.
Qed.

Lemma ndigits_le_lt (c : N) (k : Z) :
  0 <= k -> (c < Dec.pow10 k)%N -> (0 < c)%N -> Dec.ndigits c <= k.
Proof.
  intros Hk Hc Hpos. destruct (ndigits_spec c Hpos) as (H1 & Hlo & _).
  assert (Dec.ndigits c - 1 < k) by (apply pow10_lt_inv; lia). lia.
Qed.
(** ** The order of decimals *)

(** The coefficient of a finite decimal at a smaller exponent [m]. *)
Lemma signed_scale (s : bool) (c k : N) :
  Dec.signed s (c * k) = Dec.signed s c * Z.of_N k.
Proof. unfold Dec.signed. destruct s; lia. Qed.

Lemma ndigits_lt_lt (a b : N) :
  (0 < a)%N -> (0 < b)%N -> Dec.ndigits a < Dec.ndigits b -> (a < b)%N.
Proof.
  intros Ha Hb Hlt.
  destruct (ndigits_spec a Ha) as (_ & _ & Hhi).
  destruct (ndigits_spec b Hb) as (_ & Hlo & _).
  pose proof (pow10_le (Dec.ndigits a) (Dec.ndigits b - 1) ltac:(lia)). lia.
Qed.

Ltac solve_compare :=
  symmetry; cbv [Dec.signed Dec.sign_cmp CompOpp];
  first [apply Z.compare_lt_iff | apply Z.compare_gt_iff | apply Z.compare_eq_iff];
  lia.

Lemma cmp_scaled (sa sb : bool) (ca cb : N) (ea eb : Z) :
  let m := Z.min ea eb in
  Dec.cmp (Dec.Fin sa ca ea) (Dec.Fin sb cb eb) =
  (Dec.signed sa (ca * Dec.pow10 (ea - m)) ?= Dec.signed sb (cb * Dec.pow10 (eb - m))).
Proof.
  intros m. unfold Dec.cmp.
  pose proof (pow10_pos (ea - m)) as Pa. pose proof (pow10_pos (eb - m)) as Pb.
  set (A := (ca * Dec.pow10 (ea - m))%N). set (B := (cb * Dec.pow10 (eb - m))%N).
  destruct (N.eqb_spec ca 0) as [Ha|Ha]; destruct (N.eqb_spec cb 0) as [Hb|Hb].
  - assert (A = 0%N) by (unfold A; lia). assert (B = 0%N) by (unfold B; lia).
    destruct sa, sb; solve_compare.
  - assert (0 < B)%N by (unfold B; lia). assert (A = 0%N) by (unfold A; lia).
    destruct sa, sb; solve_compare.
  - assert (0 < A)%N by (unfold A; lia). assert (B = 0%N) by (unfold B; lia).
    destruct sa, sb; solve_compare.
  - assert (HA : (0 < A)%N) by (unfold A; lia).
    assert (HB : (0 < B)%N) by (unfold B; lia).
    assert (Hda : Dec.adjusted ca ea = Dec.ndigits A + m - 1)
      by (unfold Dec.adjusted, A; rewrite ndigits_mul_pow10 by lia; lia).
    assert (Hdb : Dec.adjusted cb eb = Dec.ndigits B + m - 1)
      by (unfold Dec.adjusted, B; rewrite ndigits_mul_pow10 by lia; lia).
    assert (HpA : (ca * Dec.pow10 (ea - eb))%N = A).
    { unfold A, m; destruct (Z.min_spec ea eb) as [[? ->]|[? ->]];
        [rewrite !pow10_0 by lia | ]; reflexivity. }
    assert (HpB : (cb * Dec.pow10 (eb - ea))%N = B).
    { unfold B, m; destruct (Z.min_spec ea eb) as [[? ->]|[? ->]];
        [ | rewrite !pow10_0 by lia]; reflexivity. }
    rewrite Hda, Hdb, HpA, HpB. clearbody A B. clear Hda Hdb HpA HpB Pa Pb.
    destruct (Z.eqb_spec (Dec.ndigits A + m - 1) (Dec.ndigits B + m - 1)) as [He|He].
    + destruct (N.eqb_spec A B) as [Hab|Hab]; [|destruct (N.ltb_spec A B)];
        destruct sa, sb; cbn [negb andb]; solve_compare.
    + destruct (Z.ltb_spec (Dec.ndigits B + m - 1) (Dec.ndigits A + m - 1)).
      * assert (B < A)%N by (apply ndigits_lt_lt; [assumption..|lia]).
        destruct sa, sb; cbn [negb andb]; solve_compare.
      * assert (A < B)%N by (apply ndigits_lt_lt; [assumption..|lia]).
        destruct sa, sb; cbn [negb andb]; solve_compare.
Qed.
(** ** Decimals as rational numbers *)

Lemma pow10_Z (k : Z) : 0 <= k -> Z.of_N (Dec.pow10 k) = 10 ^ k.
Proof.
  intros Hk. unfold Dec.pow10. rewrite N2Z.inj_pow, Z2N.id by exact Hk. reflexivity.
Qed.

Lemma Qpower10_pos (e : Z) : (0 < 10 ^ e)%Q.
Proof. apply Qpower_0_lt. reflexivity. Qed.

Lemma to_Q_scale (s : bool) (c : N) (e m : Z) :
  m <= e ->
  (Dec.to_Q s c e == inject_Z (Dec.signed s (c * Dec.pow10 (e - m))) * 10 ^ m)%Q.
Proof.
  intros Hm. unfold Dec.to_Q.
  rewrite signed_scale, pow10_Z by lia.
  rewrite inject_Z_mult, Zpower_Qpower by lia.
  rewrite <- Qmult_assoc, <- Qpower_plus by discriminate.
  replace (e - m + m) with e by lia. reflexivity.
Qed.

Lemma Qcompare_inject_Z (x y : Z) : (inject_Z x ?= inject_Z y)%Q = (x ?= y).
Proof. unfold Qcompare. simpl. rewrite !Z.mul_1_r. reflexivity. Qed.

Lemma Qcompare_mult_pos_r (x y p : Q) :
  (0 < p)%Q -> (x * p ?= y * p)%Q = (x ?= y)%Q.
Proof.
  intros Hp. destruct (Qcompare_spec x y) as [H|H|H].
  - apply Qeq_alt. rewrite H. reflexivity.
  - apply Qlt_alt. apply Qmult_lt_r; assumption.
  - apply Qgt_alt. apply Qmult_lt_r; assumption.
Qed.

(** On finite decimals [Decimal._cmp] is the order of the rationals. *)
Lemma cmp_Q (sa sb : bool) (ca cb : N) (ea eb : Z) :
  Dec.cmp (Dec.Fin sa ca ea) (Dec.Fin sb cb eb) =
  (Dec.to_Q sa ca ea ?= Dec.to_Q sb cb eb)%Q.
Proof.
  rewrite cmp_scaled.
  rewrite (to_Q_scale sa ca ea (Z.min ea eb)) by lia.
  rewrite (to_Q_scale sb cb eb (Z.min ea eb)) by lia.
  rewrite Qcompare_mult_pos_r by apply Qpower10_pos.
  symmetry. apply Qcompare_inject_Z.
Qed.
Lemma cmp_opp (a b : Decimal) : Dec.cmp b a = CompOpp (Dec.cmp a b).
Proof.
  destruct a as [sa ca ea|sa|ga], b as [sb cb eb|sb|gb];
    try (rewrite !cmp_Q; symmetry; apply Qcompare_antisym);
    try destruct sa; try destruct sb; reflexivity.
Qed.

Lemma cmp_refl (a : Decimal) : Dec.cmp a a = Eq.
Proof.
  destruct a as [s c e|[|]|g]; try reflexivity.
  rewrite cmp_Q. apply Qeq_alt. reflexivity.
Qed.

Lemma cmp_le_trans (a b c : Decimal) :
  Dec.is_nan a = false -> Dec.is_nan b = false -> Dec.is_nan c = false ->
  Dec.cmp a b <> Gt -> Dec.cmp b c <> Gt -> Dec.cmp a c <> Gt.
Proof.
  destruct a as [sa ca ea|[|]|ga], b as [sb cb eb|[|]|gb], c as [sc cc ec|[|]|gc];
    try discriminate; intros _ _ _; try (simpl; congruence).
  rewrite !cmp_Q, <- !Qle_alt. apply Qle_trans.
Qed.

Lemma cmp_lt_le_trans (a b c : Decimal) :
  Dec.is_nan a = false -> Dec.is_nan b = false -> Dec.is_nan c = false ->
  Dec.cmp a b = Lt -> Dec.cmp b c <> Gt -> Dec.cmp a c = Lt.
Proof.
  destruct a as [sa ca ea|[|]|ga], b as [sb cb eb|[|]|gb], c as [sc cc ec|[|]|gc];
    try discriminate; intros _ _ _; try (simpl; congruence).
  rewrite !cmp_Q, <- Qle_alt, <- !Qlt_alt. apply Qlt_le_trans.
Qed.

Lemma cmp_eq_lt_trans (a b c : Decimal) :
  Dec.is_nan a = false -> Dec.is_nan b = false -> Dec.is_nan c = false ->
  Dec.cmp a b = Eq -> Dec.cmp b c = Lt -> Dec.cmp a c = Lt.
Proof.
  destruct a as [sa ca ea|[|]|ga], b as [sb cb eb|[|]|gb], c as [sc cc ec|[|]|gc];
    try discriminate; intros _ _ _; try (simpl; congruence).
  rewrite !cmp_Q, <- Qeq_alt, <- !Qlt_alt. intros ->. trivial.
Qed.

Lemma lt_spec (a b : Decimal) :
  Dec.is_nan a = false -> Dec.is_nan b = false ->
  Dec.lt a b = OK (match Dec.cmp a b with Lt => true | _ => false end).
Proof. intros Ha Hb. unfold Dec.lt, Dec.compare_with. rewrite Ha, Hb. reflexivity. Qed.

Lemma gt_spec (a b : Decimal) :
  Dec.is_nan a = false -> Dec.is_nan b = false ->
  Dec.gt a b = OK (match Dec.cmp a b with Gt => true | _ => false end).
Proof. intros Ha Hb. unfold Dec.gt, Dec.compare_with. rewrite Ha, Hb. reflexivity. Qed.

Lemma ge_spec (a b : Decimal) :
  Dec.is_nan a = false -> Dec.is_nan b = false ->
  Dec.ge a b = OK (match Dec.cmp a b with Lt => false | _ => true end).
Proof. intros Ha Hb. unfold Dec.ge, Dec.compare_with. rewrite Ha, Hb. reflexivity. Qed.
(** ** Sorting *)

Lemma key_lt_spec (a b : option Decimal) :
  orderable a = true -> orderable b = true ->
  key_lt a b = OK (match key_cmp a b with Lt => true | _ => false end).
Proof.
  destruct a as [x|], b as [y|]; try discriminate. simpl.
  intros Hx Hy. apply lt_spec; apply negb_true_iff; assumption.
Qed.

Lemma key_le_trans (a b c : option Decimal) :
  orderable a = true -> orderable b = true -> orderable c = true ->
  key_le a b -> key_le b c -> key_le a c.
Proof.
  destruct a as [x|], b as [y|], c as [z|]; try discriminate. simpl.
  intros Hx Hy Hz. apply cmp_le_trans; apply negb_true_iff; assumption.
Qed.

(** A key that equals [x] cannot equal anything that [x] is below. *)
Lemma key_eqb_above (k a b c : option Decimal) :
  orderable k = true -> orderable a = true -> orderable b = true ->
  orderable c = true ->
  key_eqb k a = true -> key_cmp a b = Lt -> key_le b c -> key_eqb k c = false.
Proof.
  destruct k as [w|], a as [x|], b as [y|], c as [z|]; try discriminate.
  unfold key_eqb, key_le. simpl.
  intros Hw Hx Hy Hz Hka Hab Hbc. apply negb_true_iff in Hw, Hx, Hy, Hz.
  assert (Hwx : Dec.cmp w x = Eq) by (destruct (Dec.cmp w x); congruence).
  pose proof (cmp_lt_le_trans x y z Hx Hy Hz Hab Hbc) as Hxz.
  rewrite (cmp_eq_lt_trans w x z Hw Hx Hz Hwx Hxz). reflexivity.
Qed.

Lemma StronglySorted_snoc {A : Type} (R : A -> A -> Prop) (l : list A) (a : A) :
  StronglySorted R l -> Forall (fun x => R x a) l -> StronglySorted R (l ++ [a]).
Proof.
  induction 1 as [|b m Hm IH Hb]; intros Ha; simpl.
  - repeat constructor.
  - apply Forall_cons in Ha as [Hba Hma]. constructor; [apply IH; exact Hma|].
    apply Forall_app. split; [exact Hb|]. repeat constructor. exact Hba.
Qed.

Lemma flip_StronglySorted {A : Type} (R : A -> A -> Prop) (l : list A) :
  StronglySorted R l -> StronglySorted (fun x y => R y x) (rev l).
Proof.
  induction 1 as [|a l Hl IH Ha]; simpl; [constructor|].
  apply StronglySorted_snoc; [exact IH|]. apply Forall_rev. exact Ha.
Qed.

Lemma filter_none {A : Type} (f : A -> bool) (l : list A) :
  Forall (fun x => f x = false) l -> List.filter f l = [].
Proof.
  induction 1 as [|x l Hx _ IH]; simpl; [reflexivity|]. rewrite Hx. exact IH.
Qed.

Lemma key_cmp_opp (a b : option Decimal) :
  key_cmp b a = CompOpp (key_cmp a b).
Proof. destruct a, b; simpl; try reflexivity. apply cmp_opp. Qed.

Section SortFacts.

Context {Ref : Type} (deref : Ref -> FundItem).

Let good (x : option Decimal * Ref) : Prop := orderable x.1 = true.
Let kle (x y : option Decimal * Ref) : Prop := key_le x.1 y.1.
Let eqk (k : option Decimal) (x : option Decimal * Ref) : bool := key_eqb k x.1.

Lemma insert_by_key_spec (x : option Decimal * Ref) (l : list (option Decimal * Ref)) :
  good x -> Forall good l -> StronglySorted kle l ->
  exists l',
    insert_by_key x l = OK l' /\ Permutation (x :: l) l' /\
    Forall good l' /\ StronglySorted kle l' /\
    forall k, orderable k = true ->
      List.filter (eqk k) l' = List.filter (eqk k) l ++ List.filter (eqk k) [x].
Proof.
  intros Hx Hl Hs. induction Hs as [|y r Hr IH Hy]; simpl.
  - exists [x]. repeat split; auto. repeat constructor.
  - apply Forall_cons in Hl as [Hgy Hgr].
    rewrite key_lt_spec by assumption.
    assert (Hlt : key_cmp x.1 y.1 = Lt \/ kle y x).
    { unfold kle, key_le. rewrite (key_cmp_opp x.1 y.1).
      destruct (key_cmp x.1 y.1); [right|left|right]; simpl; congruence. }
    destruct Hlt as [Hc|Hyx].
    + rewrite Hc. simpl.
      exists (x :: y :: r). split; [reflexivity|]. split; [reflexivity|].
      assert (Hxy : kle x y) by (unfold kle, key_le; rewrite Hc; discriminate).
      split; [repeat constructor; assumption|]. split.
      * constructor; [constructor; assumption|]. constructor; [exact Hxy|].
        rewrite Forall_forall in Hy, Hgr |- *. intros z Hz.
        eapply key_le_trans; [exact Hx|exact Hgy|apply Hgr, Hz|exact Hxy|apply Hy, Hz].
      * intros k Hk. cbn [List.filter]. destruct (eqk k x) eqn:Hkx.
        -- assert (Hnone : List.filter (eqk k) (y :: r) = []).
           { apply filter_none. constructor.
             - eapply key_eqb_above; [exact Hk|exact Hx|exact Hgy|exact Hgy|exact Hkx|exact Hc|].
               unfold key_le. rewrite key_cmp_opp.
               destruct y as [[d|] ?]; [|discriminate]. simpl. rewrite cmp_refl. discriminate.
             - rewrite Forall_forall in Hy, Hgr |- *. intros z Hz.
               eapply key_eqb_above; [exact Hk|exact Hx|exact Hgy|apply Hgr, Hz|exact Hkx|exact Hc|apply Hy, Hz]. }
           cbn [List.filter] in Hnone. rewrite Hnone. reflexivity.
        -- rewrite app_nil_r. reflexivity.
    + assert (Hb : (match key_cmp x.1 y.1 with Lt => true | _ => false end) = false).
      { unfold kle, key_le in Hyx. rewrite key_cmp_opp in Hyx.
        destruct (key_cmp x.1 y.1); simpl in Hyx; congruence. }
      rewrite Hb. simpl.
      destruct (IH Hgr) as (r' & -> & Hp & Hg & Hs' & Hf). simpl.
      exists (y :: r'). split; [reflexivity|]. split.
      { rewrite perm_swap. constructor. exact Hp. }
      split; [constructor; assumption|]. split.
      * constructor; [exact Hs'|]. rewrite <- Hp. constructor; assumption.
      * intros k Hk. cbn [List.filter]. rewrite (Hf k Hk).
        destruct (eqk k y); reflexivity.
Qed.

Lemma sort_keyed_spec (todo done : list (option Decimal * Ref)) :
  Forall good todo -> Forall good done -> StronglySorted kle done ->
  exists s,
    sort_keyed done todo = OK s /\ Permutation (done ++ todo) s /\
    Forall good s /\ StronglySorted kle s /\
    forall k, orderable k = true ->
      List.filter (eqk k) s = List.filter (eqk k) done ++ List.filter (eqk k) todo.
Proof.
  revert done. induction todo as [|x r IH]; intros done Ht Hd Hs; simpl.
  - exists done. rewrite app_nil_r. repeat split; auto.
    intros k _. rewrite app_nil_r. reflexivity.
  - apply Forall_cons in Ht as [Hx Hr].
    destruct (insert_by_key_spec x done Hx Hd Hs) as (d' & -> & Hp & Hg & Hs' & Hf).
    simpl. destruct (IH d' Hr Hg Hs') as (s & -> & Hp' & Hg' & Hs'' & Hf').
    exists s. split; [reflexivity|]. split.
    { rewrite <- Hp', <- Hp. simpl. symmetry. apply Permutation_middle. }
    split; [exact Hg'|]. split; [exact Hs''|].
    intros k Hk. rewrite (Hf' k Hk), (Hf k Hk), <- app_assoc.
    cbn [List.filter]. destruct (eqk k x); reflexivity.
Qed.

End SortFacts.
Lemma StronglySorted_map_inv {A B : Type} (R : B -> B -> Prop) (g : A -> B)
    (l : list A) :
  StronglySorted R (map g l) -> StronglySorted (fun x y => R (g x) (g y)) l.
Proof.
  induction l as [|a l IH]; simpl; intros H; [constructor|].
  apply StronglySorted_inv in H as [Hs Ha]. constructor; [apply IH, Hs|].
  rewrite List.Forall_map in Ha. exact Ha.
Qed.

Lemma StronglySorted_impl_rel {A : Type} (R S : A -> A -> Prop) (l : list A) :
  (forall x y, R x y -> S x y) -> StronglySorted R l -> StronglySorted S l.
Proof.
  intros HRS. induction 1 as [|a l Hl IH Ha]; constructor; [exact IH|].
  eapply Forall_impl; [exact Ha|]. intros y. apply HRS.
Qed.

Section SortedFacts.

Context {Ref : Type} (deref : Ref -> FundItem).

Lemma keyed_fixed (key : FundItem -> option Decimal)
    (l : list Ref) (s : list (option Decimal * Ref)) :
  Permutation (map (fun x => (key (deref x), x)) l) s ->
  s = map (fun x => (key (deref x), x)) (map snd s).
Proof.
  intros Hp.
  assert (Hall : Forall (fun p => p = (key (deref p.2), p.2)) s).
  { rewrite <- Hp. apply List.Forall_map. apply Forall_forall. reflexivity. }
  clear Hp. induction Hall as [|p s Hp _ IH]; simpl; [reflexivity|].
  rewrite <- IH. f_equal. exact Hp.
Qed.

Lemma sorted_spec (key : FundItem -> option Decimal) (reverse : bool)
    (funds : list Ref) :
  Forall (fun x => orderable (key (deref x)) = true) funds ->
  exists out,
    sorted deref funds key reverse = OK out /\
    stable_sort_of deref key reverse funds out.
Proof.
  intros Hgood. unfold sorted.
  set (g := fun x : Ref => (key (deref x), x)).
  set (input := if reverse then rev funds else funds).
  assert (Hin : (if reverse then rev (map g funds) else map g funds) = map g input)
    by (unfold input; destruct reverse; [apply eq_sym, map_rev|reflexivity]).
  rewrite Hin.
  assert (Hgi : Forall (fun p : option Decimal * Ref => orderable p.1 = true) (map g input)).
  { apply List.Forall_map. unfold input.
    destruct reverse; [apply Forall_rev|]; exact Hgood. }
  destruct (sort_keyed_spec (map g input) [] Hgi (List.Forall_nil _) (SSorted_nil _))
    as (s & -> & Hp & _ & Hs & Hf).
  simpl in Hp, Hf |- *.
  pose proof (keyed_fixed key input s Hp) as Hfix.
  set (o := map snd s) in *.
  assert (Hmg : forall m, map snd (map g m) = m).
  { intros m. rewrite map_map. apply map_id. }
  assert (Hpo : Permutation input o).
  { rewrite <- (Hmg input). unfold o. apply Permutation_map. exact Hp. }
  assert (Hso : StronglySorted
            (fun x y => key_le (key (deref x)) (key (deref y))) o).
  { rewrite Hfix in Hs. apply StronglySorted_map_inv in Hs. exact Hs. }
  assert (Hfo : forall k, orderable k = true ->
            with_metric deref key k o = with_metric deref key k input).
  { intros k Hk. specialize (Hf k Hk). rewrite Hfix in Hf.
    rewrite !filter_map_swap in Hf.
    apply (f_equal (map snd)) in Hf. rewrite !Hmg in Hf. exact Hf. }
  exists (map snd (if reverse then rev s else s)). split; [reflexivity|].
  unfold stable_sort_of, metric_sorted, with_metric in *. unfold input in *.
  destruct reverse.
  - rewrite map_rev. fold o. split; [|split].
    + rewrite <- (Permutation_rev o), <- Hpo. apply Permutation_rev.
    + apply flip_StronglySorted in Hso.
      eapply StronglySorted_impl_rel; [|exact Hso].
      intros x y H. unfold key_ge, key_le in *. rewrite key_cmp_opp.
      destruct (key_cmp _ _); simpl; congruence.
    + intros k Hk. rewrite List.filter_rev, (Hfo k Hk), List.filter_rev, rev_involutive.
      reflexivity.
  - fold o. split; [exact Hpo|]. split; [exact Hso|exact Hfo].
Qed.

End SortedFacts.
(** C7: ranking by profit or by profitRate is a stable sort of the computed
    results: the output is a permutation of the input in the order of the
    metric, entries with equal metric values keep their input order, and
    the order is descending unless the caller asks otherwise. *)
Theorem ranking_stable {Ref : Type} (deref : Ref -> FundItem)
    (funds : list Ref) (descending : option bool) :
  Forall (fun x => computed (deref x) = true) funds ->
  (exists out, sort_by_profit deref funds descending = OK out /\
     stable_sort_of deref profit (arg true descending) funds out) /\
  (exists out, sort_by_profit_rate deref funds descending = OK out /\
     stable_sort_of deref profit_rate (arg true descending) funds out) /\
  sort_by_profit deref funds None = sort_by_profit deref funds (Some true) /\
  sort_by_profit_rate deref funds None = sort_by_profit_rate deref funds (Some true).
Proof.
  intros Hc. split; [|split; [|split; reflexivity]].
  - apply sorted_spec. eapply Forall_impl; [exact Hc|].
    intros x Hx. apply andb_true_iff in Hx. apply Hx.
  - apply sorted_spec. eapply Forall_impl; [exact Hc|].
    intros x Hx. apply andb_true_iff in Hx. apply Hx.
Qed.

Lemma ranking_stable_witness :
  let a := result_with (PyStr.lit "a") Decimal_5 Decimal_1_0 in
  let b := result_with (PyStr.lit "b") Decimal_100 Decimal_0 in
  let c := result_with (PyStr.lit "c") (Dec.Fin false 50 (-1)) Decimal_1_0 in
  Forall (fun x => computed (id x) = true) [a; b; c] /\
  exists out, sort_by_profit id [a; b; c] None = OK out /\
    stable_sort_of id profit true [a; b; c] out.
Proof.
  intros a b c.
  assert (H : Forall (fun x => computed (id x) = true) [a; b; c])
    by (repeat constructor).
  split; [exact H|].
  exact (proj1 (ranking_stable id [a; b; c] None H)).
Defined.

(** Equal profits (5 and 5.0) keep their input order behind the larger. *)
Example ranking_stable_run :
  let a := result_with (PyStr.lit "a") Decimal_5 Decimal_1_0 in
  let b := result_with (PyStr.lit "b") Decimal_100 Decimal_0 in
  let c := result_with (PyStr.lit "c") (Dec.Fin false 50 (-1)) Decimal_1_0 in
  sort_by_profit id [a; b; c] None = OK [b; a; c] /\
  sort_by_profit id [c; b; a] None = OK [b; c; a] /\
  sort_by_profit id [a; b; c] (Some false) = OK [a; c; b].
Proof. vm_compute. repeat split. Qed.

(** ** Exactly representable decimals *)

Lemma fix_representable (s s' : bool) (c : N) (e : Z) :
  representable (Dec.Fin s c e) = true ->
  Dec.fix_ (Dec.Fin s' c e) = OK (Dec.Fin s' c e).
Proof.
  unfold representable, Dec.fix_, Dec.adjusted, Dec.Etop, Dec.Etiny.
  intros H. apply andb_true_iff in H as [He H]. apply Z.leb_le in He.
  destruct (N.eqb_spec c 0) as [->|Hc].
  - apply Z.leb_le in H. f_equal. f_equal. unfold Dec.Etiny. lia.
  - apply andb_true_iff in H as [Hn Ha]. apply Z.leb_le in Hn, Ha.
    unfold Dec.prec, Dec.Emax, Dec.Emin in *.
    repeat match goal with
           | |- context [Z.ltb ?a ?b] => destruct (Z.ltb_spec a b); try lia
           end; reflexivity.
Qed.

Lemma representable_not_nan (d : Decimal) :
  representable d = true -> Dec.is_nan d = false.
Proof. destruct d; [reflexivity|discriminate..]. Qed.

Lemma to_Q_zero (s : bool) (e : Z) : (Dec.to_Q s 0 e == 0)%Q.
Proof. unfold Dec.to_Q. destruct s; simpl; apply Qmult_0_l. Qed.

Lemma to_Q_abs (s : bool) (c : N) (e : Z) :
  (Qabs (Dec.to_Q s c e) == Dec.to_Q false c e)%Q.
Proof.
  unfold Dec.to_Q. rewrite Qabs_Qmult.
  rewrite (Qabs_pos (10 ^ e)) by (apply Qlt_le_weak, Qpower10_pos).
  apply Qmult_comp; [|reflexivity].
  unfold Qabs, inject_Z, Dec.signed. destruct s; simpl.
  - rewrite Z.abs_opp, Z.abs_eq by lia. reflexivity.
  - rewrite Z.abs_eq by lia. reflexivity.
Qed.

Lemma Qltb_compare (x y : Q) :
  Qltb x y = match (x ?= y)%Q with Lt => true | _ => false end.
Proof.
  unfold Qltb. destruct (Qcompare_spec x y) as [H|H|H].
  - apply negb_false_iff, Qle_bool_iff. rewrite H. apply Qle_refl.
  - apply negb_true_iff. destruct (Qle_bool y x) eqn:E; [|reflexivity].
    apply Qle_bool_iff in E. exfalso. exact (Qlt_not_le _ _ H E).
  - apply negb_false_iff, Qle_bool_iff. apply Qlt_le_weak. exact H.
Qed.

Lemma Qle_bool_compare (x y : Q) :
  Qle_bool x y = match (y ?= x)%Q with Lt => false | _ => true end.
Proof.
  rewrite <- (negb_involutive (Qle_bool x y)).
  change (negb (Qle_bool x y)) with (Qltb y x). rewrite Qltb_compare.
  destruct (y ?= x)%Q; reflexivity.
Qed.

Lemma cmp_Qval (a b : Decimal) :
  Dec.is_finite a = true -> Dec.is_finite b = true ->
  Dec.cmp a b = (Qval a ?= Qval b)%Q.
Proof. destruct a, b; try discriminate. intros _ _. apply cmp_Q. Qed.

(** ** The filter *)

Lemma premium_test_spec (fund : FundItem) (m : Decimal) :
  representable (discount_rt fund) = true -> Dec.is_finite m = true ->
  premium_test fund m =
    OK (Qltb (Qval (discount_rt fund)) 0
        && Qle_bool (Qval m) (Qabs (Qval (discount_rt fund)))).
Proof.
  intros Hr Hm. unfold premium_test.
  assert (Hmn : Dec.is_nan m = false) by (destruct m; [reflexivity|discriminate..]).
  rewrite lt_spec by (auto using representable_not_nan).
  destruct (discount_rt fund) as [s c e| |] eqn:Hd; try discriminate.
  change (Dec.of_int 0) with (Dec.Fin false 0 0).
  rewrite cmp_Q, Qltb_compare. cbn [Qval rbind].
  assert (H0 : (Dec.to_Q false 0 0 == 0)%Q) by reflexivity.
  rewrite H0.
  destruct (Dec.to_Q s c e ?= 0)%Q; try reflexivity.
  cbn [Dec.abs andb]. rewrite (fix_representable s false c e Hr). cbn [rbind].
  rewrite ge_spec by auto. rewrite cmp_Qval by auto.
  rewrite Qle_bool_compare, to_Q_abs. reflexivity.
Qed.

Lemma discount_test_spec (fund : FundItem) (m : Decimal) :
  representable (discount_rt fund) = true -> Dec.is_finite m = true ->
  discount_test fund m =
    OK (Qltb 0 (Qval (discount_rt fund))
        && Qle_bool (Qval m) (Qval (discount_rt fund))).
Proof.
  intros Hr Hm. unfold discount_test.
  assert (Hmn : Dec.is_nan m = false) by (destruct m; [reflexivity|discriminate..]).
  pose proof (representable_not_nan _ Hr) as Hn.
  assert (Hf : Dec.is_finite (discount_rt fund) = true)
    by (destruct (discount_rt fund); [reflexivity|discriminate..]).
  rewrite gt_spec by auto. rewrite cmp_Qval by auto.
  rewrite Qltb_compare. change (Qval (Dec.of_int 0)) with (Dec.to_Q false 0 0).
  assert (H0 : (Dec.to_Q false 0 0 == 0)%Q) by reflexivity. rewrite H0.
  rewrite <- (Qcompare_antisym 0 (Qval (discount_rt fund))).
  destruct (0 ?= Qval (discount_rt fund))%Q; try reflexivity.
  cbn [CompOpp rbind andb]. rewrite ge_spec by auto. rewrite cmp_Qval by auto.
  rewrite Qle_bool_compare. reflexivity.
Qed.
Section FilterSpec.

Context {Ref : Type} (deref : Ref -> FundItem).

Lemma filter_loop_spec (test : FundItem -> Decimal -> result bool)
    (eligible : FundItem -> bool) (mode : str) (m : Decimal) :
  (forall fund acc rest,
     status_open (deref fund) = true ->
     filter_loop deref (fund :: rest) m mode acc =
     let! c := test (deref fund) m in
     filter_loop deref rest m mode (if c then acc ++ [fund] else acc)) ->
  (forall fund, status_open fund = true -> representable (discount_rt fund) = true ->
     test fund m = OK (eligible fund)) ->
  (forall fund, status_open fund = false -> eligible fund = false) ->
  forall funds acc,
    Forall (fun r => divergence_ok (deref r) = true) funds ->
    filter_loop deref funds m mode acc =
    OK (acc ++ List.filter (fun r => eligible (deref r)) funds).
Proof.
  intros Hstep Htest Hclosed funds.
  induction funds as [|fund rest IH]; intros acc Hok.
  - simpl. rewrite app_nil_r. reflexivity.
  - apply Forall_cons in Hok as [Hf Hrest]. unfold divergence_ok in Hf.
    destruct (status_open (deref fund)) eqn:Hs.
    + rewrite Hstep by exact Hs. simpl in Hf. rewrite (Htest _ Hs Hf).
      cbn [rbind List.filter]. rewrite IH by exact Hrest.
      destruct (eligible (deref fund)); [rewrite <- app_assoc|]; reflexivity.
    + cbn [filter_loop List.filter]. rewrite Hs, (Hclosed _ Hs). simpl.
      apply IH. exact Hrest.
Qed.

(** C2: in premium mode the filter returns exactly the quotes whose
    subscription channel is open (or open with a large-amount limit) and
    whose divergence rate is negative with absolute value at least the
    threshold, and in discount mode exactly the open quotes with a positive
    divergence rate at least the threshold, in input order; a quote that
    fails the status gate is left out whatever its divergence. *)
Theorem filter_exact (funds : list Ref) (min_divergence : Decimal) :
  Forall (fun r => divergence_ok (deref r) = true) funds ->
  Dec.is_finite min_divergence = true ->
  filter_arbitrage_opportunities deref funds (Some min_divergence)
    (Some (PyStr.lit "premium"))
  = OK (List.filter (fun r => premium_eligible min_divergence (deref r)) funds) /\
  filter_arbitrage_opportunities deref funds (Some min_divergence)
    (Some (PyStr.lit "discount"))
  = OK (List.filter (fun r => discount_eligible min_divergence (deref r)) funds) /\
  (forall r, status_open (deref r) = false ->
     premium_eligible min_divergence (deref r) = false /\
     discount_eligible min_divergence (deref r) = false).
Proof.
  intros Hok Hm. unfold filter_arbitrage_opportunities. cbn [arg].
  split; [|split].
  - apply (filter_loop_spec premium_test (premium_eligible min_divergence)
             (PyStr.lit "premium") min_divergence); [| | |exact Hok].
    + intros fund acc rest Hs. cbn [filter_loop]. rewrite Hs. reflexivity.
    + intros fund Hs Hr. rewrite premium_test_spec by assumption.
      unfold premium_eligible. rewrite Hs, <- andb_assoc. reflexivity.
    + intros fund Hs. unfold premium_eligible. rewrite Hs. reflexivity.
  - apply (filter_loop_spec discount_test (discount_eligible min_divergence)
             (PyStr.lit "discount") min_divergence); [| | |exact Hok].
    + intros fund acc rest Hs. cbn [filter_loop]. rewrite Hs. reflexivity.
    + intros fund Hs Hr. rewrite discount_test_spec by assumption.
      unfold discount_eligible. rewrite Hs, <- andb_assoc. reflexivity.
    + intros fund Hs. unfold discount_eligible. rewrite Hs. reflexivity.
  - intros r Hs. unfold premium_eligible, discount_eligible. rewrite Hs.
    split; reflexivity.
Qed.

End FilterSpec.

Lemma filter_exact_witness :
  let funds :=
    [ fund_with (PyStr.lit "开放申购") (Dec.Fin true 10 (-1)) [];
      fund_with (PyStr.lit "暂停申购") (Dec.NaN false) [];
      fund_with (PyStr.lit "限大额") (Dec.Fin true 99 (-2)) [];
      fund_with (PyStr.lit "开放") (Dec.Fin false 25 (-1)) [] ] in
  Forall (fun r => divergence_ok (id r) = true) funds /\
  Dec.is_finite Decimal_1_0 = true /\
  filter_arbitrage_opportunities id funds (Some Decimal_1_0)
    (Some (PyStr.lit "premium"))
  = OK (List.filter (fun r => premium_eligible Decimal_1_0 (id r)) funds).
Proof.
  intros funds.
  assert (H : Forall (fun r => divergence_ok (id r) = true) funds)
    by (repeat constructor).
  split; [exact H|]. split; [reflexivity|].
  exact (proj1 (filter_exact id funds Decimal_1_0 H eq_refl)).
Defined.

(** A divergence equal to the threshold passes; a closed channel does not,
    at any threshold. *)
Example filter_exact_run :
  let a := fund_with (PyStr.lit "开放申购") (Dec.Fin true 10 (-1)) [] in
  let b := fund_with (PyStr.lit "暂停申购") (Dec.Fin true 50 (-1)) [] in
  let c := fund_with (PyStr.lit "限大额") (Dec.Fin true 99 (-2)) [] in
  let d := fund_with (PyStr.lit "开放") (Dec.Fin false 25 (-1)) [] in
  filter_arbitrage_opportunities id [a; b; c; d] (Some Decimal_1_0)
    (Some (PyStr.lit "premium")) = OK [a] /\
  filter_arbitrage_opportunities id [a; b; c; d] (Some Decimal_0)
    (Some (PyStr.lit "premium")) = OK [a; c] /\
  filter_arbitrage_opportunities id [a; b; c; d] (Some Decimal_0)
    (Some (PyStr.lit "discount")) = OK [d].
Proof. vm_compute. repeat split. Qed.

(** ** Arithmetic within the exponent range *)

Lemma div_pow10_digits (c : N) (p : Z) :
  (0 < c)%N -> 1 <= p -> p < Dec.ndigits c ->
  let q := (c / Dec.pow10 (Dec.ndigits c - p))%N in
  (Dec.pow10 (p - 1) <= q < Dec.pow10 p)%N.
Proof.
  intros Hc Hp Hlt q. destruct (ndigits_spec c Hc) as (_ & Hlo & Hhi).
  set (n := Dec.ndigits c) in *. pose proof (pow10_pos (n - p)) as Hk.
  assert (E1 : Dec.pow10 (n - 1) = (Dec.pow10 (p - 1) * Dec.pow10 (n - p))%N)
    by (rewrite <- pow10_add by lia; f_equal; lia).
  assert (E2 : Dec.pow10 n = (Dec.pow10 p * Dec.pow10 (n - p))%N)
    by (rewrite <- pow10_add by lia; f_equal; lia).
  rewrite E1 in Hlo. rewrite E2 in Hhi.
  split.
  - apply N.div_le_lower_bound; [lia|]. lia.
  - apply N.Div0.div_lt_upper_bound. lia.
Qed.

Lemma fix_ranged (L U : Z) (s : bool) (c : N) (e : Z) :
  Dec.Etiny <= L -> U + 1 <= Dec.Emax ->
  L <= e -> Dec.adjusted c e <= U ->
  exists c' e',
    Dec.fix_ (Dec.Fin s c e) = OK (Dec.Fin s c' e') /\
    L <= e' /\ Dec.adjusted c' e' <= U + 1 /\ (c' = 0%N <-> c = 0%N).
Proof.
  unfold Dec.adjusted, Dec.fix_, Dec.Etop, Dec.Etiny, Dec.Emax, Dec.Emin, Dec.prec.
  intros HL HU He Ha.
  destruct (N.eqb_spec c 0) as [->|Hc].
  - exists 0%N, e. change (Dec.ndigits 0) with 1 in *.
    split; [f_equal; f_equal; lia|]. split; [lia|]. split; [|tauto].
    change (Dec.ndigits 0) with 1. lia.
  - assert (Hpos : (0 < c)%N) by lia.
    pose proof (ndigits_pos c) as Hn. set (n := Dec.ndigits c) in *.
    destruct (Z.ltb_spec (999999 - 28 + 1) (n + e - 28)) as [?|_]; [lia|].
    destruct (Z.ltb_spec (n + e - 28) (-999999 - 28 + 1)).
    { destruct (Z.ltb_spec e (-999999 - 28 + 1)); [lia|].
      exists c, e. repeat split; try lia. }
    destruct (Z.ltb_spec e (n + e - 28)) as [Hr|?].
    2: { exists c, e. repeat split; try lia. }
    replace (n + e - (n + e - 28)) with 28 by lia.
    change (28 <? 0) with false. cbv iota beta.
    replace (n + e - 28 - e) with (n - 28) by lia.
    assert (Hn28 : 28 < n) by lia.
    assert (H128 : 1 <= 28) by lia.
    destruct (div_pow10_digits c 28 Hpos H128 Hn28) as [Hlo Hhi].
    fold n in Hlo, Hhi. set (q := (c / Dec.pow10 (n - 28))%N) in *.
    assert (Hq : Dec.ndigits q = 28) by (apply ndigits_unique; [lia|split; assumption]).
    assert (Hq0 : (0 < q)%N) by (pose proof (pow10_pos (28 - 1)); lia).
    destruct (Dec.round_half_even _ _ _).
    + destruct (Z.ltb_spec 28 (Dec.ndigits (q + 1))) as [Hov|Hno].
      * assert (Hq1 : (q + 1 = Dec.pow10 28)%N).
        { destruct (N.lt_ge_cases (q + 1) (Dec.pow10 28)) as [Hl|Hg]; [|lia].
          pose proof (ndigits_le_lt (q + 1) 28 ltac:(lia) Hl ltac:(lia)). lia. }
        rewrite Hq1. change (Dec.pow10 28 / 10)%N with (Dec.pow10 27).
        destruct (Z.ltb_spec (999999 - 28 + 1) (n + e - 28 + 1)); [lia|].
        eexists _, _. split; [reflexivity|].
        change (Dec.ndigits (Dec.pow10 27)) with 28.
        split; [lia|]. split; [lia|]. split; [discriminate|lia].
      * destruct (Z.ltb_spec (999999 - 28 + 1) (n + e - 28)); [lia|].
        eexists _, _. split; [reflexivity|].
        split; [lia|]. split; [lia|]. split; lia.
    + eexists _, _. split; [reflexivity|].
      split; [lia|]. split; [lia|]. split; lia.
Qed.
Lemma ndigits_mul_le (a b : N) :
  (0 < a)%N -> (0 < b)%N -> Dec.ndigits (a * b) <= Dec.ndigits a + Dec.ndigits b.
Proof.
  intros Ha Hb.
  destruct (ndigits_spec a Ha) as (Ha1 & _ & Hahi).
  destruct (ndigits_spec b Hb) as (Hb1 & _ & Hbhi).
  apply ndigits_le_lt; [lia| |lia].
  rewrite pow10_add by lia. apply N.mul_lt_mono; assumption.
Qed.

Lemma ranged_finite (L U : Z) (d : Decimal) : ranged L U d -> Dec.is_finite d = true.
Proof. destruct d; simpl; tauto. Qed.

Lemma ranged_weaken (L U L' U' : Z) (d : Decimal) :
  L' <= L -> U <= U' -> ranged L U d -> ranged L' U' d.
Proof. destruct d; simpl; [lia|tauto..]. Qed.

Lemma mul_ranged (La Ua Lb Ub : Z) (a b : Decimal) :
  ranged La Ua a -> ranged Lb Ub b ->
  Dec.Etiny <= La + Lb -> Ua + Ub + 2 <= Dec.Emax ->
  exists r, Dec.mul a b = OK r /\ ranged (La + Lb) (Ua + Ub + 2) r /\
            is_zero r = is_zero a || is_zero b.
Proof.
  destruct a as [sa ca ea| |], b as [sb cb eb| |]; try (simpl; tauto).
  intros [Hla Hua] [Hlb Hub] HL HU. cbn [Dec.mul is_zero].
  pose proof (ndigits_pos ca). pose proof (ndigits_pos cb).
  unfold Dec.adjusted in *.
  assert (Hadj : Dec.adjusted (ca * cb) (ea + eb) <= Ua + Ub + 1).
  { unfold Dec.adjusted.
    destruct (N.eq_0_gt_0_cases ca) as [->|Hca].
    { rewrite N.mul_0_l. change (Dec.ndigits 0) with 1 in *. lia. }
    destruct (N.eq_0_gt_0_cases cb) as [->|Hcb].
    { rewrite N.mul_0_r. change (Dec.ndigits 0) with 1 in *. lia. }
    pose proof (ndigits_mul_le ca cb Hca Hcb). lia. }
  destruct (fix_ranged (La + Lb) (Ua + Ub + 1) (xorb sa sb) (ca * cb) (ea + eb))
    as (c' & e' & -> & Hl' & Hu' & Hz); try lia.
  exists (Dec.Fin (xorb sa sb) c' e'). split; [reflexivity|].
  split; [simpl; lia|]. cbn [is_zero].
  destruct (N.eqb_spec c' 0) as [E|E], (N.eqb_spec ca 0), (N.eqb_spec cb 0);
    simpl; try reflexivity; exfalso; lia.
Qed.

Lemma scaled_lt (c : N) (e m U : Z) :
  m <= e -> Dec.adjusted c e <= U ->
  (c * Dec.pow10 (e - m) < Dec.pow10 (U + 1 - m))%N.
Proof.
  intros Hm Ha. unfold Dec.adjusted in Ha. pose proof (ndigits_pos c).
  destruct (N.eq_0_gt_0_cases c) as [->|Hc].
  - rewrite N.mul_0_l. apply pow10_pos.
  - destruct (ndigits_spec c Hc) as (_ & _ & Hhi).
    apply N.lt_le_trans with (Dec.pow10 (Dec.ndigits c) * Dec.pow10 (e - m))%N.
    + apply N.mul_lt_mono_pos_r; [apply pow10_pos|exact Hhi].
    + rewrite <- pow10_add by lia. apply pow10_le. lia.
Qed.

Lemma add_ranged (La Ua Lb Ub : Z) (a b : Decimal) :
  ranged La Ua a -> ranged Lb Ub b ->
  Dec.Etiny <= Z.min La Lb -> Z.max Ua Ub + 2 <= Dec.Emax ->
  exists r, Dec.add a b = OK r /\ ranged (Z.min La Lb) (Z.max Ua Ub + 2) r /\
            (is_zero a = true -> is_zero b = true -> is_zero r = true).
Proof.
  destruct a as [sa ca ea| |], b as [sb cb eb| |]; try (simpl; tauto).
  intros [Hla Hua] [Hlb Hub] HL HU. cbn [Dec.add is_zero].
  set (m := Z.min ea eb). set (M := Z.max Ua Ub).
  pose proof (ndigits_pos ca). pose proof (ndigits_pos cb).
  assert (Hea : ea <= Ua) by (unfold Dec.adjusted in *; lia).
  assert (Heb : eb <= Ub) by (unfold Dec.adjusted in *; lia).
  pose proof (scaled_lt ca ea m M ltac:(lia) ltac:(lia)) as HA.
  pose proof (scaled_lt cb eb m M ltac:(lia) ltac:(lia)) as HB.
  set (A := (ca * Dec.pow10 (ea - m))%N) in *.
  set (B := (cb * Dec.pow10 (eb - m))%N) in *.
  set (z := Dec.signed sa A + Dec.signed sb B).
  destruct (Z.eqb_spec z 0) as [Hz|Hz].
  - destruct (fix_ranged (Z.min La Lb) (M + 1) (sa && sb) 0 m)
      as (c' & e' & -> & Hl' & Hu' & Hz'); try lia.
    { unfold Dec.adjusted. change (Dec.ndigits 0) with 1. lia. }
    eexists. split; [reflexivity|]. split; [simpl; lia|].
    intros _ _. simpl. apply N.eqb_eq. tauto.
  - assert (Hlt : (Z.abs_N z < Dec.pow10 (M + 2 - m))%N).
    { replace (M + 2 - m) with ((M + 1 - m) + 1) by lia.
      rewrite pow10_succ by lia.
      unfold z, Dec.signed. destruct sa, sb; lia. }
    assert (Hadj : Dec.adjusted (Z.abs_N z) m <= M + 1).
    { unfold Dec.adjusted.
      pose proof (ndigits_le_lt (Z.abs_N z) (M + 2 - m) ltac:(lia) Hlt ltac:(lia)). lia. }
    destruct (fix_ranged (Z.min La Lb) (M + 1) (z <? 0) (Z.abs_N z) m)
      as (c' & e' & -> & Hl' & Hu' & Hz'); try lia.
    eexists. split; [reflexivity|]. split; [simpl; lia|].
    intros Ha0 Hb0. apply N.eqb_eq in Ha0, Hb0. exfalso. apply Hz.
    unfold z, A, B. subst ca cb. rewrite !N.mul_0_l. destruct sa, sb; reflexivity.
Qed.

Lemma sub_ranged (La Ua Lb Ub : Z) (a b : Decimal) :
  ranged La Ua a -> ranged Lb Ub b ->
  Dec.Etiny <= Z.min La Lb -> Z.max Ua Ub + 2 <= Dec.Emax ->
  exists r, Dec.sub a b = OK r /\ ranged (Z.min La Lb) (Z.max Ua Ub + 2) r.
Proof.
  intros Ha Hb HL HU. unfold Dec.sub.
  assert (Hb' : ranged Lb Ub (Dec.copy_negate b)) by (destruct b; exact Hb).
  destruct (add_ranged La Ua Lb Ub a _ Ha Hb' HL HU) as (r & Hr & Hrr & _).
  exists r. split; assumption.
Qed.

Lemma py_max_ranged (L U : Z) (a b : Decimal) :
  ranged L U a -> ranged L U b ->
  exists r, py_max a b = OK r /\ ranged L U r.
Proof.
  intros Ha Hb. unfold py_max.
  rewrite gt_spec by (destruct a, b; simpl in *; tauto). cbn [rbind].
  destruct (Dec.cmp b a); eexists; (split; [reflexivity|assumption]).
Qed.
(** ** The calculation *)

Lemma ordinary_ranged (d : Decimal) : ordinary d = true -> ranged (-1000) 1000 d.
Proof.
  destruct d as [s c e| |]; try discriminate. simpl.
  intros H. apply andb_true_iff in H as [H1 H2]. lia.
Qed.

(** On ordinary inputs no step of the calculation overflows or meets a
    special value: the local variables are all computed. *)
Lemma arbitrage_locals_total (self : FundItem) (account : Account) (quantity : Z) :
  ordinary_inputs self account quantity = true ->
  exists v,
    arbitrage_locals self (parse_apply_fee self) account quantity = OK v /\
    ranged (-3000) 3006 (actual_cost v) /\
    ranged (-3000) 3012 (net_profit v) /\
    (is_zero (fund_nav self) = true -> is_zero (actual_cost v) = true).
Proof.
  unfold ordinary_inputs. intros H.
  apply andb_true_iff in H as [H Hq]. apply andb_true_iff in H as [H Ht].
  apply andb_true_iff in H as [H Hm]. apply andb_true_iff in H as [H Hc].
  apply andb_true_iff in H as [H Hr]. apply andb_true_iff in H as [Hn Hp].
  apply ordinary_ranged in Hq, Ht, Hm, Hc, Hr, Hn, Hp.
  assert (B1 : forall x y, Dec.Etiny <= x -> -3000 <= y -> Dec.Etiny <= Z.min x y)
    by (unfold Dec.Etiny, Dec.Emin, Dec.prec; lia).
  assert (B2 : forall x, -3000 <= x -> Dec.Etiny <= x)
    by (unfold Dec.Etiny, Dec.Emin, Dec.prec; lia).
  assert (B3 : forall x, x <= 3012 -> x <= Dec.Emax) by (unfold Dec.Emax; lia).
  unfold arbitrage_locals.
  destruct (mul_ranged (-1000) 1000 (-1000) 1000 _ _ Hn Hq)
    as (amount & -> & Ra & Za); [apply B2; lia|apply B3; lia|].
  cbn [rbind].
  destruct (mul_ranged _ _ (-1000) 1000 _ _ Ra Hr)
    as (fee & -> & Rf & Zf); [apply B2; lia|apply B3; lia|].
  cbn [rbind].
  destruct (add_ranged _ _ _ _ _ _ Ra Rf)
    as (cost & -> & Rc & Zc); [apply B2; lia|apply B3; lia|].
  apply (ranged_weaken _ _ (-3000) 3006) in Rc; [|lia..].
  cbn [rbind].
  destruct (mul_ranged (-1000) 1000 (-1000) 1000 _ _ Hp Hq)
    as (sell & -> & Rs & _); [apply B2; lia|apply B3; lia|].
  cbn [rbind].
  destruct (mul_ranged _ _ (-1000) 1000 _ _ Rs Hc)
    as (product & -> & Rp & _); [apply B2; lia|apply B3; lia|].
  apply (ranged_weaken _ _ (-3000) 3004) in Rp; [|lia..].
  apply (ranged_weaken _ _ (-3000) 3004) in Hm; [|lia..].
  cbn [rbind].
  destruct (py_max_ranged _ _ _ _ Rp Hm) as (commission & -> & Rm).
  cbn [rbind].
  destruct (sub_ranged _ _ _ _ _ _ Rs Rc)
    as (d1 & -> & R1); [apply B2; lia|apply B3; lia|].
  apply (ranged_weaken _ _ (-3000) 3008) in R1; [|lia..].
  cbn [rbind].
  destruct (sub_ranged _ _ _ _ _ _ R1 Rm)
    as (d2 & -> & R2); [apply B2; lia|apply B3; lia|].
  apply (ranged_weaken _ _ (-3000) 3010) in R2; [|lia..].
  cbn [rbind].
  destruct (sub_ranged _ _ _ _ _ _ R2 Ht)
    as (net & -> & R3); [apply B2; lia|apply B3; lia|].
  apply (ranged_weaken _ _ (-3000) 3012) in R3; [|lia..].
  cbn [rbind].
  eexists. split; [reflexivity|]. cbn [actual_cost net_profit].
  split; [exact Rc|]. split; [exact R3|].
  intros Hz. apply Zc.
  - rewrite Za, Hz. reflexivity.
  - rewrite Zf, Za, Hz. reflexivity.
Qed.

Lemma py_max_spec (a b r : Decimal) :
  py_max a b = OK r ->
  Dec.is_nan a = false /\ Dec.is_nan b = false /\
  (r = a \/ r = b) /\ Dec.cmp r a <> Lt /\ Dec.cmp r b <> Lt.
Proof.
  unfold py_max, Dec.gt, Dec.compare_with.
  destruct (Dec.is_nan b) eqn:Hb; [discriminate|].
  destruct (Dec.is_nan a) eqn:Ha; [discriminate|]. simpl.
  pose proof (cmp_opp b a) as Hopp.
  destruct (Dec.cmp b a) eqn:Hc; intros [= <-];
    (split; [reflexivity|]); (split; [reflexivity|]).
  - split; [left; reflexivity|]. rewrite cmp_refl, Hopp. simpl. split; discriminate.
  - split; [left; reflexivity|]. rewrite cmp_refl, Hopp. simpl. split; discriminate.
  - split; [right; reflexivity|]. rewrite cmp_refl, Hc. split; discriminate.
Qed.

(** C3: the sale commission that an evaluation computes is the larger of
    saleAmount x commissionRate and the minimum commission, hence never
    below the minimum. *)
Theorem sale_commission_floor (self : FundItem) (rate : Decimal)
    (account : Account) (quantity : Z) (v : Locals) :
  arbitrage_locals self rate account quantity = OK v ->
  exists product,
    Dec.mul (price self) (Dec.of_int quantity) = OK (sell_amount v) /\
    Dec.mul (sell_amount v) (commission_rate account) = OK product /\
    (sell_commission v = product \/ sell_commission v = min_commission account) /\
    Dec.cmp (sell_commission v) product <> Lt /\
    Dec.cmp (sell_commission v) (min_commission account) <> Lt /\
    Dec.ge (sell_commission v) (min_commission account) = OK true /\
    (Dec.is_finite product = true ->
     Dec.is_finite (min_commission account) = true ->
     (Qval (sell_commission v) ==
      Qmax (Qval product) (Qval (min_commission account)))%Q).
Proof.
  unfold arbitrage_locals. intros H.
  apply rbind_OK in H as (amount & _ & H).
  apply rbind_OK in H as (fee & _ & H).
  apply rbind_OK in H as (cost & _ & H).
  apply rbind_OK in H as (sell & Hsell & H).
  apply rbind_OK in H as (product & Hprod & H).
  apply rbind_OK in H as (commission & Hmax & H).
  apply rbind_OK in H as (d1 & _ & H).
  apply rbind_OK in H as (d2 & _ & H).
  apply rbind_OK in H as (net & _ & H).
  injection H as <-. cbn [sell_amount sell_commission].
  destruct (py_max_spec _ _ _ Hmax) as (Hp & Hmin & Hor & Hcp & Hcm).
  exists product.
  split; [assumption|]. split; [assumption|]. split; [exact Hor|].
  split; [exact Hcp|]. split; [exact Hcm|]. split.
  - rewrite ge_spec; [|destruct Hor as [->| ->]; assumption|assumption].
    destruct (Dec.cmp commission (min_commission account)); congruence.
  - intros Fp Fm.
    assert (Fc : Dec.is_finite commission = true)
      by (destruct Hor as [->| ->]; assumption).
    rewrite !cmp_Qval in Hcp, Hcm by assumption.
    apply Qge_alt in Hcp, Hcm.
    apply Qle_antisym.
    + destruct Hor as [->| ->]; [apply Q.le_max_l|apply Q.le_max_r].
    + apply Q.max_lub; assumption.
Qed.
Lemma sale_commission_floor_witness :
  let v := {| subscribe_amount := Dec.Fin false 10000 (-4);
              subscribe_fee := Dec.Fin false 120000 (-8);
              actual_cost := Dec.Fin false 100120000 (-8);
              sell_amount := Dec.Fin false 10500 (-4);
              sell_commission := Decimal_5;
              net_profit := Dec.Fin true 495120000 (-8) |} in
  arbitrage_locals example_fund Decimal_0_0012 example_account 1 = OK v /\
  exists product,
    Dec.mul (sell_amount v) (commission_rate example_account) = OK product /\
    Dec.ge (sell_commission v) (min_commission example_account) = OK true.
Proof.
  intros v.
  assert (H : arbitrage_locals example_fund Decimal_0_0012 example_account 1 = OK v)
    by (vm_compute; reflexivity).
  split; [exact H|].
  destruct (sale_commission_floor _ _ _ _ _ H) as (product & _ & Hp & _ & _ & _ & Hge & _).
  exists product. split; assumption.
Defined.

Lemma arbitrage_locals_set_rate (self : FundItem) (r rate : Decimal)
    (account : Account) (quantity : Z) :
  arbitrage_locals (set_subscribe_fee_rate r self) rate account quantity =
  arbitrage_locals self rate account quantity.
Proof. reflexivity. Qed.

Lemma gt_zero_false (d : Decimal) :
  is_zero d = true -> Dec.gt d (Dec.of_int 0) = OK false.
Proof.
  destruct d as [s c e| |]; try discriminate. simpl. intros H.
  unfold Dec.gt, Dec.compare_with. simpl. rewrite H. reflexivity.
Qed.

(** C4: when the actual cost is zero, in particular when the net asset
    value is zero, the evaluation returns with profit rate 0 and raises
    nothing: the division is never reached.  When the actual cost is
    positive the profit rate is (netProfit / actualCost) x 100. *)
Theorem profit_rate_guard (self : FundItem) (account : Account)
    (quantity : option Z) :
  let q := arg default_quantity quantity in
  (forall v,
     arbitrage_locals self (parse_apply_fee self) account q = OK v ->
     is_zero (actual_cost v) = true ->
     exists self',
       calculate_arbitrage_profit self account quantity = (self', OK (net_profit v)) /\
       profit_rate self' = Some Decimal_0) /\
  (is_zero (fund_nav self) = true ->
   ordinary_inputs self account q = true ->
   exists self' p,
     calculate_arbitrage_profit self account quantity = (self', OK p) /\
     profit_rate self' = Some Decimal_0) /\
  (forall v,
     arbitrage_locals self (parse_apply_fee self) account q = OK v ->
     Dec.gt (actual_cost v) (Dec.of_int 0) = OK true ->
     match (let! ratio := Dec.div (net_profit v) (actual_cost v) in
            Dec.mul ratio (Dec.of_int 100)) with
     | OK pr =>
       exists self',
         calculate_arbitrage_profit self account quantity = (self', OK (net_profit v)) /\
         profit_rate self' = Some pr
     | Raise e =>
       exists self', calculate_arbitrage_profit self account quantity = (self', Raise e)
     end).
Proof.
  intros q.
  assert (Hzero : forall v,
     arbitrage_locals self (parse_apply_fee self) account q = OK v ->
     is_zero (actual_cost v) = true ->
     exists self',
       calculate_arbitrage_profit self account quantity = (self', OK (net_profit v)) /\
       profit_rate self' = Some Decimal_0).
  { intros v Hv Hz. unfold calculate_arbitrage_profit. fold q.
    rewrite arbitrage_locals_set_rate, Hv, (gt_zero_false _ Hz).
    eexists. split; reflexivity. }
  split; [exact Hzero|]. split.
  - intros Hnav Hord.
    destruct (arbitrage_locals_total self account q Hord) as (v & Hv & _ & _ & Hz).
    destruct (Hzero v Hv (Hz Hnav)) as (self' & Hc & Hpr). eauto.
  - intros v Hv Hgt. unfold calculate_arbitrage_profit. fold q.
    rewrite arbitrage_locals_set_rate, Hv, Hgt.
    destruct (rbind _ _) as [pr|e]; eexists; [split|]; reflexivity.
Qed.

Lemma profit_rate_guard_witness :
  let fund :=
    {| fund_id := PyStr.lit "160000"; fund_name := []; price := Decimal_1_0500;
       fund_nav := Dec.Fin false 0 (-4); discount_rt := Decimal_0;
       apply_fee := PyStr.lit "0.12%"; redeem_fee := [];
       apply_status := PyStr.lit "开放"; redeem_status := [];
       volume := Decimal_0; amount := Decimal_0; issuer_nm := [];
       subscribe_fee_rate := None; estimated_sell_price := None;
       profit := None; profit_rate := None |} in
  is_zero (fund_nav fund) = true /\
  ordinary_inputs fund example_account 10000 = true /\
  exists self' p,
    calculate_arbitrage_profit fund example_account None = (self', OK p) /\
    profit_rate self' = Some Decimal_0.
Proof.
  intros fund. split; [reflexivity|]. split; [vm_compute; reflexivity|].
  apply (proj1 (proj2 (profit_rate_guard fund example_account None)));
    [reflexivity | vm_compute; reflexivity].
Defined.

(** A zero net asset value, evaluated: the profit is the sale proceeds less
    the minimum commission, 10495.00000000, and the rate is 0. *)
Example zero_nav_run :
  let fund :=
    {| fund_id := []; fund_name := []; price := Decimal_1_0500;
       fund_nav := Dec.Fin false 0 (-4); discount_rt := Decimal_0;
       apply_fee := PyStr.lit "0.12%"; redeem_fee := [];
       apply_status := []; redeem_status := [];
       volume := Decimal_0; amount := Decimal_0; issuer_nm := [];
       subscribe_fee_rate := None; estimated_sell_price := None;
       profit := None; profit_rate := None |} in
  (calculate_arbitrage_profit fund example_account None).2
    = OK (Dec.Fin false 1049500000000 (-8)) /\
  profit_rate (calculate_arbitrage_profit fund example_account None).1
    = Some Decimal_0.
Proof. vm_compute. split; reflexivity. Qed.

(** ** Stripping *)

Lemma lstrip_spaces_app (a r : str) :
  all_space a = true -> PyStr.lstrip (a ++ r) = PyStr.lstrip r.
Proof.
  induction a as [|c a IH]; simpl; [reflexivity|].
  intros H. apply andb_true_iff in H as [Hc Ha]. rewrite Hc. apply IH, Ha.
Qed.

Lemma lstrip_spaces (a : str) : all_space a = true -> PyStr.lstrip a = [].
Proof.
  intros H. rewrite <- (app_nil_r a). rewrite lstrip_spaces_app by exact H.
  reflexivity.
Qed.

Lemma lstrip_clean (s : str) : starts_clean s -> PyStr.lstrip s = s.
Proof. destruct s as [|c s]; simpl; [reflexivity|]. intros ->. reflexivity. Qed.

Lemma lstrip_split (s : str) :
  exists a, all_space a = true /\ s = a ++ PyStr.lstrip s /\
            starts_clean (PyStr.lstrip s).
Proof.
  induction s as [|c s (a & Ha & Hs & Hc)]; simpl.
  - exists []. repeat split.
  - destruct (PyStr.isspace c) eqn:E.
    + exists (c :: a). simpl. rewrite E, Ha. split; [reflexivity|].
      split; [f_equal; exact Hs|exact Hc].
    + exists []. simpl. repeat split. exact E.
Qed.

Lemma all_space_rev (s : str) : all_space (rev s) = all_space s.
Proof.
  unfold all_space. induction s as [|c s IH]; simpl; [reflexivity|].
  rewrite forallb_app, IH. simpl. rewrite andb_true_r. apply andb_comm.
Qed.

Lemma strip_around (a m b : str) :
  all_space a = true -> all_space b = true -> trimmed m ->
  PyStr.strip (a ++ m ++ b) = m.
Proof.
  intros Ha Hb [Hm Hr]. unfold PyStr.strip.
  rewrite lstrip_spaces_app by exact Ha.
  destruct m as [|x m].
  - simpl. rewrite (lstrip_spaces b Hb). reflexivity.
  - simpl in Hm. cbn [app PyStr.lstrip]. rewrite Hm.
    change (x :: m ++ b) with ((x :: m) ++ b).
    rewrite rev_app_distr, lstrip_spaces_app by (rewrite all_space_rev; exact Hb).
    rewrite lstrip_clean by exact Hr. apply rev_involutive.
Qed.

Lemma strip_split (s : str) :
  exists a b, all_space a = true /\ all_space b = true /\
              trimmed (PyStr.strip s) /\ s = a ++ PyStr.strip s ++ b.
Proof.
  destruct (lstrip_split s) as (a & Ha & Hs & Hc).
  destruct (lstrip_split (rev (PyStr.lstrip s))) as (b & Hb & Hr & Hrc).
  exists a, (rev b). unfold PyStr.strip.
  set (u := PyStr.lstrip s) in *. set (w := PyStr.lstrip (rev u)) in *.
  assert (Hu : u = rev w ++ rev b).
  { rewrite <- rev_app_distr, <- Hr. symmetry. apply rev_involutive. }
  split; [exact Ha|]. split; [rewrite all_space_rev; exact Hb|]. split.
  - split; [|rewrite rev_involutive; exact Hrc].
    destruct (rev w) as [|x r] eqn:E; [exact I|].
    rewrite Hu in Hc. exact Hc.
  - rewrite <- Hu. exact Hs.
Qed.

Lemma strip_strip (s : str) : PyStr.strip (PyStr.strip s) = PyStr.strip s.
Proof.
  destruct (strip_split s) as (a & b & _ & _ & Ht & _).
  rewrite <- (app_nil_r (PyStr.strip s)) at 1.
  apply (strip_around [] (PyStr.strip s) []); [reflexivity..|exact Ht].
Qed.

Lemma all_space_app (a b : str) :
  all_space (a ++ b) = all_space a && all_space b.
Proof. apply forallb_app. Qed.

(** Whitespace around a string does not change what [strip] returns. *)
Lemma strip_padding (ws1 ws2 s : str) :
  all_space ws1 = true -> all_space ws2 = true ->
  PyStr.strip (ws1 ++ s ++ ws2) = PyStr.strip s.
Proof.
  intros H1 H2. destruct (strip_split s) as (a & b & Ha & Hb & Ht & Hs).
  rewrite Hs at 1.
  replace (ws1 ++ (a ++ PyStr.strip s ++ b) ++ ws2)
    with ((ws1 ++ a) ++ PyStr.strip s ++ (b ++ ws2))
    by (rewrite <- !app_assoc; reflexivity).
  apply strip_around; [| |exact Ht]; rewrite all_space_app.
  - rewrite H1, Ha. reflexivity.
  - rewrite Hb, H2. reflexivity.
Qed.

Lemma of_str_strip (s : str) : Dec.of_str (PyStr.strip s) = Dec.of_str s.
Proof. unfold Dec.of_str. rewrite strip_strip. reflexivity. Qed.
(** ** Division by 100 *)

Lemma strip_zeros_spec (fuel : nat) (c : N) (e i : Z) :
  let '(c', e') := Dec.strip_zeros fuel c e i in
  e <= e' /\ c = (c' * Dec.pow10 (e' - e))%N.
Proof.
  revert c e. induction fuel as [|fuel IH]; intros c e; simpl.
  - rewrite Z.sub_diag. change (Dec.pow10 0) with 1%N. lia.
  - destruct ((e <? i) && (c mod 10 =? 0)%N) eqn:E.
    + apply andb_true_iff in E as [_ Hm]. apply N.eqb_eq in Hm.
      specialize (IH (c / 10)%N (e + 1)).
      destruct (Dec.strip_zeros fuel (c / 10) (e + 1) i) as [c' e'].
      destruct IH as [He Hc]. split; [lia|].
      replace (e' - e) with ((e' - (e + 1)) + 1) by lia.
      rewrite pow10_succ by lia.
      pose proof (N.div_mod c 10 ltac:(discriminate)) as Hd.
      rewrite Hm, N.add_0_r in Hd. rewrite Hd at 1. rewrite Hc at 1. lia.
    + rewrite Z.sub_diag. change (Dec.pow10 0) with 1%N. lia.
Qed.

Lemma strip_zeros_pow (k fuel : nat) (c : N) (e i : Z) :
  e + Z.of_nat k <= i ->
  Dec.strip_zeros (k + fuel) (c * Dec.pow10 (Z.of_nat k)) e i =
  Dec.strip_zeros fuel c (e + Z.of_nat k) i.
Proof.
  revert e. induction k as [|k IH]; intros e Hk.
  - simpl. change (Dec.pow10 0) with 1%N. rewrite N.mul_1_r, Z.add_0_r. reflexivity.
  - cbn [Nat.add Dec.strip_zeros].
    replace (Z.of_nat (S k)) with (Z.of_nat k + 1) in * by lia.
    rewrite pow10_succ by lia.
    replace (c * (10 * Dec.pow10 (Z.of_nat k)))%N
      with ((c * Dec.pow10 (Z.of_nat k)) * 10)%N by lia.
    rewrite N.Div0.mod_mul, N.div_mul by discriminate.
    destruct (Z.ltb_spec e i); [|lia]. simpl.
    rewrite IH by lia. f_equal. lia.
Qed.

Lemma to_Q_hundredth (s : bool) (c : N) (e : Z) :
  (Dec.to_Q s c (e - 2) == Dec.to_Q s c e / 100)%Q.
Proof.
  unfold Dec.to_Q. replace (e - 2) with (e + -2) by lia.
  rewrite Qpower_plus by discriminate.
  unfold Qdiv. rewrite Qmult_assoc. reflexivity.
Qed.

Lemma div_100_exact (s : bool) (c : N) (e : Z) :
  percent_exact (Dec.Fin s c e) = true ->
  exists c' e',
    Dec.div (Dec.Fin s c e) Decimal_100 = OK (Dec.Fin s c' e') /\
    (Dec.to_Q s c' e' == Dec.to_Q s c e / 100)%Q.
Proof.
  unfold percent_exact. intros H. apply andb_true_iff in H as [Hr He].
  apply Z.leb_le in He. unfold Decimal_100, Dec.div.
  change (100 =? 0)%N with false. cbv iota. rewrite xorb_false_r, Z.sub_0_r.
  destruct (N.eqb_spec c 0) as [->|Hc].
  - rewrite (fix_representable s s 0 e Hr). exists 0%N, e.
    split; [reflexivity|]. rewrite !to_Q_zero. reflexivity.
  - pose proof Hr as Hr'. unfold representable in Hr'.
    apply andb_true_iff in Hr' as [Ht Hr'].
    destruct (N.eqb_spec c 0) as [?|_]; [contradiction|].
    apply andb_true_iff in Hr' as [Hn Ha].
    apply Z.leb_le in Ht, Hn, Ha. unfold Dec.prec in *.
    pose proof (ndigits_pos c) as Hn1.
    change (Dec.ndigits 100) with 3.
    set (n := Dec.ndigits c) in *.
    set (shift := 3 - n + 28 + 1).
    assert (Hs : 4 <= shift) by (unfold shift; lia).
    destruct (Z.leb_spec 0 shift) as [_|?]; [|lia].
    assert (Hp : Dec.pow10 shift = (Dec.pow10 (shift - 2) * 100)%N).
    { replace shift with ((shift - 2) + 2) at 1 by lia.
      rewrite pow10_add by lia. reflexivity. }
    rewrite Hp, N.mul_assoc, N.Div0.mod_mul, N.div_mul by discriminate.
    change (0 =? 0)%N with true. cbv iota.
    replace (e - (e - shift)) with shift by lia.
    assert (Hsz : Dec.strip_zeros (Z.to_nat shift) (c * Dec.pow10 (shift - 2))
                    (e - shift) e = Dec.strip_zeros 2 c (e - 2) e).
    { replace (Z.to_nat shift) with (Z.to_nat (shift - 2) + 2)%nat by lia.
      pose proof (strip_zeros_pow (Z.to_nat (shift - 2)) 2 c (e - shift) e) as X.
      rewrite Z2Nat.id in X by lia. rewrite X by lia. f_equal. lia. }
    rewrite Hsz.
    pose proof (strip_zeros_spec 2 c (e - 2) e) as Hz.
    destruct (Dec.strip_zeros 2 c (e - 2) e) as [c' e'].
    destruct Hz as [He' Hc'].
    assert (Hc0 : (0 < c')%N) by (destruct (N.eq_0_gt_0_cases c'); [subst c'; lia|assumption]).
    assert (Hnd : Dec.ndigits c' + (e' - (e - 2)) = n).
    { unfold n. rewrite Hc'. symmetry. apply ndigits_mul_pow10; lia. }
    assert (Hrep : representable (Dec.Fin s c' e') = true).
    { unfold representable, Dec.adjusted, Dec.prec, Dec.Etiny, Dec.Emin, Dec.Emax in *.
      destruct (N.eqb_spec c' 0) as [?|_]; [lia|].
      apply andb_true_iff. split; [apply Z.leb_le; lia|].
      apply andb_true_iff. split; apply Z.leb_le; lia. }
    rewrite (fix_representable s s c' e' Hrep).
    exists c', e'. split; [reflexivity|].
    rewrite <- to_Q_hundredth, (to_Q_scale s c' e' (e - 2)) by lia.
    rewrite <- Hc'. unfold Dec.to_Q. reflexivity.
Qed.
(** ** The two forms of a fee rate *)

Lemma contains_single (c : N) (s : str) :
  PyStr.contains [c] s = existsb (N.eqb c) s.
Proof.
  induction s as [|a s IH]; simpl; [reflexivity|].
  rewrite IH, andb_true_r. reflexivity.
Qed.

Lemma no_percent_part (a m b : str) :
  PyStr.contains [37%N] (a ++ m ++ b) = false -> PyStr.contains [37%N] m = false.
Proof.
  rewrite !contains_single, !existsb_app. intros H.
  apply orb_false_elim in H as [_ H]. apply orb_false_elim in H as [H _]. exact H.
Qed.

Lemma parse_bare (self : FundItem) (y : Decimal) :
  PyStr.contains [37%N] (apply_fee self) = false ->
  Dec.of_str (apply_fee self) = OK y ->
  parse_apply_fee_body self = OK y.
Proof.
  intros Hc Hy. unfold parse_apply_fee_body. cbv zeta.
  change (PyStr.lit "%") with [37%N].
  destruct (strip_split (apply_fee self)) as (a & b & _ & _ & _ & Hs).
  rewrite Hs in Hc. apply no_percent_part in Hc. rewrite Hc.
  rewrite of_str_strip. exact Hy.
Qed.

Lemma strip_percent (s : str) :
  PyStr.strip (s ++ [37%N]) = PyStr.lstrip s ++ [37%N].
Proof.
  destruct (lstrip_split s) as (a & Ha & Hs & Hc).
  rewrite Hs at 1. rewrite <- app_assoc.
  rewrite <- (app_nil_r (PyStr.lstrip s ++ [37%N])) at 1.
  apply strip_around; [exact Ha|reflexivity|]. split.
  - destruct (PyStr.lstrip s); [reflexivity|exact Hc].
  - rewrite rev_app_distr. reflexivity.
Qed.

Lemma of_str_lstrip (s : str) : Dec.of_str (PyStr.lstrip s) = Dec.of_str s.
Proof.
  destruct (lstrip_split s) as (a & Ha & Hs & _).
  unfold Dec.of_str. rewrite Hs at 2.
  rewrite <- (app_nil_r (PyStr.lstrip s)) at 2.
  rewrite (strip_padding a [] (PyStr.lstrip s) Ha eq_refl). reflexivity.
Qed.

Lemma parse_percent (self : FundItem) (s : str) (x : Decimal) :
  PyStr.contains [37%N] s = false ->
  Dec.of_str s = OK x ->
  apply_fee self = s ++ [37%N] ->
  parse_apply_fee_body self = Dec.div x Decimal_100.
Proof.
  intros Hc Hx Hf. unfold parse_apply_fee_body. cbv zeta.
  change (PyStr.lit "%") with [37%N]. change (PyStr.lit "") with (@nil N).
  rewrite Hf, strip_percent.
  assert (Hl : PyStr.contains [37%N] (PyStr.lstrip s) = false).
  { destruct (lstrip_split s) as (a & _ & Hs & _). rewrite Hs in Hc.
    rewrite <- (app_nil_r (PyStr.lstrip s)) in Hc.
    apply no_percent_part in Hc. exact Hc. }
  assert (Hin : PyStr.contains [37%N] (PyStr.lstrip s ++ [37%N]) = true).
  { rewrite contains_single, existsb_app. simpl. apply orb_true_r. }
  rewrite Hin. unfold PyStr.replace. rewrite flat_map_app.
  fold (PyStr.replace 37 [] (PyStr.lstrip s)). rewrite (replace_absent _ _ Hl).
  simpl. rewrite app_nil_r, of_str_lstrip, Hx. reflexivity.
Qed.

(** C5: the percentage form "X%" parses to X/100 and a bare fraction to
    itself, undivided, so that the two forms of one rate parse to equal
    fractions; whitespace around the field is trimmed first. *)
Theorem fee_forms_agree :
  (forall self s x,
     PyStr.contains [37%N] s = false -> Dec.of_str s = OK x ->
     apply_fee self = s ++ [37%N] ->
     parse_apply_fee self = try_except (Dec.div x Decimal_100) Decimal_0_0012) /\
  (forall self s x,
     PyStr.contains [37%N] s = false -> Dec.of_str s = OK x ->
     apply_fee self = s ++ [37%N] -> percent_exact x = true ->
     Dec.div x Decimal_100 = OK (parse_apply_fee self) /\
     Dec.is_finite (parse_apply_fee self) = true /\
     (Qval (parse_apply_fee self) == Qval x / 100)%Q) /\
  (forall self y,
     PyStr.contains [37%N] (apply_fee self) = false ->
     Dec.of_str (apply_fee self) = OK y ->
     parse_apply_fee self = y) /\
  (forall percent bare s x y,
     PyStr.contains [37%N] s = false -> Dec.of_str s = OK x ->
     apply_fee percent = s ++ [37%N] -> percent_exact x = true ->
     PyStr.contains [37%N] (apply_fee bare) = false ->
     Dec.of_str (apply_fee bare) = OK y -> Dec.is_finite y = true ->
     (Qval y == Qval x / 100)%Q ->
     Dec.cmp (parse_apply_fee percent) (parse_apply_fee bare) = Eq) /\
  (forall padded self ws1 ws2,
     all_space ws1 = true -> all_space ws2 = true ->
     apply_fee padded = ws1 ++ apply_fee self ++ ws2 ->
     parse_apply_fee padded = parse_apply_fee self).
Proof.
  assert (P1 : forall self s x,
     PyStr.contains [37%N] s = false -> Dec.of_str s = OK x ->
     apply_fee self = s ++ [37%N] ->
     parse_apply_fee self = try_except (Dec.div x Decimal_100) Decimal_0_0012).
  { intros self s x Hc Hx Hf. unfold parse_apply_fee.
    rewrite (parse_percent self s x Hc Hx Hf). reflexivity. }
  assert (P2 : forall self s x,
     PyStr.contains [37%N] s = false -> Dec.of_str s = OK x ->
     apply_fee self = s ++ [37%N] -> percent_exact x = true ->
     Dec.div x Decimal_100 = OK (parse_apply_fee self) /\
     Dec.is_finite (parse_apply_fee self) = true /\
     (Qval (parse_apply_fee self) == Qval x / 100)%Q).
  { intros self s x Hc Hx Hf He. rewrite (P1 self s x Hc Hx Hf).
    destruct x as [sg c e| |]; try discriminate.
    destruct (div_100_exact sg c e He) as (c' & e' & -> & Hq).
    simpl. repeat split. exact Hq. }
  assert (P3 : forall self y,
     PyStr.contains [37%N] (apply_fee self) = false ->
     Dec.of_str (apply_fee self) = OK y ->
     parse_apply_fee self = y).
  { intros self y Hc Hy. unfold parse_apply_fee.
    rewrite (parse_bare self y Hc Hy). reflexivity. }
  split; [exact P1|]. split; [exact P2|]. split; [exact P3|]. split.
  - intros percent bare s x y Hc Hx Hf He Hcb Hy Hfy Hq.
    destruct (P2 percent s x Hc Hx Hf He) as (_ & Hfin & Hv).
    rewrite (P3 bare y Hcb Hy).
    rewrite cmp_Qval by assumption. apply Qeq_alt. rewrite Hv, Hq. reflexivity.
  - intros padded self ws1 ws2 H1 H2 Hf.
    unfold parse_apply_fee, parse_apply_fee_body.
    rewrite Hf, strip_padding by assumption. reflexivity.
Qed.

Lemma fee_forms_agree_witness :
  let percent := fund_with [] Decimal_0 (PyStr.lit " 0.12%") in
  let bare := fund_with [] Decimal_0 (PyStr.lit "0.0012 ") in
  PyStr.contains [37%N] (PyStr.lit " 0.12") = false /\
  Dec.of_str (PyStr.lit " 0.12") = OK (Dec.Fin false 12 (-2)) /\
  percent_exact (Dec.Fin false 12 (-2)) = true /\
  Dec.of_str (apply_fee bare) = OK Decimal_0_0012 /\
  Dec.cmp (parse_apply_fee percent) (parse_apply_fee bare) = Eq.
Proof.
  intros percent bare.
  split; [reflexivity|]. split; [vm_compute; reflexivity|].
  split; [vm_compute; reflexivity|]. split; [vm_compute; reflexivity|].
  apply (proj1 (proj2 (proj2 (proj2 fee_forms_agree))) percent bare
           (PyStr.lit " 0.12") (Dec.Fin false 12 (-2)) Decimal_0_0012);
    try (vm_compute; reflexivity).
Defined.

(** The two forms, evaluated: "0.12%" and "0.0012" both read as 0.0012;
    a bare "0.12" stays 0.12. *)
Example fee_forms_run :
  parse_apply_fee (fund_with [] Decimal_0 (PyStr.lit "0.12%")) = Decimal_0_0012 /\
  parse_apply_fee (fund_with [] Decimal_0 (PyStr.lit " 0.0012 ")) = Decimal_0_0012 /\
  parse_apply_fee (fund_with [] Decimal_0 (PyStr.lit "0.12")) = Dec.Fin false 12 (-2) /\
  parse_apply_fee (fund_with [] Decimal_0 (PyStr.lit "1.5 %")) = Dec.Fin false 15 (-3).
Proof. vm_compute. repeat split. Qed.

(** ** Outcomes of an evaluation *)

Lemma fix_raises (d : Decimal) (e : exn) : Dec.fix_ d = Raise e -> e = Overflow.
Proof.
  destruct d as [s c x| |]; try discriminate. unfold Dec.fix_.
  destruct (c =? 0)%N; [discriminate|].
  destruct (Dec.Etop <? _); [congruence|].
  destruct (x <? _); [|discriminate].
  destruct (_ <? 0); cbv zeta iota beta;
    (destruct (Dec.round_half_even _ _ _); [|discriminate]);
    (destruct (Dec.prec <? _); cbv zeta iota beta;
     (destruct (Dec.Etop <? _); [congruence|discriminate])).
Qed.

Lemma mul_raises (a b : Decimal) (e : exn) :
  Dec.mul a b = Raise e -> e = InvalidOperation \/ e = Overflow.
Proof.
  destruct a as [sa ca ea|sa|[|]], b as [sb cb eb|sb|[|]]; cbn [Dec.mul];
    try discriminate; try (intros [= <-]; left; reflexivity).
  - intros H. right. exact (fix_raises _ _ H).
  - destruct (ca =? 0)%N; [intros [= <-]; left; reflexivity|discriminate].
  - destruct (cb =? 0)%N; [intros [= <-]; left; reflexivity|discriminate].
Qed.

Lemma add_raises (a b : Decimal) (e : exn) :
  Dec.add a b = Raise e -> e = InvalidOperation \/ e = Overflow.
Proof.
  destruct a as [sa ca ea|sa|[|]], b as [sb cb eb|sb|[|]]; cbn [Dec.add];
    try discriminate; try (intros [= <-]; left; reflexivity).
  - cbv zeta. destruct (_ =? 0); intros H; right; exact (fix_raises _ _ H).
  - destruct (Bool.eqb sa sb); [discriminate|intros [= <-]; left; reflexivity].
Qed.

Lemma sub_raises (a b : Decimal) (e : exn) :
  Dec.sub a b = Raise e -> e = InvalidOperation \/ e = Overflow.
Proof. apply add_raises. Qed.

Lemma compare_raises (test : comparison -> bool) (a b : Decimal) (e : exn) :
  Dec.compare_with test a b = Raise e -> e = InvalidOperation.
Proof.
  unfold Dec.compare_with. destruct (_ || _); [congruence|discriminate].
Qed.

(** A division raises [DivisionByZero] only on a zero divisor. *)
Lemma div_raises (a b : Decimal) (e : exn) :
  Dec.div a b = Raise e ->
  e = InvalidOperation \/ e = Overflow \/ (e = DivisionByZero /\ is_zero b = true).
Proof.
  destruct a as [sa ca ea|sa|[|]], b as [sb cb eb|sb|[|]]; cbn [Dec.div is_zero];
    try discriminate; try (intros [= <-]; left; reflexivity).
  cbv zeta. destruct (cb =? 0)%N eqn:Hb.
  - destruct (ca =? 0)%N; intros [= <-]; [left; reflexivity|].
    right. right. split; reflexivity.
  - destruct (ca =? 0)%N; [intros H; right; left; exact (fix_raises _ _ H)|].
    destruct (0 <=? _); cbv beta iota zeta;
      (destruct (_ mod _ =? 0)%N; cbv beta iota zeta;
       [destruct (Dec.strip_zeros _ _ _ _); cbv beta iota zeta|];
       intros H; right; left; exact (fix_raises _ _ H)).
Qed.

Lemma gt_zero_true (d : Decimal) :
  Dec.gt d (Dec.of_int 0) = OK true -> is_zero d = false.
Proof.
  destruct d as [s c e| |]; try reflexivity. simpl.
  destruct (c =? 0)%N eqn:Hc; [|reflexivity].
  unfold Dec.gt, Dec.compare_with. simpl. rewrite Hc. discriminate.
Qed.

Lemma py_max_raises (a b : Decimal) (e : exn) :
  py_max a b = Raise e -> e = InvalidOperation.
Proof.
  unfold py_max. destruct (Dec.gt b a) eqn:H; [discriminate|].
  intros [= <-]. exact (compare_raises _ _ _ _ H).
Qed.

Lemma arbitrage_locals_raises (self : FundItem) (rate : Decimal)
    (account : Account) (quantity : Z) (e : exn) :
  arbitrage_locals self rate account quantity = Raise e ->
  e = InvalidOperation \/ e = Overflow.
Proof.
  unfold arbitrage_locals.
  repeat match goal with
  | |- rbind ?r _ = Raise _ -> _ =>
    let H := fresh "H" in
    destruct r eqn:H; cbn [rbind];
    [| intros [= <-];
       first [ exact (mul_raises _ _ _ H) | exact (add_raises _ _ _ H)
             | exact (sub_raises _ _ _ H)
             | left; exact (py_max_raises _ _ _ H) ] ]
  end.
  discriminate.
Qed.

Lemma calculate_again (self : FundItem) (account : Account)
    (quantity : option Z) :
  calculate_arbitrage_profit
    (calculate_arbitrage_profit self account quantity).1 account quantity
  = calculate_arbitrage_profit self account quantity.
Proof.
  destruct self as [fid fname fprice fnav frt ffee fredeem fstatus frstatus
                    fvolume famount fissuer frate fsell fprofit fprate].
  set (input sr es pf pr :=
    {| fund_id := fid; fund_name := fname; price := fprice; fund_nav := fnav;
       discount_rt := frt; apply_fee := ffee; redeem_fee := fredeem;
       apply_status := fstatus; redeem_status := frstatus; volume := fvolume;
       amount := famount; issuer_nm := fissuer; subscribe_fee_rate := sr;
       estimated_sell_price := es; profit := pf; profit_rate := pr |}).
  change (calculate_arbitrage_profit
            (calculate_arbitrage_profit (input frate fsell fprofit fprate)
               account quantity).1 account quantity
          = calculate_arbitrage_profit (input frate fsell fprofit fprate)
              account quantity).
  set (rate := parse_apply_fee (input None None None None)).
  set (locals := arbitrage_locals (input None None None None) rate account
                   (arg default_quantity quantity)).
  assert (Hstep : forall sr es pf pr,
    calculate_arbitrage_profit (input sr es pf pr) account quantity =
    match locals with
    | Raise e => (input (Some rate) es pf pr, Raise e)
    | OK v =>
      match Dec.gt (actual_cost v) (Dec.of_int 0) with
      | Raise e => (input (Some rate) (Some fprice) (Some (net_profit v)) pr, Raise e)
      | OK true =>
        match (let! ratio := Dec.div (net_profit v) (actual_cost v) in
               Dec.mul ratio (Dec.of_int 100)) with
        | Raise e =>
          (input (Some rate) (Some fprice) (Some (net_profit v)) pr, Raise e)
        | OK x =>
          (input (Some rate) (Some fprice) (Some (net_profit v)) (Some x),
           OK (net_profit v))
        end
      | OK false =>
        (input (Some rate) (Some fprice) (Some (net_profit v)) (Some Decimal_0),
         OK (net_profit v))
      end
    end).
  { intros sr es pf pr. unfold calculate_arbitrage_profit.
    change (parse_apply_fee (input sr es pf pr)) with rate.
    change (arbitrage_locals (set_subscribe_fee_rate rate (input sr es pf pr)) rate
              account (arg default_quantity quantity)) with locals.
    destruct locals as [v|e]; [|reflexivity].
    destruct (Dec.gt _ _) as [[|]|e]; [|reflexivity..].
    destruct (rbind _ _); reflexivity. }
  clearbody locals rate. rewrite (Hstep frate fsell fprofit fprate).
  destruct locals as [v|e]; cbv beta iota in Hstep.
  - destruct (Dec.gt _ _) as [[|]|e] eqn:Hg.
    + destruct (rbind _ _) as [x|e] eqn:Hd; cbn [fst]; rewrite Hstep;
        reflexivity.
    + cbn [fst]. rewrite Hstep. reflexivity.
    + cbn [fst]. rewrite Hstep. reflexivity.
  - cbn [fst]. rewrite Hstep. reflexivity.
Qed.

(** X1. An evaluation repeated on the record it has updated changes nothing
    more and ends the same way: the outcome depends on the input fields
    only, not on what an earlier evaluation has stored. *)
Theorem evaluation_idempotent (self : FundItem) (account : Account)
    (quantity : option Z) :
  calculate_arbitrage_profit
    (calculate_arbitrage_profit self account quantity).1 account quantity
  = calculate_arbitrage_profit self account quantity.
Proof. apply calculate_again. Qed.

(** X2. How an evaluation ends.  When it returns, the value returned is the
    profit stored on the record, the sell price stored is the exchange
    price, and the fee rate and the profit rate are set.  When it raises,
    the exception is [InvalidOperation] or [Overflow], never
    [DivisionByZero]; the parsed fee rate is already stored and the profit
    rate is the one the record had before. *)
Theorem evaluation_outcomes (self self' : FundItem) (account : Account)
    (quantity : option Z) (r : result Decimal) :
  calculate_arbitrage_profit self account quantity = (self', r) ->
  subscribe_fee_rate self' = Some (parse_apply_fee self) /\
  match r with
  | OK p =>
    profit self' = Some p /\ estimated_sell_price self' = Some (price self) /\
    exists pr, profit_rate self' = Some pr
  | Raise e =>
    (e = InvalidOperation \/ e = Overflow) /\
    profit_rate self' = profit_rate self
  end.
Proof.
  unfold calculate_arbitrage_profit.
  rewrite arbitrage_locals_set_rate.
  destruct (arbitrage_locals _ _ _ _) as [v|e] eqn:Hv.
  - destruct (Dec.gt _ _) as [[|]|e] eqn:Hg.
    + destruct (Dec.div _ _) as [ratio|e] eqn:Hd; cbn [rbind].
      * destruct (Dec.mul ratio _) as [pr|e] eqn:Hm; intros [= <- <-].
        -- split; [reflexivity|]. split; [reflexivity|]. split; [reflexivity|].
           exists pr. reflexivity.
        -- split; [reflexivity|]. split; [exact (mul_raises _ _ _ Hm)|reflexivity].
      * intros [= <- <-]. split; [reflexivity|]. split; [|reflexivity].
        destruct (div_raises _ _ _ Hd) as [H|[H|[_ Hz]]]; [auto..|].
        rewrite (gt_zero_true _ Hg) in Hz. discriminate.
    + intros [= <- <-]. split; [reflexivity|]. split; [reflexivity|].
      split; [reflexivity|]. exists Decimal_0. reflexivity.
    + intros [= <- <-]. split; [reflexivity|]. split; [|reflexivity].
      left. exact (compare_raises _ _ _ _ Hg).
  - intros [= <- <-]. split; [reflexivity|]. split; [|reflexivity].
    exact (arbitrage_locals_raises _ _ _ _ _ Hv).
Qed.

Lemma evaluation_outcomes_witness :
  let fund := fund_with [] Decimal_0 (PyStr.lit "0.12%") in
  let broken :=
    set_profit_rate Decimal_5
      {| fund_id := []; fund_name := []; price := Decimal_1_0500;
         fund_nav := Dec.NaN false; discount_rt := Decimal_0;
         apply_fee := []; redeem_fee := []; apply_status := [];
         redeem_status := []; volume := Decimal_0; amount := Decimal_0;
         issuer_nm := []; subscribe_fee_rate := None;
         estimated_sell_price := None; profit := None; profit_rate := None |} in
  let out := calculate_arbitrage_profit fund example_account None in
  let bad := calculate_arbitrage_profit broken example_account None in
  out.2 = OK (Dec.Fin false 48300000000 (-8)) /\
  profit out.1 = Some (Dec.Fin false 48300000000 (-8)) /\
  bad.2 = Raise InvalidOperation /\
  profit_rate bad.1 = Some Decimal_5.
Proof.
  intros fund broken out bad.
  assert (Ho : out.2 = OK (Dec.Fin false 48300000000 (-8)))
    by (vm_compute; reflexivity).
  assert (Hb : bad.2 = Raise InvalidOperation) by (vm_compute; reflexivity).
  pose proof (evaluation_outcomes fund out.1 example_account None out.2
                (surjective_pairing out)) as [_ H1].
  pose proof (evaluation_outcomes broken bad.1 example_account None bad.2
                (surjective_pairing bad)) as [_ H2].
  rewrite Ho in H1. rewrite Hb in H2.
  split; [exact Ho|]. split; [exact (proj1 H1)|]. split; [exact Hb|].
  exact (proj2 H2).
Defined.
(** ** More on the filter *)

Section FilterMore.

Context {Ref : Type} (deref : Ref -> FundItem).

Lemma filter_loop_step (fund : Ref) (rest acc : list Ref) (m : Decimal) (mode : str) :
  filter_loop deref (fund :: rest) m mode acc =
  let! c := filter_keeps (deref fund) m mode in
  filter_loop deref rest m mode (if c then acc ++ [fund] else acc).
Proof.
  unfold filter_keeps. cbn [filter_loop].
  destruct (negb _); [reflexivity|].
  destruct (PyStr.eqb mode (PyStr.lit "premium")); [reflexivity|].
  destruct (PyStr.eqb mode (PyStr.lit "discount")); reflexivity.
Qed.

Lemma filter_loop_app (pre rest acc : list Ref) (m : Decimal) (mode : str) :
  filter_loop deref (pre ++ rest) m mode acc =
  let! acc' := filter_loop deref pre m mode acc in
  filter_loop deref rest m mode acc'.
Proof.
  revert acc. induction pre as [|fund pre IH]; intros acc; [reflexivity|].
  rewrite <- app_comm_cons, !filter_loop_step.
  destruct (filter_keeps _ _ _) as [c|e]; [|reflexivity]. cbn [rbind]. apply IH.
Qed.

Lemma filter_keeps_open (fund : FundItem) (m : Decimal) (mode : str) :
  filter_keeps fund m mode = OK true -> status_open fund = true.
Proof.
  unfold filter_keeps. destruct (status_open fund); [reflexivity|discriminate].
Qed.

(** The quotes the loop appends: a sublist of its input, each one kept
    again when the loop runs over them alone. *)
Lemma filter_loop_kept (funds acc out : list Ref) (m : Decimal) (mode : str) :
  filter_loop deref funds m mode acc = OK out ->
  exists kept,
    out = acc ++ kept /\ sublist kept funds /\
    Forall (fun r => filter_keeps (deref r) m mode = OK true) kept.
Proof.
  revert acc. induction funds as [|fund rest IH]; intros acc.
  - intros [= <-]. exists []. rewrite app_nil_r. repeat constructor.
  - rewrite filter_loop_step.
    destruct (filter_keeps _ _ _) as [[|]|e] eqn:Hk; cbn [rbind]; [| |discriminate].
    + intros H. destruct (IH _ H) as (kept & -> & Hs & Hall).
      exists (fund :: kept). rewrite <- app_assoc. split; [reflexivity|].
      split; [apply sublist_skip; exact Hs|]. constructor; assumption.
    + intros H. destruct (IH _ H) as (kept & -> & Hs & Hall).
      exists kept. split; [reflexivity|]. split; [apply sublist_cons; exact Hs|].
      exact Hall.
Qed.

Lemma filter_loop_all_kept (kept acc : list Ref) (m : Decimal) (mode : str) :
  Forall (fun r => filter_keeps (deref r) m mode = OK true) kept ->
  filter_loop deref kept m mode acc = OK (acc ++ kept).
Proof.
  intros H. revert acc. induction H as [|fund kept Hf _ IH]; intros acc.
  - simpl. rewrite app_nil_r. reflexivity.
  - rewrite filter_loop_step, Hf. cbn [rbind]. rewrite IH, <- app_assoc. reflexivity.
Qed.

(** X5. Whatever the threshold and the mode, a list the filter returns is a
    sublist of its input (same quotes, same order, nothing added), every
    quote in it has an open subscription channel, and filtering it again
    with the same arguments returns it unchanged. *)
Theorem filter_sublist (funds out : list Ref) (min_premium : option Decimal)
    (mode : option str) :
  filter_arbitrage_opportunities deref funds min_premium mode = OK out ->
  sublist out funds /\
  Forall (fun r => status_open (deref r) = true) out /\
  filter_arbitrage_opportunities deref out min_premium mode = OK out.
Proof.
  unfold filter_arbitrage_opportunities. intros H.
  destruct (filter_loop_kept _ _ _ _ _ H) as (kept & -> & Hs & Hall).
  rewrite app_nil_l. split; [exact Hs|]. split.
  - eapply Forall_impl; [exact Hall|]. intros r. apply filter_keeps_open.
  - apply (filter_loop_all_kept kept []). exact Hall.
Qed.

Lemma filter_keeps_nan (fund : FundItem) (m : Decimal) (mode : str) :
  status_open fund = true -> Dec.is_nan (discount_rt fund) = true ->
  mode = PyStr.lit "premium" \/ mode = PyStr.lit "discount" ->
  filter_keeps fund m mode = Raise InvalidOperation.
Proof.
  intros Hs Hn Hm. unfold filter_keeps, premium_test, discount_test,
    Dec.lt, Dec.gt, Dec.compare_with.
  rewrite Hs, Hn. destruct Hm as [-> | ->]; reflexivity.
Qed.

(** X6. A quote whose subscription channel is open and whose divergence rate is
    NaN stops the filter: in premium and in discount mode the call raises
    [InvalidOperation] when the loop reaches it, whatever the threshold and
    whatever comes after it. *)
Theorem filter_nan_raises (pre post kept : list Ref) (fund : Ref)
    (min_premium : option Decimal) (mode : option str) :
  filter_arbitrage_opportunities deref pre min_premium mode = OK kept ->
  status_open (deref fund) = true ->
  Dec.is_nan (discount_rt (deref fund)) = true ->
  arg (PyStr.lit "premium") mode = PyStr.lit "premium" \/
  arg (PyStr.lit "premium") mode = PyStr.lit "discount" ->
  filter_arbitrage_opportunities deref (pre ++ fund :: post) min_premium mode
  = Raise InvalidOperation.
Proof.
  unfold filter_arbitrage_opportunities. intros Hpre Hs Hn Hm.
  rewrite filter_loop_app, Hpre. cbn [rbind].
  rewrite filter_loop_step, (filter_keeps_nan _ _ _ Hs Hn Hm). reflexivity.
Qed.

Lemma ge_monotone (a m1 m2 : Decimal) (c : bool) :
  Dec.cmp m1 m2 <> Gt ->
  Dec.ge a m2 = OK true -> Dec.ge a m1 = OK c -> c = true.
Proof.
  unfold Dec.ge, Dec.compare_with. intros Hm.
  destruct (Dec.is_nan a) eqn:Ha; [discriminate|].
  destruct (Dec.is_nan m2) eqn:H2; [discriminate|].
  destruct (Dec.is_nan m1) eqn:H1; [discriminate|]. cbn [orb].
  intros [= Ham2] [= <-].
  assert (H21 : Dec.cmp m2 a <> Gt).
  { rewrite cmp_opp. destruct (Dec.cmp a m2); simpl; congruence. }
  pose proof (cmp_le_trans m1 m2 a H1 H2 Ha Hm H21) as H.
  rewrite cmp_opp in H. destruct (Dec.cmp a m1); simpl in H; congruence.
Qed.

Lemma filter_keeps_monotone (fund : FundItem) (m1 m2 : Decimal) (mode : str) (c : bool) :
  Dec.cmp m1 m2 <> Gt ->
  filter_keeps fund m2 mode = OK true -> filter_keeps fund m1 mode = OK c ->
  c = true.
Proof.
  intros Hm. unfold filter_keeps, premium_test, discount_test.
  destruct (negb _); [discriminate|].
  destruct (PyStr.eqb mode (PyStr.lit "premium")).
  - destruct (Dec.lt _ _) as [[|]|e]; cbn [rbind]; try discriminate.
    destruct (Dec.abs _) as [a|e]; cbn [rbind]; [|discriminate].
    apply ge_monotone. exact Hm.
  - destruct (PyStr.eqb mode (PyStr.lit "discount")); [|discriminate].
    destruct (Dec.gt _ _) as [[|]|e]; cbn [rbind]; try discriminate.
    apply ge_monotone. exact Hm.
Qed.

Lemma filter_loop_monotone (funds acc1 acc2 out1 out2 : list Ref)
    (m1 m2 : Decimal) (mode : str) :
  Dec.cmp m1 m2 <> Gt ->
  filter_loop deref funds m1 mode acc1 = OK out1 ->
  filter_loop deref funds m2 mode acc2 = OK out2 ->
  exists k1 k2, out1 = acc1 ++ k1 /\ out2 = acc2 ++ k2 /\ sublist k2 k1.
Proof.
  intros Hm. revert acc1 acc2. induction funds as [|fund rest IH]; intros acc1 acc2.
  - intros [= <-] [= <-]. exists [], []. rewrite !app_nil_r. repeat constructor.
  - rewrite !filter_loop_step.
    destruct (filter_keeps (deref fund) m1 mode) as [c1|e] eqn:H1; [|discriminate].
    destruct (filter_keeps (deref fund) m2 mode) as [c2|e] eqn:H2; [|discriminate].
    cbn [rbind]. intros G1 G2.
    destruct (IH _ _ G1 G2) as (k1 & k2 & -> & -> & Hs).
    destruct c2.
    + rewrite (filter_keeps_monotone _ _ _ _ _ Hm H2 H1).
      exists (fund :: k1), (fund :: k2). rewrite <- !app_assoc.
      split; [reflexivity|]. split; [reflexivity|]. apply sublist_skip. exact Hs.
    + destruct c1.
      * exists (fund :: k1), k2. rewrite <- app_assoc.
        split; [reflexivity|]. split; [reflexivity|]. apply sublist_cons. exact Hs.
      * exists k1, k2. repeat split. exact Hs.
Qed.

(** X7. Raising the threshold only removes quotes: when the filter returns for
    two thresholds, the list for the larger threshold is a sublist of the
    list for the smaller one, in either mode. *)
Theorem filter_threshold_monotone (funds out1 out2 : list Ref) (m1 m2 : Decimal)
    (mode : option str) :
  Dec.cmp m1 m2 <> Gt ->
  filter_arbitrage_opportunities deref funds (Some m1) mode = OK out1 ->
  filter_arbitrage_opportunities deref funds (Some m2) mode = OK out2 ->
  sublist out2 out1.
Proof.
  unfold filter_arbitrage_opportunities. intros Hm H1 H2.
  destruct (filter_loop_monotone _ _ _ _ _ _ _ _ Hm H1 H2) as (k1 & k2 & -> & -> & Hs).
  exact Hs.
Qed.

End FilterMore.

Lemma filter_sublist_witness :
  let a := fund_with (PyStr.lit "开放申购") (Dec.Fin true 10 (-1)) [] in
  let b := fund_with (PyStr.lit "暂停申购") (Dec.Fin true 50 (-1)) [] in
  let c := fund_with (PyStr.lit "限大额") (Dec.Fin true 99 (-2)) [] in
  filter_arbitrage_opportunities id [a; b; c] (Some Decimal_0) None = OK [a; c] /\
  sublist [a; c] [a; b; c] /\
  filter_arbitrage_opportunities id [a; c] (Some Decimal_0) None = OK [a; c].
Proof.
  intros a b c.
  assert (H : filter_arbitrage_opportunities id [a; b; c] (Some Decimal_0) None
              = OK [a; c]) by (vm_compute; reflexivity).
  split; [exact H|].
  destruct (filter_sublist id _ _ _ _ H) as (Hs & _ & Hi).
  split; assumption.
Defined.

Lemma filter_nan_raises_witness :
  let a := fund_with (PyStr.lit "开放申购") (Dec.Fin true 10 (-1)) [] in
  let n := fund_with (PyStr.lit "开放") (Dec.NaN false) [] in
  filter_arbitrage_opportunities id [a] None None = OK [a] /\
  filter_arbitrage_opportunities id ([a] ++ n :: [a]) None None
  = Raise InvalidOperation.
Proof.
  intros a n.
  assert (H : filter_arbitrage_opportunities id [a] None None = OK [a])
    by (vm_compute; reflexivity).
  split; [exact H|].
  apply (filter_nan_raises id [a] [a] [a] n None None H);
    [reflexivity|reflexivity|left; reflexivity].
Defined.

Lemma filter_threshold_monotone_witness :
  let a := fund_with (PyStr.lit "开放申购") (Dec.Fin true 10 (-1)) [] in
  let c := fund_with (PyStr.lit "限大额") (Dec.Fin true 99 (-2)) [] in
  Dec.cmp Decimal_0 Decimal_1_0 <> Gt /\
  filter_arbitrage_opportunities id [a; c] (Some Decimal_0) None = OK [a; c] /\
  filter_arbitrage_opportunities id [a; c] (Some Decimal_1_0) None = OK [a] /\
  sublist [a] [a; c].
Proof.
  intros a c.
  assert (Hm : Dec.cmp Decimal_0 Decimal_1_0 <> Gt) by (vm_compute; discriminate).
  assert (H1 : filter_arbitrage_opportunities id [a; c] (Some Decimal_0) None
               = OK [a; c]) by (vm_compute; reflexivity).
  assert (H2 : filter_arbitrage_opportunities id [a; c] (Some Decimal_1_0) None
               = OK [a]) by (vm_compute; reflexivity).
  split; [exact Hm|]. split; [exact H1|]. split; [exact H2|].
  exact (filter_threshold_monotone id _ _ _ _ _ None Hm H1 H2).
Defined.
(** ** More on the ranking *)

Section SortMore.

Context {Ref : Type} (deref : Ref -> FundItem).

Let good (x : option Decimal * Ref) : Prop := orderable x.1 = true.
Let plain (x : option Decimal * Ref) : Prop := number_or_none x.1 = true.
Let kle (x y : option Decimal * Ref) : Prop := key_le x.1 y.1.

Lemma key_lt_none (a b : option Decimal) :
  number_or_none a = true -> number_or_none b = true ->
  a = None \/ b = None -> key_lt a b = Raise TypeError.
Proof.
  destruct a as [x|], b as [y|]; simpl; intros _ _ [H|H];
    try discriminate; reflexivity.
Qed.

Lemma orderable_or_none (k : option Decimal) :
  number_or_none k = true -> orderable k = true \/ k = None.
Proof. destruct k as [d|]; simpl; [left|right]; auto. Qed.

(** Inserting into a list of ordered keys gives a list of ordered keys
    that is not empty. *)
Lemma insert_by_key_good (x : option Decimal * Ref) (l : list (option Decimal * Ref)) :
  good x -> Forall good l ->
  exists l', insert_by_key x l = OK l' /\ Forall good l' /\ l' <> [].
Proof.
  intros Hx Hl. induction Hl as [|y r Hy Hr IH]; simpl.
  - exists [x]. repeat split; [repeat constructor; exact Hx|discriminate].
  - rewrite key_lt_spec by assumption.
    destruct (key_cmp x.1 y.1); cbn [rbind].
    + destruct IH as (r' & -> & Hg & _). cbn [rbind]. exists (y :: r').
      split; [reflexivity|]. split; [constructor; assumption|discriminate].
    + exists (x :: y :: r). split; [reflexivity|].
      split; [repeat constructor; assumption|discriminate].
    + destruct IH as (r' & -> & Hg & _). cbn [rbind]. exists (y :: r').
      split; [reflexivity|]. split; [constructor; assumption|discriminate].
Qed.

Lemma sort_keyed_none (todo done : list (option Decimal * Ref)) :
  Forall good done -> done <> [] -> Forall plain todo ->
  Exists (fun x => x.1 = None) todo ->
  sort_keyed done todo = Raise TypeError.
Proof.
  revert done. induction todo as [|x r IH]; intros done Hd Hne Hp Hex.
  - inversion Hex.
  - apply Forall_cons in Hp as [Hx Hr]. cbn [sort_keyed].
    destruct (orderable_or_none _ Hx) as [Hgx|Hnx].
    + destruct (insert_by_key_good x done Hgx Hd) as (d' & -> & Hg' & Hne').
      cbn [rbind]. apply IH; try assumption.
      apply Exists_cons in Hex as [Hex|Hex]; [|exact Hex].
      unfold orderable in Hgx. rewrite Hex in Hgx. discriminate.
    + destruct done as [|y done']; [contradiction|].
      apply Forall_cons in Hd as [Hy _]. cbn [insert_by_key].
      rewrite key_lt_none; [reflexivity|exact Hx| |left; exact Hnx].
      unfold good, orderable in Hy. unfold number_or_none.
      destruct y.1; [exact Hy|reflexivity].
Qed.

Lemma sort_keyed_uncomputed (todo : list (option Decimal * Ref)) :
  (2 <= length todo)%nat -> Forall plain todo ->
  Exists (fun x => x.1 = None) todo ->
  sort_keyed [] todo = Raise TypeError.
Proof.
  destruct todo as [|x [|y r]]; simpl; try lia. intros _ Hp Hex.
  apply Forall_cons in Hp as [Hx Hp]. pose proof Hp as Hp'.
  apply Forall_cons in Hp' as [Hy Hr].
  destruct (orderable_or_none _ Hx) as [Hgx|Hnx].
  - change (sort_keyed [x] (y :: r) = Raise TypeError).
    apply sort_keyed_none; [repeat constructor; exact Hgx|discriminate|exact Hp|].
    apply Exists_cons in Hex as [Hex|Hex]; [|exact Hex].
    unfold orderable in Hgx. rewrite Hex in Hgx. discriminate.
  - rewrite key_lt_none; [reflexivity|exact Hy|exact Hx|right; exact Hnx].
Qed.

(** [sorted] compares nothing on a list of fewer than two entries and
    returns it as it is, whatever the keys; on a longer list in which some
    key is still [None] (and none is NaN) the first comparison that meets
    it raises [TypeError]. *)
Lemma sorted_edge (key : FundItem -> option Decimal) (reverse : bool)
    (funds : list Ref) :
  ((length funds <= 1)%nat -> sorted deref funds key reverse = OK funds) /\
  ((2 <= length funds)%nat ->
   Forall (fun x => number_or_none (key (deref x)) = true) funds ->
   Exists (fun x => key (deref x) = None) funds ->
   sorted deref funds key reverse = Raise TypeError).
Proof.
  split.
  - destruct funds as [|x [|y r]]; simpl; try lia; intros _;
      unfold sorted; destruct reverse; reflexivity.
  - intros Hlen Hp Hex. unfold sorted.
    set (g := fun x : Ref => (key (deref x), x)).
    set (input := if reverse then rev funds else funds).
    assert (Hin : (if reverse then rev (map g funds) else map g funds) = map g input)
      by (unfold input; destruct reverse; [apply eq_sym, map_rev|reflexivity]).
    rewrite Hin, sort_keyed_uncomputed; [reflexivity| | |].
    + rewrite length_map. unfold input. destruct reverse; [rewrite length_rev|]; exact Hlen.
    + apply List.Forall_map. unfold input.
      destruct reverse; [apply Forall_rev|]; exact Hp.
    + apply List.Exists_map. unfold input.
      destruct reverse; [apply Exists_rev|]; exact Hex.
Qed.

(** Inserting an entry that nothing in the list is above puts it last. *)
Lemma insert_by_key_last (x : option Decimal * Ref) (l : list (option Decimal * Ref)) :
  good x -> Forall good l -> Forall (fun y => kle y x) l ->
  insert_by_key x l = OK (l ++ [x]).
Proof.
  intros Hx Hg Hl. induction Hl as [|y r Hy Hr IH]; [reflexivity|].
  apply Forall_cons in Hg as [Hgy Hgr]. cbn [insert_by_key app].
  rewrite key_lt_spec by assumption.
  unfold kle, key_le in Hy. rewrite key_cmp_opp in Hy.
  destruct (key_cmp x.1 y.1); simpl in Hy; try congruence;
    cbn [rbind]; rewrite (IH Hgr); reflexivity.
Qed.

Lemma sort_keyed_sorted (todo done : list (option Decimal * Ref)) :
  Forall good (done ++ todo) -> StronglySorted kle (done ++ todo) ->
  sort_keyed done todo = OK (done ++ todo).
Proof.
  revert done. induction todo as [|x r IH]; intros done Hg Hs.
  - simpl. rewrite app_nil_r. reflexivity.
  - cbn [sort_keyed].
    assert (Hlast : insert_by_key x done = OK (done ++ [x])).
    { apply insert_by_key_last.
      - apply Forall_app in Hg as [_ Hg]. apply Forall_cons in Hg. apply Hg.
      - apply Forall_app in Hg. apply Hg.
      - clear IH Hg. induction done as [|d done IHd]; [constructor|].
        simpl in Hs. apply StronglySorted_inv in Hs as [Hs Hd].
        constructor; [|apply IHd; exact Hs].
        apply Forall_app in Hd as [_ Hd]. apply Forall_cons in Hd. apply Hd. }
    rewrite Hlast. cbn [rbind].
    rewrite IH; rewrite <- app_assoc; [reflexivity|exact Hg|exact Hs].
Qed.

Lemma sorted_fixed (key : FundItem -> option Decimal) (reverse : bool)
    (l : list Ref) :
  Forall (fun x => orderable (key (deref x)) = true) l ->
  metric_sorted deref key reverse l ->
  sorted deref l key reverse = OK l.
Proof.
  intros Hg Hs. unfold sorted, metric_sorted in *.
  set (g := fun x : Ref => (key (deref x), x)).
  assert (Hmg : forall m, map snd (map g m) = m).
  { intros m. rewrite map_map. apply map_id. }
  assert (Hasc : forall m,
            Forall (fun x => orderable (key (deref x)) = true) m ->
            StronglySorted (fun x y => key_le (key (deref x)) (key (deref y))) m ->
            sort_keyed [] (map g m) = OK (map g m)).
  { intros m Hgm Hsm. apply (sort_keyed_sorted (map g m) []); simpl.
    - apply List.Forall_map. exact Hgm.
    - clear Hgm. induction Hsm as [|a m Hm IH Ha]; simpl; constructor;
        [exact IH|]. apply List.Forall_map. exact Ha. }
  destruct reverse.
  - rewrite <- map_rev, Hasc.
    + cbn [rbind]. rewrite <- map_rev, rev_involutive, Hmg. reflexivity.
    + apply Forall_rev. exact Hg.
    + apply flip_StronglySorted in Hs.
      eapply StronglySorted_impl_rel; [|exact Hs].
      intros x y H. cbv beta in H. unfold key_ge, key_le in *.
      rewrite key_cmp_opp. destruct (key_cmp _ _); simpl; congruence.
  - rewrite Hasc by assumption. cbn [rbind]. rewrite Hmg. reflexivity.
Qed.

(** X8. Ranking is idempotent: a list that [sort_by_profit] or
    [sort_by_profit_rate] has returned for computed results comes back
    unchanged when it is ranked again in the same direction. *)
Theorem ranking_idempotent (funds : list Ref) (descending : option bool) :
  Forall (fun x => computed (deref x) = true) funds ->
  (exists out, sort_by_profit deref funds descending = OK out /\
     sort_by_profit deref out descending = OK out) /\
  (exists out, sort_by_profit_rate deref funds descending = OK out /\
     sort_by_profit_rate deref out descending = OK out).
Proof.
  intros Hc.
  assert (Hp : Forall (fun x => orderable (profit (deref x)) = true) funds).
  { eapply Forall_impl; [exact Hc|]. intros x Hx.
    apply andb_true_iff in Hx. apply Hx. }
  assert (Hr : Forall (fun x => orderable (profit_rate (deref x)) = true) funds).
  { eapply Forall_impl; [exact Hc|]. intros x Hx.
    apply andb_true_iff in Hx. apply Hx. }
  unfold sort_by_profit, sort_by_profit_rate. split.
  - destruct (sorted_spec deref profit (arg true descending) funds Hp)
      as (out & Ho & Hperm & Hs & _).
    exists out. split; [exact Ho|]. apply sorted_fixed; [|exact Hs].
    rewrite <- Hperm. exact Hp.
  - destruct (sorted_spec deref profit_rate (arg true descending) funds Hr)
      as (out & Ho & Hperm & Hs & _).
    exists out. split; [exact Ho|]. apply sorted_fixed; [|exact Hs].
    rewrite <- Hperm. exact Hr.
Qed.

(** X9. Ranking records that were never evaluated: with fewer than two entries
    nothing is compared and the list is returned; with two or more, a
    metric that is still [None] makes [sort_by_profit] and
    [sort_by_profit_rate] raise [TypeError]. *)
Theorem ranking_uncomputed (funds : list Ref) (descending : option bool) :
  ((length funds <= 1)%nat ->
   sort_by_profit deref funds descending = OK funds /\
   sort_by_profit_rate deref funds descending = OK funds) /\
  ((2 <= length funds)%nat ->
   Forall (fun x => number_or_none (profit (deref x)) = true) funds ->
   Exists (fun x => profit (deref x) = None) funds ->
   sort_by_profit deref funds descending = Raise TypeError) /\
  ((2 <= length funds)%nat ->
   Forall (fun x => number_or_none (profit_rate (deref x)) = true) funds ->
   Exists (fun x => profit_rate (deref x) = None) funds ->
   sort_by_profit_rate deref funds descending = Raise TypeError).
Proof.
  unfold sort_by_profit, sort_by_profit_rate. split; [|split].
  - intros H. split; apply sorted_edge; exact H.
  - apply sorted_edge.
  - apply sorted_edge.
Qed.

End SortMore.

Lemma ranking_idempotent_witness :
  let a := result_with (PyStr.lit "a") Decimal_5 Decimal_1_0 in
  let b := result_with (PyStr.lit "b") Decimal_100 Decimal_0 in
  let c := result_with (PyStr.lit "c") (Dec.Fin false 50 (-1)) Decimal_1_0 in
  Forall (fun x => computed (id x) = true) [a; b; c] /\
  exists out, sort_by_profit id [a; b; c] None = OK out /\
    sort_by_profit id out None = OK out.
Proof.
  intros a b c.
  assert (H : Forall (fun x => computed (id x) = true) [a; b; c])
    by (repeat constructor).
  split; [exact H|].
  exact (proj1 (ranking_idempotent id [a; b; c] None H)).
Defined.

Lemma ranking_uncomputed_witness :
  let a := result_with (PyStr.lit "a") Decimal_5 Decimal_1_0 in
  (length [example_fund] <= 1)%nat /\
  sort_by_profit id [example_fund] None = OK [example_fund] /\
  (2 <= length [a; example_fund])%nat /\
  sort_by_profit id [a; example_fund] None = Raise TypeError.
Proof.
  intros a.
  assert (H1 : (length [example_fund] <= 1)%nat) by (simpl; lia).
  assert (H2 : (2 <= length [a; example_fund])%nat) by (simpl; lia).
  split; [exact H1|].
  split; [exact (proj1 (proj1 (ranking_uncomputed id [example_fund] None) H1))|].
  split; [exact H2|].
  apply (proj1 (proj2 (ranking_uncomputed id [a; example_fund] None)) H2).
  - repeat constructor.
  - apply Exists_cons_tl, Exists_cons_hd. reflexivity.
Defined.
(** ** More on the object store *)

Section StoreMore.

Implicit Types (h : gmap loc FundItem) (memo : gmap loc loc).

Lemma obj_insert_eq h l f : obj (<[l := f]> h) l = f.
Proof. unfold obj. apply lookup_total_insert_eq. Qed.

Lemma obj_insert_ne h l k f : l <> k -> obj (<[l := f]> h) k = obj h k.
Proof. intros H. unfold obj. apply lookup_total_insert_ne. exact H. Qed.

Lemma obj_lookup h h' l : h' !! l = h !! l -> obj h' l = obj h l.
Proof. intros H. unfold obj. rewrite !lookup_total_alt, H. reflexivity. Qed.

Lemma calculate_quantity (self : FundItem) (account : Account) (quantity : option Z) :
  calculate_arbitrage_profit self account (Some (arg default_quantity quantity))
  = calculate_arbitrage_profit self account quantity.
Proof. reflexivity. Qed.

(** The loop of [calculate_all_profits], started in a store where some of
    the objects may already hold the outcome of the same evaluation. *)
Lemma calculate_loop_spec funds account quantity (orig : loc -> FundItem) h :
  (forall l, obj h l = orig l \/
             obj h l = (calculate_arbitrage_profit (orig l) account quantity).1) ->
  let '(h', r) := calculate_loop funds account quantity h in
  match r with
  | OK _ =>
    forall l, l ∈ funds ->
      exists p, calculate_arbitrage_profit (orig l) account quantity = (obj h' l, OK p)
  | Raise e =>
    exists l, l ∈ funds /\
      (calculate_arbitrage_profit (orig l) account quantity).2 = Raise e
  end.
Proof.
  revert h. induction funds as [|fund rest IH]; intros h Hinv.
  - simpl. intros l Hl. inversion Hl.
  - cbn [calculate_loop].
    assert (Hsame : calculate_arbitrage_profit (obj h fund) account quantity
                    = calculate_arbitrage_profit (orig fund) account quantity).
    { destruct (Hinv fund) as [-> | ->]; [reflexivity|apply calculate_again]. }
    rewrite Hsame.
    destruct (calculate_arbitrage_profit (orig fund) account quantity)
      as [self [p|e]] eqn:Hc.
    + assert (Hinv' : forall l, obj (<[fund:=self]> h) l = orig l \/
                obj (<[fund:=self]> h) l
                = (calculate_arbitrage_profit (orig l) account quantity).1).
      { intros l. destruct (decide (fund = l)) as [<-|Hne].
        - right. rewrite obj_insert_eq, Hc. reflexivity.
        - rewrite obj_insert_ne by exact Hne. apply Hinv. }
      specialize (IH _ Hinv').
      pose proof (calculate_loop_frame rest account quantity (<[fund:=self]> h)) as Hf.
      destruct (calculate_loop rest account quantity (<[fund:=self]> h)) as [h' r].
      simpl in Hf. destruct r as [u|e].
      * intros l Hl. destruct (decide (l ∈ rest)) as [Hin|Hout]; [apply IH, Hin|].
        apply elem_of_cons in Hl as [->|Hl]; [|contradiction].
        exists p. rewrite (obj_lookup _ _ _ (Hf _ Hout)), obj_insert_eq. exact Hc.
      * destruct IH as (l & Hl & He). exists l. split; [|exact He].
        apply elem_of_cons. right. exact Hl.
    + exists fund. split; [apply elem_of_cons; left; reflexivity|].
      rewrite Hc. reflexivity.
Qed.

End StoreMore.

(** X10. [calculate_all_profits] returns the list it was given, having left on
    each object of the list the outcome of evaluating it, also when an
    object is listed more than once; objects that are not listed are not
    touched.  When it raises, some listed object is one whose evaluation
    raises that exception. *)
Theorem calculate_all_profits_spec (funds : list loc) (account : Account)
    (quantity : option Z) (h h' : gmap loc FundItem) (r : result (list loc)) :
  calculate_all_profits funds account quantity h = (h', r) ->
  (forall l, l ∉ funds -> h' !! l = h !! l) /\
  match r with
  | OK out =>
    out = funds /\
    forall l, l ∈ funds ->
      exists p, calculate_arbitrage_profit (obj h l) account quantity
                = (obj h' l, OK p)
  | Raise e =>
    exists l, l ∈ funds /\
      (calculate_arbitrage_profit (obj h l) account quantity).2 = Raise e
  end.
Proof.
  unfold calculate_all_profits.
  pose proof (calculate_loop_frame funds account
                (Some (arg default_quantity quantity)) h) as Hf.
  pose proof (calculate_loop_spec funds account
                (Some (arg default_quantity quantity)) (obj h) h
                (fun l => or_introl eq_refl)) as Hs.
  destruct (calculate_loop funds account _ h) as [h1 r1].
  intros [= <- <-]. split; [exact Hf|].
  destruct r1 as [u|e]; cbn [rbind].
  - split; [reflexivity|]. intros l Hl. destruct (Hs l Hl) as (p & Hp).
    exists p. rewrite <- calculate_quantity. exact Hp.
  - destruct Hs as (l & Hl & He). exists l. split; [exact Hl|].
    rewrite <- calculate_quantity. exact He.
Qed.

Lemma calculate_all_profits_spec_witness :
  let t := calculate_all_profits [1; 2; 1]%positive example_account None example_store in
  t.2 = OK [1; 2; 1]%positive /\
  forall l, l ∈ [1; 2; 1]%positive ->
    exists p, calculate_arbitrage_profit (obj example_store l) example_account None
              = (obj t.1 l, OK p).
Proof.
  intros t.
  assert (Ht : t.2 = OK [1; 2; 1]%positive) by (vm_compute; reflexivity).
  split; [exact Ht|].
  pose proof (calculate_all_profits_spec _ _ _ _ t.1 t.2 (surjective_pairing t))
    as [_ H].
  rewrite Ht in H. exact (proj2 H).
Defined.
(** ** Deep copies *)

Section CopyFacts.

Implicit Types (h : gmap loc FundItem) (memo : gmap loc loc).

(** [deepcopy] writes to new locations only. *)
Lemma deepcopy_loop_untouched funds memo h :
  let '(h', copies) := deepcopy_loop funds memo h in
  forall l, l ∈ dom h -> h' !! l = h !! l.
Proof.
  revert memo h. induction funds as [|fund rest IH]; intros memo h; simpl.
  - reflexivity.
  - destruct (memo !! fund) as [copy|].
    + specialize (IH memo h). destruct (deepcopy_loop rest memo h) as [h' copies].
      exact IH.
    + pose proof (is_fresh (dom h)) as Hfresh.
      set (copy := fresh (dom h)) in *.
      specialize (IH (<[fund:=copy]> memo) (<[copy:=obj h fund]> h)).
      destruct (deepcopy_loop rest _ _) as [h' copies].
      intros l Hl. rewrite IH by (rewrite dom_insert; set_solver).
      apply lookup_insert_ne. set_solver.
Qed.

Lemma deepcopy_loop_spec (P : gset loc) funds memo h :
  P ⊆ dom h -> (forall l, l ∈ funds -> l ∈ P) -> memo_ok P memo h ->
  let '(h', copies) := deepcopy_loop funds memo h in
  exists memo',
    memo ⊆ memo' /\ memo_ok P memo' h' /\ dom h ⊆ dom h' /\
    Forall2 (fun f c => memo' !! f = Some c) funds copies.
Proof.
  revert memo h. induction funds as [|fund rest IH]; intros memo h HP Hin Hok; simpl.
  - exists memo. split; [reflexivity|]. split; [exact Hok|]. split; [reflexivity|].
    constructor.
  - assert (Hrest : forall l, l ∈ rest -> l ∈ P)
      by (intros l Hl; apply Hin, elem_of_cons; right; exact Hl).
    assert (Hfund : fund ∈ P) by (apply Hin, elem_of_cons; left; reflexivity).
    destruct (memo !! fund) as [copy|] eqn:Hm.
    + specialize (IH memo h HP Hrest Hok).
      destruct (deepcopy_loop rest memo h) as [h' copies].
      destruct IH as (memo' & Hsub & Hok' & Hdom & Hall).
      exists memo'. split; [exact Hsub|]. split; [exact Hok'|]. split; [exact Hdom|].
      constructor; [|exact Hall].
      eapply lookup_weaken; [exact Hm|exact Hsub].
    + pose proof (is_fresh (dom h)) as Hfresh.
      set (copy := fresh (dom h)) in *.
      assert (Hcf : copy <> fund) by set_solver.
      assert (Hok1 : memo_ok P (<[fund:=copy]> memo) (<[copy:=obj h fund]> h)).
      { destruct Hok as [Hval Hinj]. split.
        - intros k c Hk. destruct (decide (fund = k)) as [<-|Hne].
          + rewrite lookup_insert_eq in Hk. injection Hk as <-.
            split; [exact Hfund|]. split; [rewrite dom_insert; set_solver|].
            split; [set_solver|].
            rewrite obj_insert_eq, obj_insert_ne by exact Hcf. reflexivity.
          + rewrite lookup_insert_ne in Hk by exact Hne.
            destruct (Hval _ _ Hk) as (Hk1 & Hc1 & Hc2 & Hc3).
            split; [exact Hk1|]. split; [rewrite dom_insert; set_solver|].
            split; [exact Hc2|].
            rewrite !obj_insert_ne by set_solver. exact Hc3.
        - intros k1 k2 c H1 H2.
          destruct (decide (fund = k1)) as [<-|Hn1];
            destruct (decide (fund = k2)) as [<-|Hn2]; [reflexivity| | |].
          + rewrite lookup_insert_eq in H1. injection H1 as <-.
            rewrite lookup_insert_ne in H2 by exact Hn2.
            destruct (Hval _ _ H2) as (_ & Hc & _). contradiction.
          + rewrite lookup_insert_eq in H2. injection H2 as <-.
            rewrite lookup_insert_ne in H1 by exact Hn1.
            destruct (Hval _ _ H1) as (_ & Hc & _). contradiction.
          + rewrite lookup_insert_ne in H1, H2 by assumption.
            exact (Hinj _ _ _ H1 H2). }
      assert (HP1 : P ⊆ dom (<[copy:=obj h fund]> h))
        by (rewrite dom_insert; set_solver).
      specialize (IH _ _ HP1 Hrest Hok1).
      destruct (deepcopy_loop rest _ _) as [h' copies].
      destruct IH as (memo' & Hsub & Hok' & Hdom & Hall).
      assert (Hsub' : memo ⊆ memo').
      { etrans; [|exact Hsub]. apply insert_subseteq. exact Hm. }
      exists memo'. split; [exact Hsub'|]. split; [exact Hok'|].
      split; [rewrite dom_insert in Hdom; set_solver|].
      constructor; [|exact Hall].
      eapply lookup_weaken; [|exact Hsub]. apply lookup_insert_eq.
Qed.

End CopyFacts.

(** X11. [copy.deepcopy] of a list whose references are all valid: the copy has
    one entry per entry of the list; each entry is a new object with the
    fields of the original; two entries of the copy are the same object
    exactly when the two originals are; every object that existed is left
    as it was. *)
Theorem deepcopy_spec (funds copies : list loc) (h h' : gmap loc FundItem) :
  (forall l, l ∈ funds -> l ∈ dom h) ->
  deepcopy funds h = (h', copies) ->
  length copies = length funds /\
  (forall l, l ∈ dom h -> h' !! l = h !! l) /\
  Forall2 (fun f c => c ∉ dom h /\ obj h' c = obj h f) funds copies /\
  (forall i j f g c d,
     funds !! i = Some f -> funds !! j = Some g ->
     copies !! i = Some c -> copies !! j = Some d ->
     (c = d <-> f = g)).
Proof.
  unfold deepcopy. intros Hin Hd.
  pose proof (deepcopy_loop_untouched funds ∅ h) as Hu.
  pose proof (deepcopy_loop_spec (dom h) funds ∅ h) as Hs.
  rewrite Hd in Hu, Hs.
  destruct Hs as (memo' & _ & [Hval Hinj] & Hdom & Hall); [reflexivity|exact Hin| |].
  { split; intros *; rewrite lookup_empty; discriminate. }
  split; [symmetry; exact (Forall2_length _ _ _ Hall)|].
  split; [exact Hu|]. split.
  - eapply Forall2_impl; [exact Hall|]. intros f c Hfc. cbv beta in Hfc.
    destruct (Hval _ _ Hfc) as (Hf & _ & Hc & Ho).
    split; [exact Hc|]. rewrite Ho. apply obj_lookup, Hu, Hf.
  - intros i j f g c d Hf Hg Hc Hdd.
    destruct (Forall2_lookup_l _ _ _ _ _ Hall Hf) as (c' & Hc' & Hfc).
    destruct (Forall2_lookup_l _ _ _ _ _ Hall Hg) as (d' & Hd' & Hgd).
    rewrite Hc in Hc'. injection Hc' as <-.
    rewrite Hdd in Hd'. injection Hd' as <-.
    split.
    + intros <-. exact (Hinj _ _ _ Hfc Hgd).
    + intros <-. rewrite Hfc in Hgd. injection Hgd as <-. reflexivity.
Qed.

Lemma deepcopy_spec_witness :
  let t := deepcopy [1; 2; 1]%positive example_store in
  (forall l, l ∈ [1; 2; 1]%positive -> l ∈ dom example_store) /\
  length t.2 = length [1; 2; 1]%positive /\
  Forall2 (fun f c => c ∉ dom example_store /\ obj t.1 c = obj example_store f)
    [1; 2; 1]%positive t.2.
Proof.
  intros t.
  assert (Hin : forall l, l ∈ [1; 2; 1]%positive -> l ∈ dom example_store).
  { intros l Hl. apply elem_of_dom.
    repeat (apply elem_of_cons in Hl as [->|Hl]; [vm_compute; eauto|]).
    inversion Hl. }
  split; [exact Hin|].
  destruct (deepcopy_spec [1; 2; 1]%positive t.2 example_store t.1 Hin
              (surjective_pairing t)) as (Hlen & _ & Hall & _).
  split; assumption.
Defined.
(** ** Division within the exponent range *)

Lemma strip_zeros_adjusted (fuel : nat) (c : N) (e i : Z) :
  (0 < c)%N ->
  let '(c', e') := Dec.strip_zeros fuel c e i in
  (0 < c')%N /\ e <= e' /\ Dec.adjusted c' e' = Dec.adjusted c e.
Proof.
  intros Hc. pose proof (strip_zeros_spec fuel c e i) as H.
  destruct (Dec.strip_zeros fuel c e i) as [c' e']. destruct H as [He Hm].
  assert (Hc' : (0 < c')%N) by (destruct (N.eq_0_gt_0_cases c'); [subst c'; lia|assumption]).
  split; [exact Hc'|]. split; [exact He|].
  unfold Dec.adjusted. rewrite Hm, ndigits_mul_pow10 by lia. lia.
Qed.

(** The quotient that [__truediv__] computes before rounding has 29 or 30
    digits. *)
Lemma div_coeff_bounds (ca cb : N) :
  (0 < ca)%N -> (0 < cb)%N ->
  let shift := Dec.ndigits cb - Dec.ndigits ca + Dec.prec + 1 in
  let coeff :=
    if 0 <=? shift then (ca * Dec.pow10 shift / cb)%N
    else (ca / (cb * Dec.pow10 (- shift)))%N in
  (0 < coeff)%N /\ (coeff < Dec.pow10 30)%N.
Proof.
  intros Ha Hb shift coeff. unfold Dec.prec in shift.
  destruct (ndigits_spec ca Ha) as (Ha1 & Halo & Hahi).
  destruct (ndigits_spec cb Hb) as (Hb1 & Hblo & Hbhi).
  set (na := Dec.ndigits ca) in *. set (nb := Dec.ndigits cb) in *.
  unfold coeff. destruct (Z.leb_spec 0 shift) as [Hs|Hs].
  - assert (E1 : (Dec.pow10 (na - 1) * Dec.pow10 shift = Dec.pow10 nb * Dec.pow10 28)%N).
    { rewrite <- !pow10_add by lia. f_equal. unfold shift. lia. }
    assert (E2 : (Dec.pow10 na * Dec.pow10 shift = Dec.pow10 (nb - 1) * Dec.pow10 30)%N).
    { rewrite <- !pow10_add by lia. f_equal. unfold shift. lia. }
    pose proof (pow10_pos shift) as Hp. pose proof (pow10_pos 28) as Hp28.
    pose proof (N.mul_le_mono_r _ _ (Dec.pow10 shift) Halo) as B1.
    apply (N.mul_lt_mono_pos_r (Dec.pow10 shift) _ _ Hp) in Hahi.
    pose proof (N.mul_le_mono_l 1 (Dec.pow10 28) (Dec.pow10 nb) ltac:(lia)) as B3.
    pose proof (N.mul_le_mono_r _ _ (Dec.pow10 30) Hblo) as B4.
    rewrite E1 in B1. rewrite E2 in Hahi.
    split.
    + apply N.div_str_pos. split; [exact Hb|]. lia.
    + apply N.Div0.div_lt_upper_bound. lia.
  - assert (E1 : (Dec.pow10 (na - 1) = Dec.pow10 nb * Dec.pow10 (- shift) * Dec.pow10 28)%N).
    { rewrite <- !pow10_add by lia. f_equal. unfold shift. lia. }
    assert (E2 : (Dec.pow10 na = Dec.pow10 (nb - 1) * Dec.pow10 (- shift) * Dec.pow10 30)%N).
    { rewrite <- !pow10_add by lia. f_equal. unfold shift. lia. }
    pose proof (pow10_pos (- shift)) as Hp. pose proof (pow10_pos 28) as Hp28.
    apply (N.mul_lt_mono_pos_r (Dec.pow10 (- shift)) _ _ Hp) in Hbhi.
    pose proof (N.mul_le_mono_r _ _ (Dec.pow10 (- shift)) Hblo) as B4.
    pose proof (N.mul_le_mono_r _ _ (Dec.pow10 30) B4) as B5.
    pose proof (N.mul_le_mono_l 1 (Dec.pow10 28)
                  (Dec.pow10 nb * Dec.pow10 (- shift)) ltac:(lia)) as B3.
    split.
    + apply N.div_str_pos. split; [lia|]. lia.
    + apply N.Div0.div_lt_upper_bound. lia.
Qed.

Lemma div_finish (L U : Z) (s : bool) (coeff remainder : N) (exp ideal : Z)
    (fuel : nat) :
  (0 < coeff)%N -> (coeff < Dec.pow10 30)%N ->
  Dec.Etiny <= L -> U + 1 <= Dec.Emax -> L <= exp -> exp + 30 <= U ->
  exists c' e',
    (let '(coeff, exp) :=
       if (remainder =? 0)%N then Dec.strip_zeros fuel coeff exp ideal
       else (if (coeff mod 5 =? 0)%N then (coeff + 1)%N else coeff, exp) in
     Dec.fix_ (Dec.Fin s coeff exp)) = OK (Dec.Fin s c' e') /\
    ranged L (U + 1) (Dec.Fin s c' e') /\ (0 < c')%N.
Proof.
  intros Hc0 Hc30 HL HU He Hu.
  assert (Hfix : forall c e, (0 < c)%N -> L <= e -> Dec.adjusted c e <= U ->
            exists c' e', Dec.fix_ (Dec.Fin s c e) = OK (Dec.Fin s c' e') /\
                          ranged L (U + 1) (Dec.Fin s c' e') /\ (0 < c')%N).
  { intros c e Hc Hle Hadj.
    destruct (fix_ranged L U s c e HL HU Hle Hadj) as (c' & e' & -> & Hl' & Hu' & Hz).
    exists c', e'. split; [reflexivity|]. split; [simpl; split; assumption|].
    destruct (N.eq_0_gt_0_cases c') as [E|E]; [apply Hz in E; lia|exact E]. }
  assert (Hnd : Dec.ndigits coeff <= 30)
    by (apply ndigits_le_lt; [discriminate|exact Hc30|exact Hc0]).
  destruct (remainder =? 0)%N.
  - pose proof (strip_zeros_adjusted fuel coeff exp ideal Hc0) as Hs.
    destruct (Dec.strip_zeros _ _ _ _) as [c' e'].
    destruct Hs as (Hc' & He' & Hadj).
    apply Hfix; [exact Hc'|lia|]. rewrite Hadj. unfold Dec.adjusted. lia.
  - apply Hfix; [destruct (coeff mod 5 =? 0)%N; lia|exact He|]. unfold Dec.adjusted.
    destruct (coeff mod 5 =? 0)%N; [|lia].
    assert (Hn1 : Dec.ndigits (coeff + 1) <= 31); [|lia].
    apply ndigits_le_lt; [discriminate| |lia].
    change 31 with (30 + 1). rewrite pow10_succ by discriminate.
    clear - Hc30. revert Hc30. generalize (Dec.pow10 30). intros p Hp. lia.
Qed.

(** A quotient of finite numbers within the exponent range: it is
    computed, it has the sign of the signs combined, and it is zero only
    when the dividend is. *)
Lemma div_ranged (La Ua Lb Ub : Z) (sa sb : bool) (ca cb : N) (ea eb : Z) :
  ranged La Ua (Dec.Fin sa ca ea) -> ranged Lb Ub (Dec.Fin sb cb eb) ->
  cb <> 0%N ->
  Dec.Etiny <= La - Ub - 29 -> Ua - Lb + 2 <= Dec.Emax ->
  exists c' e',
    Dec.div (Dec.Fin sa ca ea) (Dec.Fin sb cb eb) = OK (Dec.Fin (xorb sa sb) c' e') /\
    ranged (La - Ub - 29) (Ua - Lb + 2) (Dec.Fin (xorb sa sb) c' e') /\
    (c' = 0%N <-> ca = 0%N).
Proof.
  intros [Hla Hua] [Hlb Hub] Hz HL HU. apply N.eqb_neq in Hz.
  cbn [Dec.div]. rewrite Hz. cbv zeta.
  pose proof (ndigits_pos ca) as Hna. pose proof (ndigits_pos cb) as Hnb.
  unfold Dec.adjusted in Hua, Hub.
  replace (Ua - Lb + 2) with ((Ua - Lb + 1) + 1) by lia.
  destruct (N.eqb_spec ca 0) as [Hca|Hca].
  - destruct (fix_ranged (La - Ub - 29) (Ua - Lb + 1) (xorb sa sb) 0 (ea - eb))
      as (c' & e' & -> & Hl' & Hu' & Hz'); [exact HL|lia|lia| |].
    { unfold Dec.adjusted. change (Dec.ndigits 0) with 1. lia. }
    exists c', e'. split; [reflexivity|]. split; [simpl; split; assumption|].
    split; [intros _; exact Hca|intros _; apply Hz'; reflexivity].
  - assert (Hpa : (0 < ca)%N) by lia.
    assert (Hpb : (0 < cb)%N) by (apply N.eqb_neq in Hz; lia).
    pose proof (div_coeff_bounds ca cb Hpa Hpb) as Hc. cbv zeta in Hc.
    set (shift := Dec.ndigits cb - Dec.ndigits ca + Dec.prec + 1) in *.
    assert (He1 : La - Ub - 29 <= ea - eb - shift)
      by (unfold shift, Dec.prec; lia).
    assert (He2 : ea - eb - shift + 30 <= Ua - Lb + 1)
      by (unfold shift, Dec.prec; lia).
    assert (HU' : Ua - Lb + 1 + 1 <= Dec.Emax) by lia.
    assert (Hgen : forall coeff remainder,
              (0 < coeff)%N /\ (coeff < Dec.pow10 30)%N ->
              exists c' e',
                (let '(coeff, exp) :=
                   if (remainder =? 0)%N
                   then Dec.strip_zeros (Z.to_nat (ea - eb - (ea - eb - shift))) coeff
                          (ea - eb - shift) (ea - eb)
                   else (if (coeff mod 5 =? 0)%N then (coeff + 1)%N else coeff,
                         ea - eb - shift) in
                 Dec.fix_ (Dec.Fin (xorb sa sb) coeff exp))
                = OK (Dec.Fin (xorb sa sb) c' e') /\
                ranged (La - Ub - 29) (Ua - Lb + 1 + 1) (Dec.Fin (xorb sa sb) c' e') /\
                (c' = 0%N <-> ca = 0%N)).
    { intros coeff remainder [Hc0 Hc30].
      destruct (div_finish _ _ (xorb sa sb) coeff remainder (ea - eb - shift) (ea - eb)
                  (Z.to_nat (ea - eb - (ea - eb - shift))) Hc0 Hc30 HL HU' He1 He2)
        as (c' & e' & Hd & Hr & Hp).
      exists c', e'. split; [exact Hd|]. split; [exact Hr|]. lia. }
    revert Hc. destruct (0 <=? shift); cbv beta iota; intros Hc; exact (Hgen _ _ Hc).
Qed.

(** A product of finite numbers within the exponent range has the sign of
    the signs combined and is zero only when a factor is. *)
Lemma mul_signed (La Ua Lb Ub : Z) (sa sb : bool) (ca cb : N) (ea eb : Z) :
  ranged La Ua (Dec.Fin sa ca ea) -> ranged Lb Ub (Dec.Fin sb cb eb) ->
  Dec.Etiny <= La + Lb -> Ua + Ub + 2 <= Dec.Emax ->
  exists c' e',
    Dec.mul (Dec.Fin sa ca ea) (Dec.Fin sb cb eb) = OK (Dec.Fin (xorb sa sb) c' e') /\
    (c' = 0%N <-> (ca = 0%N \/ cb = 0%N)).
Proof.
  intros [Hla Hua] [Hlb Hub] HL HU. cbn [Dec.mul].
  pose proof (ndigits_pos ca). pose proof (ndigits_pos cb).
  assert (Hadj : Dec.adjusted (ca * cb) (ea + eb) <= Ua + Ub + 1).
  { unfold Dec.adjusted in *.
    destruct (N.eq_0_gt_0_cases ca) as [->|Hca].
    { rewrite N.mul_0_l. change (Dec.ndigits 0) with 1 in *. lia. }
    destruct (N.eq_0_gt_0_cases cb) as [->|Hcb].
    { rewrite N.mul_0_r. change (Dec.ndigits 0) with 1 in *. lia. }
    pose proof (ndigits_mul_le ca cb Hca Hcb). lia. }
  destruct (fix_ranged (La + Lb) (Ua + Ub + 1) (xorb sa sb) (ca * cb) (ea + eb))
    as (c' & e' & -> & _ & _ & Hz); try lia.
  exists c', e'. split; [reflexivity|]. rewrite Hz. lia.
Qed.

(** ** Evaluation on ordinary inputs *)

Lemma ranged_not_nan (L U : Z) (d : Decimal) : ranged L U d -> Dec.is_nan d = false.
Proof. destruct d; simpl; tauto. Qed.

Lemma cmp_zero (s : bool) (c : N) (e : Z) :
  Dec.cmp (Dec.Fin s c e) (Dec.of_int 0)
  = if (c =? 0)%N then Eq else if s then Lt else Gt.
Proof. simpl. destruct (c =? 0)%N; [reflexivity|]. destruct s; reflexivity. Qed.

Lemma calculate_total (self : FundItem) (account : Account) (quantity : option Z) :
  ordinary_inputs self account (arg default_quantity quantity) = true ->
  exists v pr,
    arbitrage_locals self (parse_apply_fee self) account
      (arg default_quantity quantity) = OK v /\
    Dec.is_finite (net_profit v) = true /\ Dec.is_finite pr = true /\
    calculate_arbitrage_profit self account quantity
    = (set_profit_rate pr
         (set_estimated_sell_price (price self)
            (set_profit (net_profit v)
               (set_subscribe_fee_rate (parse_apply_fee self) self))),
       OK (net_profit v)) /\
    match Dec.cmp (actual_cost v) (Dec.of_int 0) with
    | Gt => Dec.cmp pr (Dec.of_int 0) = Dec.cmp (net_profit v) (Dec.of_int 0)
    | _ => pr = Decimal_0
    end.
Proof.
  intros Hord.
  destruct (arbitrage_locals_total self account _ Hord) as (v & Hv & Rc & Rn & _).
  unfold calculate_arbitrage_profit. rewrite arbitrage_locals_set_rate, Hv.
  rewrite gt_spec by (eauto using ranged_not_nan).
  destruct (Dec.cmp (actual_cost v) (Dec.of_int 0)) eqn:Hcmp.
  - exists v, Decimal_0. rewrite Hcmp.
    repeat split; try reflexivity; eauto using ranged_finite.
  - exists v, Decimal_0. rewrite Hcmp.
    repeat split; try reflexivity; eauto using ranged_finite.
  - destruct (actual_cost v) as [sc cc ec| |] eqn:Hcost; try (simpl in Rc; tauto).
    destruct (net_profit v) as [sn cn en| |] eqn:Hnet; try (simpl in Rn; tauto).
    rewrite cmp_zero in Hcmp.
    destruct (N.eqb_spec cc 0) as [?|Hcc]; [discriminate|].
    destruct sc; [discriminate|].
    destruct (div_ranged _ _ _ _ _ _ _ _ _ _ Rn Rc Hcc) as (cq & eq & -> & Rr & Zq);
      [unfold Dec.Etiny, Dec.Emin, Dec.prec; lia|unfold Dec.Emax; lia|].
    cbn [rbind].
    assert (R100 : ranged 0 2 (Dec.Fin false 100 0)) by (vm_compute; split; discriminate).
    change (Dec.of_int 100) with (Dec.Fin false 100 0).
    destruct (mul_signed _ _ _ _ _ _ _ _ _ _ Rr R100) as (cp & ep & -> & Zp);
      [unfold Dec.Etiny, Dec.Emin, Dec.prec; lia|unfold Dec.Emax; lia|].
    exists v, (Dec.Fin (xorb (xorb sn false) false) cp ep).
    rewrite Hnet, Hcost. split; [reflexivity|]. split; [reflexivity|].
    split; [reflexivity|]. split; [reflexivity|].
    rewrite !cmp_zero, !xorb_false_r.
    destruct (N.eqb_spec cc 0) as [?|_]; [contradiction|].
    destruct (N.eqb_spec cp 0) as [Ep|Ep], (N.eqb_spec cn 0) as [En|En];
      try reflexivity; exfalso.
    + apply Zp in Ep as [Ep|Ep]; [|discriminate]. apply Zq in Ep. contradiction.
    + apply Ep, Zp. left. apply Zq. exact En.
Qed.

(** X3. On ordinary inputs an evaluation raises nothing: it returns the profit
    and leaves a record whose profit and profit rate are finite numbers,
    ready to be ranked. *)
Theorem evaluation_total (self : FundItem) (account : Account) (quantity : option Z) :
  ordinary_inputs self account (arg default_quantity quantity) = true ->
  exists self' p pr,
    calculate_arbitrage_profit self account quantity = (self', OK p) /\
    profit self' = Some p /\ profit_rate self' = Some pr /\
    Dec.is_finite p = true /\ Dec.is_finite pr = true /\
    computed self' = true.
Proof.
  intros Hord.
  destruct (calculate_total self account quantity Hord) as (v & pr & _ & Hp & Hpr & -> & _).
  eexists _, _, pr. split; [reflexivity|].
  split; [reflexivity|]. split; [reflexivity|]. split; [exact Hp|]. split; [exact Hpr|].
  unfold computed.
  cbn [profit profit_rate set_profit_rate set_estimated_sell_price set_profit orderable].
  destruct (net_profit v), pr; try discriminate; reflexivity.
Qed.

Lemma evaluation_total_witness :
  ordinary_inputs example_fund example_account 10000 = true /\
  exists self' p pr,
    calculate_arbitrage_profit example_fund example_account None = (self', OK p) /\
    profit self' = Some p /\ profit_rate self' = Some pr.
Proof.
  assert (H : ordinary_inputs example_fund example_account 10000 = true)
    by (vm_compute; reflexivity).
  split; [exact H|].
  destruct (evaluation_total example_fund example_account None H)
    as (self' & p & pr & Hc & Hp & Hr & _).
  exists self', p, pr. repeat split; assumption.
Defined.
(** ** Exact arithmetic *)

Lemma signed_mul (sa sb : bool) (ca cb : N) :
  Dec.signed (xorb sa sb) (ca * cb) = Dec.signed sa ca * Dec.signed sb cb.
Proof. unfold Dec.signed. destruct sa, sb; simpl; lia. Qed.

Lemma to_Q_mul (sa sb : bool) (ca cb : N) (ea eb : Z) :
  (Dec.to_Q (xorb sa sb) (ca * cb) (ea + eb) == Dec.to_Q sa ca ea * Dec.to_Q sb cb eb)%Q.
Proof.
  unfold Dec.to_Q. rewrite signed_mul, inject_Z_mult, Qpower_plus by discriminate.
  ring.
Qed.

Lemma signed_abs (z : Z) : Dec.signed (z <? 0) (Z.abs_N z) = z.
Proof. unfold Dec.signed. destruct (Z.ltb_spec z 0); lia. Qed.

Lemma ranged_representable (L U : Z) (s : bool) (c : N) (e : Z) :
  Dec.Etiny <= L -> U <= Dec.Emax -> U - L < 28 ->
  L <= e -> Dec.adjusted c e <= U ->
  representable (Dec.Fin s c e) = true.
Proof.
  unfold Dec.Etiny, Dec.Emin, Dec.Emax, Dec.prec. intros HL HU Hd He Ha.
  unfold representable, Dec.Etiny, Dec.Emin, Dec.Emax, Dec.prec.
  pose proof (ndigits_pos c) as Hn. unfold Dec.adjusted in *.
  apply andb_true_iff. split; [apply Z.leb_le; lia|].
  destruct (c =? 0)%N; [apply Z.leb_le; lia|].
  apply andb_true_iff. split; apply Z.leb_le; lia.
Qed.

(** A product whose digits fit the context is computed without rounding. *)
Lemma mul_exact (La Ua Lb Ub : Z) (a b : Decimal) :
  ranged La Ua a -> ranged Lb Ub b ->
  Dec.Etiny <= La + Lb -> Ua + Ub + 1 <= Dec.Emax -> Ua + Ub + 1 - (La + Lb) < 28 ->
  exists r, Dec.mul a b = OK r /\ ranged (La + Lb) (Ua + Ub + 1) r /\
            (Qval r == Qval a * Qval b)%Q.
Proof.
  destruct a as [sa ca ea| |], b as [sb cb eb| |]; try (simpl; tauto).
  intros [Hla Hua] [Hlb Hub] HL HU Hd. cbn [Dec.mul].
  pose proof (ndigits_pos ca). pose proof (ndigits_pos cb).
  assert (Hadj : Dec.adjusted (ca * cb) (ea + eb) <= Ua + Ub + 1).
  { unfold Dec.adjusted in *.
    destruct (N.eq_0_gt_0_cases ca) as [->|Hca].
    { rewrite N.mul_0_l. change (Dec.ndigits 0) with 1 in *. lia. }
    destruct (N.eq_0_gt_0_cases cb) as [->|Hcb].
    { rewrite N.mul_0_r. change (Dec.ndigits 0) with 1 in *. lia. }
    pose proof (ndigits_mul_le ca cb Hca Hcb). lia. }
  rewrite (fix_representable (xorb sa sb) (xorb sa sb))
    by (apply (ranged_representable (La + Lb) (Ua + Ub + 1)); lia).
  eexists. split; [reflexivity|]. split; [simpl; lia|]. apply to_Q_mul.
Qed.

(** A sum whose digits fit the context is computed without rounding. *)
Lemma add_exact (La Ua Lb Ub : Z) (a b : Decimal) :
  ranged La Ua a -> ranged Lb Ub b ->
  Dec.Etiny <= Z.min La Lb -> Z.max Ua Ub + 1 <= Dec.Emax ->
  Z.max Ua Ub + 1 - Z.min La Lb < 28 ->
  exists r, Dec.add a b = OK r /\ ranged (Z.min La Lb) (Z.max Ua Ub + 1) r /\
            (Qval r == Qval a + Qval b)%Q.
Proof.
  destruct a as [sa ca ea| |], b as [sb cb eb| |]; try (simpl; tauto).
  intros [Hla Hua] [Hlb Hub] HL HU Hd. cbn [Dec.add Qval].
  set (m := Z.min ea eb). set (M := Z.max Ua Ub) in *.
  pose proof (ndigits_pos ca). pose proof (ndigits_pos cb).
  assert (Hea : ea <= Ua) by (unfold Dec.adjusted in *; lia).
  assert (Heb : eb <= Ub) by (unfold Dec.adjusted in *; lia).
  pose proof (scaled_lt ca ea m M ltac:(lia) ltac:(lia)) as HA.
  pose proof (scaled_lt cb eb m M ltac:(lia) ltac:(lia)) as HB.
  assert (Hsum : (Dec.to_Q sa ca ea + Dec.to_Q sb cb eb ==
                  inject_Z (Dec.signed sa (ca * Dec.pow10 (ea - m)) +
                            Dec.signed sb (cb * Dec.pow10 (eb - m))) * 10 ^ m)%Q).
  { rewrite (to_Q_scale sa ca ea m), (to_Q_scale sb cb eb m) by lia.
    rewrite inject_Z_plus. ring. }
  set (A := (ca * Dec.pow10 (ea - m))%N) in *.
  set (B := (cb * Dec.pow10 (eb - m))%N) in *.
  set (z := Dec.signed sa A + Dec.signed sb B) in *.
  cbv zeta. fold m. fold A. fold B. fold z.
  destruct (Z.eqb_spec z 0) as [Hz|Hz].
  - rewrite (fix_representable (sa && sb) (sa && sb)).
    + eexists. split; [reflexivity|]. split.
      * simpl. unfold Dec.adjusted. change (Dec.ndigits 0) with 1. lia.
      * cbn [Qval]. rewrite Hsum, Hz, to_Q_zero. ring.
    + apply (ranged_representable (Z.min La Lb) (M + 1)); try lia.
      unfold Dec.adjusted. change (Dec.ndigits 0) with 1. lia.
  - assert (Hlt : (Z.abs_N z < Dec.pow10 (M + 2 - m))%N).
    { replace (M + 2 - m) with ((M + 1 - m) + 1) by lia.
      rewrite pow10_succ by lia.
      unfold z, Dec.signed. destruct sa, sb; lia. }
    assert (Hadj : Dec.adjusted (Z.abs_N z) m <= M + 1).
    { unfold Dec.adjusted.
      pose proof (ndigits_le_lt (Z.abs_N z) (M + 2 - m) ltac:(lia) Hlt ltac:(lia)). lia. }
    rewrite (fix_representable (z <? 0) (z <? 0))
      by (apply (ranged_representable (Z.min La Lb) (M + 1)); lia).
    eexists. split; [reflexivity|]. split; [simpl; lia|].
    cbn [Qval]. rewrite Hsum. unfold Dec.to_Q. rewrite signed_abs. reflexivity.
Qed.

Lemma Qval_negate (b : Decimal) : (Qval (Dec.copy_negate b) == - Qval b)%Q.
Proof.
  destruct b as [s c e| |]; simpl; try reflexivity.
  unfold Dec.to_Q, Dec.signed. destruct s; simpl.
  - rewrite inject_Z_opp. ring.
  - rewrite inject_Z_opp. ring.
Qed.

Lemma sub_exact (La Ua Lb Ub : Z) (a b : Decimal) :
  ranged La Ua a -> ranged Lb Ub b ->
  Dec.Etiny <= Z.min La Lb -> Z.max Ua Ub + 1 <= Dec.Emax ->
  Z.max Ua Ub + 1 - Z.min La Lb < 28 ->
  exists r, Dec.sub a b = OK r /\ ranged (Z.min La Lb) (Z.max Ua Ub + 1) r /\
            (Qval r == Qval a - Qval b)%Q.
Proof.
  intros Ha Hb HL HU Hd. unfold Dec.sub.
  assert (Hb' : ranged Lb Ub (Dec.copy_negate b)) by (destruct b; exact Hb).
  destruct (add_exact La Ua Lb Ub a _ Ha Hb' HL HU Hd) as (r & Hr & Hrr & Hq).
  exists r. split; [exact Hr|]. split; [exact Hrr|].
  rewrite Hq, Qval_negate. reflexivity.
Qed.

Lemma py_max_exact (L U : Z) (a b : Decimal) :
  ranged L U a -> ranged L U b ->
  exists r, py_max a b = OK r /\ ranged L U r /\
            (Qval r == Qmax (Qval a) (Qval b))%Q.
Proof.
  intros Ha Hb. destruct (py_max_ranged L U a b Ha Hb) as (r & Hr & Rr).
  exists r. split; [exact Hr|]. split; [exact Rr|].
  destruct (py_max_spec _ _ _ Hr) as (_ & _ & Hor & Hca & Hcb).
  pose proof (ranged_finite _ _ _ Ha) as Fa. pose proof (ranged_finite _ _ _ Hb) as Fb.
  pose proof (ranged_finite _ _ _ Rr) as Fr.
  rewrite !cmp_Qval in Hca, Hcb by assumption. apply Qge_alt in Hca, Hcb.
  apply Qle_antisym.
  - destruct Hor as [->| ->]; [apply Q.le_max_l|apply Q.le_max_r].
  - apply Q.max_lub; assumption.
Qed.

Lemma within_ranged (L U : Z) (d : Decimal) : within L U d = true -> ranged L U d.
Proof.
  destruct d as [s c e| |]; try discriminate. simpl.
  intros H. apply andb_true_iff in H as [H1 H2]. lia.
Qed.

Lemma ranged_ordinary (L U : Z) (d : Decimal) :
  -1000 <= L -> U <= 1000 -> ranged L U d -> ordinary d = true.
Proof.
  destruct d as [s c e| |]; simpl; try tauto. intros HL HU [H1 H2].
  apply andb_true_iff. split; apply Z.leb_le; lia.
Qed.

Lemma of_int_ranged (q : Z) : 0 <= q < 10000000 -> ranged 0 6 (Dec.of_int q).
Proof.
  intros Hq. unfold Dec.of_int. simpl. split; [lia|]. unfold Dec.adjusted.
  destruct (N.eq_0_gt_0_cases (Z.abs_N q)) as [->|Hpos];
    [change (Dec.ndigits 0) with 1; lia|].
  assert (Dec.ndigits (Z.abs_N q) <= 7); [|lia].
  apply ndigits_le_lt; [lia| |exact Hpos].
  change (Dec.pow10 7) with 10000000%N. lia.
Qed.

Lemma Qval_of_int (q : Z) : (Qval (Dec.of_int q) == inject_Z q)%Q.
Proof.
  unfold Dec.of_int. simpl. unfold Dec.to_Q. rewrite signed_abs.
  change (10 ^ 0)%Q with 1%Q. ring.
Qed.

Lemma plain_inputs_ranged (self : FundItem) (account : Account) (quantity : Z) :
  plain_inputs self account quantity = true ->
  ranged (-4) 4 (fund_nav self) /\ ranged (-4) 4 (price self) /\
  ranged (-6) 0 (parse_apply_fee self) /\ ranged (-6) 0 (commission_rate account) /\
  ranged (-4) 4 (min_commission account) /\ ranged (-4) 4 (transfer_fee account) /\
  ranged 0 6 (Dec.of_int quantity).
Proof.
  unfold plain_inputs. intros H.
  apply andb_true_iff in H as [H Hq2]. apply andb_true_iff in H as [H Hq1].
  apply andb_true_iff in H as [H Ht]. apply andb_true_iff in H as [H Hm].
  apply andb_true_iff in H as [H Hc]. apply andb_true_iff in H as [H Hr].
  apply andb_true_iff in H as [Hn Hp].
  apply within_ranged in Ht, Hm, Hc, Hr, Hn, Hp.
  repeat (split; [assumption|]). apply of_int_ranged. lia.
Qed.

Lemma plain_ordinary (self : FundItem) (account : Account) (quantity : Z) :
  plain_inputs self account quantity = true ->
  ordinary_inputs self account quantity = true.
Proof.
  intros H. destruct (plain_inputs_ranged _ _ _ H) as (Hn & Hp & Hr & Hc & Hm & Ht & Hq).
  unfold ordinary_inputs.
  assert (Ho : forall L U d, -1000 <= L -> U <= 1000 -> ranged L U d ->
                 ordinary d = true) by exact ranged_ordinary.
  rewrite (Ho (-4) 4 _ ltac:(lia) ltac:(lia) Hn), (Ho (-4) 4 _ ltac:(lia) ltac:(lia) Hp),
    (Ho (-6) 0 _ ltac:(lia) ltac:(lia) Hr), (Ho (-6) 0 _ ltac:(lia) ltac:(lia) Hc),
    (Ho (-4) 4 _ ltac:(lia) ltac:(lia) Hm), (Ho (-4) 4 _ ltac:(lia) ltac:(lia) Ht),
    (Ho 0 6 _ ltac:(lia) ltac:(lia) Hq).
  reflexivity.
Qed.

Lemma plain_locals_exact (self : FundItem) (account : Account) (quantity : Z) :
  plain_inputs self account quantity = true ->
  exists v,
    arbitrage_locals self (parse_apply_fee self) account quantity = OK v /\
    (calculate_arbitrage_profit self account (Some quantity)).2 = OK (net_profit v) /\
    (Qval (subscribe_amount v) == Qval (fund_nav self) * inject_Z quantity)%Q /\
    (Qval (subscribe_fee v) == Qval (subscribe_amount v) * Qval (parse_apply_fee self))%Q /\
    (Qval (actual_cost v) == Qval (subscribe_amount v) + Qval (subscribe_fee v))%Q /\
    (Qval (sell_amount v) == Qval (price self) * inject_Z quantity)%Q /\
    (Qval (sell_commission v) ==
     Qmax (Qval (sell_amount v) * Qval (commission_rate account))
          (Qval (min_commission account)))%Q /\
    (Qval (net_profit v) ==
     Qval (sell_amount v) - Qval (actual_cost v) - Qval (sell_commission v)
     - Qval (transfer_fee account))%Q.
Proof.
  intros Hplain.
  destruct (plain_inputs_ranged _ _ _ Hplain) as (Hn & Hp & Hr & Hc & Hm & Ht & Hq).
  assert (B1 : forall x, -10 <= x -> Dec.Etiny <= x)
    by (unfold Dec.Etiny, Dec.Emin, Dec.prec; lia).
  assert (B2 : forall x, x <= 20 -> x <= Dec.Emax) by (unfold Dec.Emax; lia).
  destruct (calculate_total self account (Some quantity) (plain_ordinary _ _ _ Hplain))
    as (v0 & pr & Hv0 & _ & _ & Hcalc & _).
  cbn [arg] in Hv0. rewrite Hcalc. cbn [snd]. revert Hv0.
  unfold arbitrage_locals.
  destruct (mul_exact _ _ _ _ _ _ Hn Hq) as (amount & -> & Ra & Qa);
    [apply B1; lia|apply B2; lia|lia|].
  cbn [rbind].
  destruct (mul_exact _ _ _ _ _ _ Ra Hr) as (fee & -> & Rf & Qf);
    [apply B1; lia|apply B2; lia|lia|].
  cbn [rbind].
  destruct (add_exact _ _ _ _ _ _ Ra Rf) as (cost & -> & Rc & Qc);
    [apply B1; lia|apply B2; lia|lia|].
  cbn [rbind].
  destruct (mul_exact _ _ _ _ _ _ Hp Hq) as (sell & -> & Rs & Qs);
    [apply B1; lia|apply B2; lia|lia|].
  cbn [rbind].
  destruct (mul_exact _ _ _ _ _ _ Rs Hc) as (product & -> & Rp & Qp);
    [apply B1; lia|apply B2; lia|lia|].
  cbn [rbind].
  apply (ranged_weaken _ _ (-10) 12) in Rp; [|lia..].
  pose proof (ranged_weaken (-4) 4 (-10) 12 _ ltac:(lia) ltac:(lia) Hm) as Hm'.
  destruct (py_max_exact _ _ _ _ Rp Hm') as (commission & -> & Rm & Qm).
  cbn [rbind].
  destruct (sub_exact _ _ _ _ _ _ Rs Rc) as (d1 & -> & R1 & Q1);
    [apply B1; lia|apply B2; lia|lia|].
  cbn [rbind].
  destruct (sub_exact _ _ _ _ _ _ R1 Rm) as (d2 & -> & R2 & Q2);
    [apply B1; lia|apply B2; lia|lia|].
  cbn [rbind].
  destruct (sub_exact _ _ _ _ _ _ R2 Ht) as (net & -> & R3 & Q3);
    [apply B1; lia|apply B2; lia|lia|].
  cbn [rbind]. intros [= <-].
  eexists. split; [reflexivity|].
  cbn [subscribe_amount subscribe_fee actual_cost sell_amount sell_commission net_profit].
  split; [reflexivity|].
  split; [rewrite Qa, Qval_of_int; reflexivity|].
  split; [exact Qf|]. split; [exact Qc|].
  split; [rewrite Qs, Qval_of_int; reflexivity|].
  split; [rewrite Qm, Qp; reflexivity|].
  rewrite Q3, Q2, Q1. reflexivity.
Qed.

(** X4. On plain inputs no step of the calculation rounds: every amount is
    the exact product, sum, maximum or difference of the amounts it is
    computed from, and the profit returned is
    saleAmount - actualCost - saleCommission - transferFee to the last
    digit. *)
Theorem profit_exact (self : FundItem) (account : Account) (quantity : Z) :
  plain_inputs self account quantity = true ->
  exists v,
    arbitrage_locals self (parse_apply_fee self) account quantity = OK v /\
    (calculate_arbitrage_profit self account (Some quantity)).2 = OK (net_profit v) /\
    (Qval (subscribe_amount v) == Qval (fund_nav self) * inject_Z quantity)%Q /\
    (Qval (subscribe_fee v) == Qval (subscribe_amount v) * Qval (parse_apply_fee self))%Q /\
    (Qval (actual_cost v) == Qval (subscribe_amount v) + Qval (subscribe_fee v))%Q /\
    (Qval (sell_amount v) == Qval (price self) * inject_Z quantity)%Q /\
    (Qval (sell_commission v) ==
     Qmax (Qval (sell_amount v) * Qval (commission_rate account))
          (Qval (min_commission account)))%Q /\
    (Qval (net_profit v) ==
     Qval (sell_amount v) - Qval (actual_cost v) - Qval (sell_commission v)
     - Qval (transfer_fee account))%Q.
Proof. apply plain_locals_exact. Qed.

Lemma profit_exact_witness :
  plain_inputs example_fund example_account 10000 = true /\
  exists v,
    arbitrage_locals example_fund (parse_apply_fee example_fund) example_account 10000
    = OK v /\
    (Qval (net_profit v) ==
     Qval (sell_amount v) - Qval (actual_cost v) - Qval (sell_commission v)
     - Qval (transfer_fee example_account))%Q.
Proof.
  assert (H : plain_inputs example_fund example_account 10000 = true)
    by (vm_compute; reflexivity).
  split; [exact H|].
  destruct (profit_exact example_fund example_account 10000 H)
    as (v & Hv & _ & _ & _ & _ & _ & _ & Hq).
  exists v. split; assumption.
Defined.
(** ** One account of [main], end to end *)

Lemma calculate_computed (self : FundItem) (account : Account) (quantity : option Z) :
  ordinary_inputs self account (arg default_quantity quantity) = true ->
  exists self' p,
    calculate_arbitrage_profit self account quantity = (self', OK p) /\
    computed self' = true.
Proof.
  intros Hord.
  destruct (calculate_total self account quantity Hord) as (v & pr & _ & Hp & Hpr & -> & _).
  eexists _, _. split; [reflexivity|]. unfold computed.
  cbn [profit profit_rate set_profit_rate set_estimated_sell_price set_profit orderable].
  destruct (net_profit v), pr; try discriminate; reflexivity.
Qed.

(** X12. For an account with ordinary figures and opportunities that are valid
    references to quotes with ordinary figures, one turn of the loop of
    [main] raises nothing: each copy holds the outcome of evaluating its
    original, and the list that goes to the reports is the copies ranked
    by profit, best first, ties in the order of the opportunities. *)
Theorem main_account_ranked (opportunities funds : list loc) (account : Account)
    (h h' : gmap loc FundItem) (r : result (list loc)) :
  (forall l, l ∈ opportunities ->
     l ∈ dom h /\ ordinary_inputs (obj h l) account QUANTITY = true) ->
  main_account opportunities account h = (h', funds, r) ->
  exists ranked,
    r = OK ranked /\
    stable_sort_of (obj h') profit true funds ranked /\
    Forall2 (fun o c =>
               exists p, calculate_arbitrage_profit (obj h o) account (Some QUANTITY)
                         = (obj h' c, OK p))
      opportunities funds.
Proof.
  intros Hin. unfold main_account, deepcopy, calculate_all_profits.
  pose proof (deepcopy_loop_untouched opportunities ∅ h) as Hu.
  pose proof (deepcopy_loop_spec (dom h) opportunities ∅ h) as Hs.
  destruct (deepcopy_loop opportunities ∅ h) as [h1 copies].
  destruct Hs as (memo' & _ & [Hval _] & _ & Hall);
    [reflexivity|intros l Hl; apply Hin, Hl| |].
  { split; intros *; rewrite lookup_empty; discriminate. }
  assert (Hcopy : Forall2 (fun o c => o ∈ opportunities /\ obj h1 c = obj h o)
                    opportunities copies).
  { apply Forall2_same_length_lookup. split; [exact (Forall2_length _ _ _ Hall)|].
    intros i o c Ho Hc. split; [eapply list_elem_of_lookup_2; exact Ho|].
    pose proof (Forall2_lookup_lr _ _ _ _ _ _ Hall Ho Hc) as Hm. cbv beta in Hm.
    destruct (Hval _ _ Hm) as (Hk & _ & _ & Hobj).
    rewrite Hobj. apply obj_lookup, Hu, Hk. }
  assert (Hord : forall c, c ∈ copies ->
            ordinary_inputs (obj h1 c) account QUANTITY = true).
  { intros c Hc. apply list_elem_of_lookup in Hc as (i & Hi).
    destruct (Forall2_lookup_r _ _ _ _ _ Hcopy Hi) as (o & _ & Ho & Hobj).
    unfold ordinary_inputs in *. rewrite Hobj. apply Hin, Ho. }
  pose proof (calculate_loop_spec copies account
                (Some (arg default_quantity (Some QUANTITY))) (obj h1) h1
                (fun l => or_introl eq_refl)) as Hc.
  destruct (calculate_loop copies account _ h1) as [h2 r1].
  intros [= <- <- <-].
  destruct r1 as [u|e]; cbn [rbind].
  - assert (Hcomp : Forall (fun c => computed (obj h2 c) = true) copies).
    { apply Forall_forall. intros c Hcin.
      destruct (Hc c Hcin) as (p & Hp).
      destruct (calculate_computed (obj h1 c) account (Some QUANTITY) (Hord c Hcin))
        as (self' & p' & Hp' & Hcmp).
      cbn [arg] in Hp. rewrite Hp' in Hp. injection Hp as <- _. exact Hcmp. }
    destruct (sorted_spec (obj h2) profit true copies) as (ranked & Hr & Hsort).
    { eapply Forall_impl; [exact Hcomp|]. intros c Hx.
      apply andb_true_iff in Hx. apply Hx. }
    exists ranked. split; [exact Hr|]. split; [exact Hsort|].
    eapply Forall2_impl; [|intros o c Hoc; exact Hoc].
    apply Forall2_same_length_lookup. split; [exact (Forall2_length _ _ _ Hcopy)|].
    intros i o c Ho Hci.
    destruct (Forall2_lookup_lr _ _ _ _ _ _ Hcopy Ho Hci) as [_ Hobj].
    destruct (Hc c (list_elem_of_lookup_2 _ _ _ Hci)) as (p & Hp).
    exists p. rewrite <- Hobj. exact Hp.
  - exfalso. destruct Hc as (c & Hcin & He).
    destruct (calculate_computed (obj h1 c) account (Some QUANTITY) (Hord c Hcin))
      as (self' & p' & Hp' & _).
    cbn [arg] in He. rewrite Hp' in He. discriminate.
Qed.

Lemma main_account_ranked_witness :
  let t := main_account [1; 2; 1]%positive example_account example_store in
  (forall l, l ∈ [1; 2; 1]%positive ->
     l ∈ dom example_store /\
     ordinary_inputs (obj example_store l) example_account QUANTITY = true) /\
  exists ranked,
    t.2 = OK ranked /\ stable_sort_of (obj t.1.1) profit true t.1.2 ranked.
Proof.
  intros t.
  assert (Hin : forall l, l ∈ [1; 2; 1]%positive ->
            l ∈ dom example_store /\
            ordinary_inputs (obj example_store l) example_account QUANTITY = true).
  { intros l Hl.
    repeat (apply elem_of_cons in Hl as [->|Hl];
            [split; [apply elem_of_dom; vm_compute; eauto|vm_compute; reflexivity]|]).
    inversion Hl. }
  split; [exact Hin|].
  assert (Ht : main_account [1; 2; 1]%positive example_account example_store
               = (t.1.1, t.1.2, t.2)).
  { subst t. destruct (main_account [1; 2; 1]%positive example_account example_store)
      as [[? ?] ?]; reflexivity. }
  destruct (main_account_ranked _ _ _ _ _ _ Hin Ht) as (ranked & Hr & Hs & _).
  exists ranked. split; assumption.
Defined.
(** ** Digits *)

Lemma int_of_digits_app (a b : list N) :
  Dec.int_of_digits (a ++ b) =
  fold_left (fun acc d => (acc * 10 + (d - 48))%N) b (Dec.int_of_digits a).
Proof. unfold Dec.int_of_digits. apply fold_left_app. Qed.

Lemma int_of_digits_snoc (a : list N) (d : N) :
  Dec.int_of_digits (a ++ [d]) = (Dec.int_of_digits a * 10 + (d - 48))%N.
Proof. rewrite int_of_digits_app. reflexivity. Qed.

Lemma ndigits_small (c : N) : (c < 10)%N -> Dec.ndigits c = 1.
Proof.
  intros Hc. destruct (N.eq_0_gt_0_cases c) as [->|Hpos]; [reflexivity|].
  apply ndigits_unique; [lia|].
  change (Dec.pow10 (1 - 1)) with 1%N. change (Dec.pow10 1) with 10%N. lia.
Qed.

Lemma ndigits_div10 (c : N) : (10 <= c)%N -> Dec.ndigits c = Dec.ndigits (c / 10) + 1.
Proof.
  intros Hc.
  assert (Hq : (0 < c / 10)%N) by (apply N.div_str_pos; lia).
  destruct (ndigits_spec (c / 10) Hq) as (H1 & Hlo & Hhi).
  apply ndigits_unique; [lia|].
  replace (Dec.ndigits (c / 10) + 1 - 1) with ((Dec.ndigits (c / 10) - 1) + 1) by lia.
  rewrite !pow10_succ by lia.
  pose proof (N.Div0.mul_div_le c 10). pose proof (N.mul_succ_div_gt c 10 ltac:(discriminate)).
  revert Hlo Hhi. generalize (Dec.pow10 (Dec.ndigits (c / 10) - 1)).
  generalize (Dec.pow10 (Dec.ndigits (c / 10))). intros p q Hlo Hhi. lia.
Qed.

(** The digits of [c] in front of [acc]: decimal digits that spell [c],
    as many as [c] has. *)
Lemma digits_aux_spec (fuel : nat) (c : N) (acc : str) :
  (0 < fuel)%nat -> (c < 2 ^ N.of_nat fuel)%N ->
  exists ds,
    digits_aux fuel c acc = ds ++ acc /\ forallb Dec.is_digit ds = true /\
    Dec.int_of_digits ds = c /\ Z.of_nat (length ds) = Dec.ndigits c.
Proof.
  revert c acc. induction fuel as [|fuel IH]; intros c acc Hf Hc; [lia|].
  cbn [digits_aux]. destruct (N.ltb_spec c 10) as [Hlt|Hge].
  - exists [(48 + c)%N]. split; [reflexivity|]. split.
    + unfold Dec.is_digit. cbn [forallb andb]. rewrite andb_true_r.
      apply andb_true_iff. split; apply N.leb_le; lia.
    + split; [unfold Dec.int_of_digits; cbn [fold_left]; lia|].
      rewrite ndigits_small by exact Hlt. reflexivity.
  - assert (Hq : (0 < c / 10)%N) by (apply N.div_str_pos; lia).
    assert (Hb : (c / 10 < 2 ^ N.of_nat fuel)%N).
    { apply N.Div0.div_lt_upper_bound.
      rewrite Nat2N.inj_succ, N.pow_succ_r' in Hc.
      pose proof (N.pow_nonzero 2 (N.of_nat fuel) ltac:(discriminate)). lia. }
    assert (Hf' : (0 < fuel)%nat).
    { destruct fuel; [|lia]. simpl in Hb. lia. }
    destruct (IH (c / 10)%N ((48 + c mod 10)%N :: acc) Hf' Hb)
      as (ds & -> & Hd & Hi & Hl).
    exists (ds ++ [(48 + c mod 10)%N]). rewrite <- app_assoc. split; [reflexivity|].
    pose proof (N.mod_upper_bound c 10 ltac:(discriminate)) as Hm.
    pose proof (N.div_mod c 10 ltac:(discriminate)) as Hdm.
    set (m := (c mod 10)%N) in *. clearbody m.
    split; [|split].
    + rewrite forallb_app, Hd. unfold Dec.is_digit. cbn [forallb andb].
      rewrite andb_true_r.
      apply andb_true_iff. split; apply N.leb_le; lia.
    + rewrite int_of_digits_snoc, Hi. lia.
    + rewrite length_app, Nat2Z.inj_add, Hl, (ndigits_div10 c Hge). reflexivity.
Qed.

Lemma digits_spec (c : N) :
  forallb Dec.is_digit (digits c) = true /\ Dec.int_of_digits (digits c) = c /\
  Z.of_nat (length (digits c)) = Dec.ndigits c.
Proof.
  unfold digits.
  destruct (digits_aux_spec (S (N.to_nat (N.log2 c))) c []) as (ds & -> & H); [lia| |].
  - rewrite Nat2N.inj_succ, N2Nat.id.
    destruct (N.eq_0_gt_0_cases c) as [->|Hpos]; [reflexivity|].
    apply N.log2_spec. exact Hpos.
  - rewrite app_nil_r. exact H.
Qed.

Lemma digits_cons (c : N) : exists d r, digits c = d :: r /\ Dec.is_digit d = true.
Proof.
  destruct (digits_spec c) as (Hd & _ & Hl). pose proof (ndigits_pos c).
  destruct (digits c) as [|d r]; [simpl in Hl; lia|].
  exists d, r. split; [reflexivity|]. simpl in Hd. apply andb_true_iff in Hd. apply Hd.
Qed.

(** ** Reading plain text as a decimal *)

(** A character that [Decimal(str)] reads as itself: ASCII, and neither
    an underscore nor whitespace. *)
Lemma as_ascii_plain (s : str) :
  forallb (fun c => (0 <? c)%N && (c <=? 127)%N && negb (c =? 95)%N) s = true ->
  Dec.as_ascii s = Some s.
Proof.
  induction s as [|c s IH]; simpl; [reflexivity|]. intros H.
  apply andb_true_iff in H as [Hc Hs]. apply andb_true_iff in Hc as [Hc H95].
  apply negb_true_iff in H95. rewrite H95, Hc, (IH Hs). reflexivity.
Qed.

Lemma strip_trimmed (s : str) : trimmed s -> PyStr.strip s = s.
Proof.
  intros H. rewrite <- (app_nil_r s) at 1.
  apply (strip_around [] s []); [reflexivity|reflexivity|exact H].
Qed.

Lemma span_digits_all (ds rest : list N) :
  forallb Dec.is_digit ds = true ->
  match rest with [] => True | c :: _ => Dec.is_digit c = false end ->
  Dec.span_digits (ds ++ rest) = (ds, rest).
Proof.
  intros Hd Hr. induction ds as [|d ds IH]; simpl.
  - destruct rest as [|c rest]; [reflexivity|]. simpl. rewrite Hr. reflexivity.
  - simpl in Hd. apply andb_true_iff in Hd as [H1 H2]. rewrite H1, (IH H2).
    reflexivity.
Qed.

Lemma is_digit_plain (c : N) :
  Dec.is_digit c = true ->
  (0 <? c)%N && (c <=? 127)%N && negb (c =? 95)%N = true /\
  PyStr.isspace c = false /\ Dec.lower c = c.
Proof.
  unfold Dec.is_digit. intros H. apply andb_true_iff in H as [H1 H2].
  apply N.leb_le in H1, H2. split; [|split].
  - apply andb_true_iff. split; [apply andb_true_iff; split|].
    + apply N.ltb_lt. lia.
    + apply N.leb_le. lia.
    + apply negb_true_iff, N.eqb_neq. lia.
  - unfold PyStr.isspace.
    repeat match goal with
    | |- context [(?a <=? ?b)%N] => destruct (N.leb_spec a b); try lia
    | |- context [(?a =? ?b)%N] => destruct (N.eqb_spec a b); try lia
    end; reflexivity.
  - unfold Dec.lower. destruct (N.leb_spec 65 c); [lia|reflexivity].
Qed.

Lemma parse_special_digit (d : N) (r : list N) :
  Dec.is_digit d = true -> Dec.parse_special (d :: r) = None.
Proof.
  intros Hd. destruct (is_digit_plain d Hd) as (_ & _ & Hl).
  unfold Dec.is_digit in Hd. apply andb_true_iff in Hd as [H1 H2].
  apply N.leb_le in H1, H2.
  unfold Dec.parse_special. cbn [map]. rewrite Hl.
  rewrite !bool_decide_eq_false_2.
  - cbn [orb]. change (PyStr.lit "nan") with [110; 97; 110]%N.
    change (PyStr.lit "snan") with [115; 110; 97; 110]%N. cbn [PyStr.startswith].
    destruct (N.eqb_spec 110 d); [lia|]. destruct (N.eqb_spec 115 d); [lia|].
    reflexivity.
  - change (PyStr.lit "infinity") with [105; 110; 102; 105; 110; 105; 116; 121]%N.
    intros [= E _]. lia.
  - change (PyStr.lit "inf") with [105; 110; 102]%N. intros [= E _]. lia.
Qed.

Lemma parse_sign_other (d : N) (r : list N) :
  d <> 43%N -> d <> 45%N -> Dec.parse_sign (d :: r) = (false, d :: r).
Proof.
  intros H43 H45. unfold Dec.parse_sign. destruct d as [|p]; [reflexivity|].
  do 6 (try (destruct p as [p|p|]; try reflexivity)); congruence.
Qed.



(** ** safe_decimal *)

Lemma replace_idem (x : N) (s : str) :
  PyStr.replace x [] (PyStr.replace x [] s) = PyStr.replace x [] s.
Proof.
  unfold PyStr.replace. induction s as [|c s IH]; simpl; [reflexivity|].
  destruct (N.eqb_spec c x) as [E|E]; simpl; [exact IH|].
  destruct (N.eqb_spec c x); [contradiction|]. simpl. f_equal. exact IH.
Qed.

Lemma replace_comm (x y : N) (s : str) :
  PyStr.replace x [] (PyStr.replace y [] s) = PyStr.replace y [] (PyStr.replace x [] s).
Proof.
  unfold PyStr.replace. induction s as [|c s IH]; simpl; [reflexivity|].
  destruct (N.eqb_spec c y) as [Ey|Ey], (N.eqb_spec c x) as [Ex|Ex]; simpl;
    try (destruct (N.eqb_spec c y); try contradiction);
    try (destruct (N.eqb_spec c x); try contradiction);
    simpl; try rewrite IH; reflexivity.
Qed.

Lemma replace_app (x : N) (a b : str) :
  PyStr.replace x [] (a ++ b) = PyStr.replace x [] a ++ PyStr.replace x [] b.
Proof. apply flat_map_app. Qed.

Lemma replace_space (x : N) (a : str) :
  all_space a = true -> all_space (PyStr.replace x [] a) = true.
Proof.
  unfold all_space, PyStr.replace. induction a as [|c a IH]; simpl; [reflexivity|].
  intros H. apply andb_true_iff in H as [Hc Ha].
  destruct (c =? x)%N; simpl; [apply IH, Ha|]. rewrite Hc. apply IH, Ha.
Qed.

Lemma cleaned_str (s : str) :
  cleaned (VStr s) = PyStr.strip (PyStr.replace 44 [] (PyStr.replace 37 [] s)).
Proof. reflexivity. Qed.

Lemma safe_decimal_try (v : value) (default : option Decimal) :
  safe_decimal v default
  = try_except (Dec.of_str (cleaned v)) (arg Decimal_0 default).
Proof.
  assert (Hnil : Dec.of_str [] = Raise InvalidOperation) by reflexivity.
  assert (Hbody : forall w,
            try_except (match cleaned w with
                        | [] => OK (arg Decimal_0 default)
                        | text => Dec.of_str text
                        end) (arg Decimal_0 default)
            = try_except (Dec.of_str (cleaned w)) (arg Decimal_0 default)).
  { intros w. destruct (cleaned w); [rewrite Hnil|]; reflexivity. }
  unfold safe_decimal, safe_decimal_body.
  destruct v as [|s|z|b]; cbn [value_eq_str orb].
  - assert (H : Dec.of_str (cleaned VNone) = Raise InvalidOperation)
      by (vm_compute; reflexivity).
    rewrite H. reflexivity.
  - unfold PyStr.eqb.
    destruct (decide (s = PyStr.lit "-")) as [->|H1].
    { rewrite bool_decide_eq_true_2 by reflexivity. cbn [orb].
      assert (H : Dec.of_str (cleaned (VStr (PyStr.lit "-"))) = Raise InvalidOperation)
        by (vm_compute; reflexivity).
      rewrite H. reflexivity. }
    rewrite (bool_decide_eq_false_2 _ H1).
    destruct (decide (s = PyStr.lit "")) as [->|H2].
    { rewrite bool_decide_eq_true_2 by reflexivity. cbn [orb].
      assert (H : Dec.of_str (cleaned (VStr (PyStr.lit ""))) = Raise InvalidOperation)
        by (vm_compute; reflexivity).
      rewrite H. reflexivity. }
    rewrite (bool_decide_eq_false_2 _ H2). cbn [orb]. apply Hbody.
  - apply Hbody.
  - apply Hbody.
Qed.

(** X13. The guards of [safe_decimal] for [None], "-" and the empty string
    change nothing: for every value, the result is the decimal that the
    cleaned text (percent signs and commas removed, then stripped) spells
    when it spells one, and the default otherwise; nothing is raised. *)
Theorem safe_decimal_spec (v : value) (default : option Decimal) :
  safe_decimal v default
  = match Dec.of_str (cleaned v) with
    | OK d => d
    | Raise _ => arg Decimal_0 default
    end.
Proof. rewrite safe_decimal_try. reflexivity. Qed.

(** X14. [safe_decimal] ignores percent signs and commas wherever they stand,
    and whitespace around the text. *)
Theorem safe_decimal_insensitive (s : str) (default : option Decimal) :
  safe_decimal (VStr (PyStr.replace 37 [] s)) default = safe_decimal (VStr s) default /\
  safe_decimal (VStr (PyStr.replace 44 [] s)) default = safe_decimal (VStr s) default /\
  (forall a b, all_space a = true -> all_space b = true ->
     safe_decimal (VStr (a ++ s ++ b)) default = safe_decimal (VStr s) default).
Proof.
  rewrite !safe_decimal_try, !cleaned_str. split; [|split].
  - rewrite replace_idem. reflexivity.
  - rewrite (replace_comm 37 44 s), replace_idem. reflexivity.
  - intros a b Ha Hb. rewrite safe_decimal_try, cleaned_str.
    rewrite !replace_app, strip_padding; [reflexivity| |];
      apply replace_space, replace_space; assumption.
Qed.

Lemma safe_decimal_insensitive_witness :
  all_space (PyStr.lit " ") = true /\
  safe_decimal (VStr (PyStr.lit " " ++ PyStr.lit "1,234.5%" ++ PyStr.lit " ")) None
  = safe_decimal (VStr (PyStr.lit "1,234.5%")) None.
Proof.
  split; [reflexivity|].
  apply (proj2 (proj2 (safe_decimal_insensitive (PyStr.lit "1,234.5%") None)));
    reflexivity.
Defined.

(** X15. A percentage cell is read as the number in front of the percent sign,
    not as a fraction: [safe_decimal] turns "X%" into X, where
    [parse_apply_fee] turns the same text into X/100. *)
Theorem percent_cell_unscaled (self : FundItem) (s : str) (x : Decimal)
    (default : option Decimal) :
  Dec.of_str s = OK x ->
  PyStr.contains [37%N] s = false -> PyStr.contains [44%N] s = false ->
  apply_fee self = s ++ [37%N] ->
  safe_decimal (VStr (apply_fee self)) default = x /\
  parse_apply_fee self = try_except (Dec.div x Decimal_100) Decimal_0_0012.
Proof.
  intros Hx H37 H44 Hf. split.
  - rewrite safe_decimal_try, cleaned_str, Hf, replace_app.
    rewrite (replace_absent _ _ H37). cbn [PyStr.replace flat_map N.eqb Pos.eqb app].
    rewrite app_nil_r, (replace_absent _ _ H44), of_str_strip, Hx. reflexivity.
  - unfold parse_apply_fee. rewrite (parse_percent self s x H37 Hx Hf). reflexivity.
Qed.

Lemma percent_cell_unscaled_witness :
  let fund := fund_with [] Decimal_0 (PyStr.lit "0.12%") in
  safe_decimal (VStr (apply_fee fund)) None = Dec.Fin false 12 (-2) /\
  parse_apply_fee fund = try_except (Dec.div (Dec.Fin false 12 (-2)) Decimal_100)
                           Decimal_0_0012.
Proof.
  intros fund.
  apply (percent_cell_unscaled fund (PyStr.lit "0.12") (Dec.Fin false 12 (-2)) None);
    vm_compute; reflexivity.
Defined.

(** ** Numerals *)

Lemma forallb_plain_digit (ds : list N) :
  forallb Dec.is_digit ds = true ->
  forallb (fun c => (0 <? c)%N && (c <=? 127)%N && negb (c =? 95)%N) ds = true /\
  forallb (fun c => negb (PyStr.isspace c)) ds = true.
Proof.
  intros H. rewrite forallb_forall in H. split; apply forallb_forall; intros x Hx;
    destruct (is_digit_plain x (H x Hx)) as (H1 & H2 & _); [exact H1|].
  rewrite H2. reflexivity.
Qed.

Lemma nospace_trimmed (s : str) :
  forallb (fun c => negb (PyStr.isspace c)) s = true -> trimmed s.
Proof.
  intros H. rewrite forallb_forall in H. split.
  - destruct s as [|c r]; [exact I|]. simpl. apply negb_true_iff, H. left. reflexivity.
  - destruct (rev s) as [|c r] eqn:E; [exact I|]. simpl. apply negb_true_iff, H.
    apply in_rev. rewrite E. left. reflexivity.
Qed.

Lemma digits_digit (c : N) : forallb Dec.is_digit (digits c) = true.
Proof. apply digits_spec. Qed.

Lemma exponent_text (x : Z) :
  Dec.parse_exponent ((if x <? 0 then 45%N else 43%N) :: digits (Z.abs_N x)) = Some x.
Proof.
  unfold Dec.parse_exponent.
  assert (Hs : Dec.parse_sign ((if x <? 0 then 45%N else 43%N) :: digits (Z.abs_N x))
               = (x <? 0, digits (Z.abs_N x))) by (destruct (x <? 0); reflexivity).
  rewrite Hs. rewrite <- (app_nil_r (digits (Z.abs_N x))) at 1.
  rewrite (span_digits_all _ [] (digits_digit _) I).
  destruct (digits_cons (Z.abs_N x)) as (d & r & Hc & _).
  destruct (digits_spec (Z.abs_N x)) as (_ & Hi & _).
  rewrite Hc at 1. rewrite Hi, signed_abs. reflexivity.
Qed.

(** [Decimal(str)] reads a numeral as the decimal it spells. *)
Lemma of_str_numeral (s : bool) (ip : str) (frac : option str) (ex : option Z) :
  ip <> [] -> forallb Dec.is_digit ip = true ->
  forallb Dec.is_digit (default [] frac) = true ->
  Dec.of_str (numeral s ip frac ex) = OK (numeral_value s ip frac ex).
Proof.
  intros Hne Hip Hfp.
  set (fracpart := match frac with Some fp => 46%N :: fp | None => [] end).
  set (exppart := match ex with
                  | Some x => 69%N :: (if x <? 0 then 45%N else 43%N) :: digits (Z.abs_N x)
                  | None => []
                  end).
  set (rest := ip ++ fracpart ++ exppart).
  assert (Htext : numeral s ip frac ex = (if s then [45%N] else []) ++ rest) by reflexivity.
  destruct (forallb_plain_digit ip Hip) as [Pip Sip].
  destruct (forallb_plain_digit _ Hfp) as [Pfp Sfp].
  assert (Pex : forallb (fun c => (0 <? c)%N && (c <=? 127)%N && negb (c =? 95)%N)
                  exppart = true /\
                forallb (fun c => negb (PyStr.isspace c)) exppart = true).
  { unfold exppart. destruct ex as [x|]; [|split; reflexivity].
    destruct (forallb_plain_digit _ (digits_digit (Z.abs_N x))) as [P S].
    cbn [forallb]. rewrite P, S. destruct (x <? 0); split; reflexivity. }
  destruct Pex as [Pex Sex].
  assert (Pfr : forallb (fun c => (0 <? c)%N && (c <=? 127)%N && negb (c =? 95)%N)
                  fracpart = true /\
                forallb (fun c => negb (PyStr.isspace c)) fracpart = true).
  { unfold fracpart. destruct frac as [fp|]; [|split; reflexivity].
    change (default [] (Some fp)) with fp in *.
    cbn [forallb]. rewrite Pfp, Sfp. split; reflexivity. }
  destruct Pfr as [Pfr Sfr].
  assert (Pall : forallb (fun c => (0 <? c)%N && (c <=? 127)%N && negb (c =? 95)%N)
                   (numeral s ip frac ex) = true).
  { rewrite Htext. unfold rest. rewrite !forallb_app, Pip, Pfr, Pex.
    destruct s; reflexivity. }
  assert (Sall : forallb (fun c => negb (PyStr.isspace c)) (numeral s ip frac ex) = true).
  { rewrite Htext. unfold rest. rewrite !forallb_app, Sip, Sfr, Sex.
    destruct s; reflexivity. }
  unfold Dec.of_str.
  rewrite (strip_trimmed _ (nospace_trimmed _ Sall)), (as_ascii_plain _ Pall), Htext.
  destruct ip as [|d ip']; [contradiction|].
  assert (Hd : Dec.is_digit d = true) by (simpl in Hip; apply andb_true_iff in Hip; apply Hip).
  assert (Hsign : Dec.parse_sign ((if s then [45%N] else []) ++ rest) = (s, rest)).
  { destruct s; [reflexivity|]. unfold rest. cbn [app]. apply parse_sign_other.
    - intros ->. discriminate Hd.
    - intros ->. discriminate Hd. }
  rewrite Hsign. cbv beta iota.
  unfold rest at 1. rewrite <- app_comm_cons, (parse_special_digit _ _ Hd).
  unfold numeral_value, Dec.parse_number, rest.
  assert (Hnext : match fracpart ++ exppart with
                  | [] => True
                  | c :: _ => Dec.is_digit c = false
                  end).
  { unfold fracpart, exppart. destruct frac as [fp|]; [reflexivity|].
    destruct ex as [x|]; [reflexivity|exact I]. }
  rewrite (span_digits_all _ _ Hip Hnext).
  assert (Hfrac : (match fracpart ++ exppart with
                   | 46%N :: r => Dec.span_digits r
                   | _ => ([], fracpart ++ exppart)
                   end) = (default [] frac, exppart)).
  { unfold fracpart. destruct frac as [fp|].
    - change (default [] (Some fp)) with fp in *. cbn [app].
      apply span_digits_all; [exact Hfp|].
      unfold exppart. destruct ex as [x|]; [reflexivity|exact I].
    - unfold exppart. destruct ex as [x|]; [reflexivity|reflexivity]. }
  rewrite Hfrac. cbn [app]. unfold exppart.
  destruct ex as [x|]; cbn [default].
  - change (Dec.lower 69 =? 101)%N with true. cbv iota.
    rewrite exponent_text. reflexivity.
  - apply f_equal, f_equal. symmetry. apply Z.sub_0_l.
Qed.

Lemma zeros_digit (k : Z) : forallb Dec.is_digit (zeros k) = true.
Proof. unfold zeros. induction (Z.to_nat k); simpl; [reflexivity|assumption]. Qed.

Lemma zeros_length (k : Z) : 0 <= k -> Z.of_nat (length (zeros k)) = k.
Proof. intros Hk. unfold zeros. rewrite repeat_length. lia. Qed.

Lemma int_of_digits_zero (l : list N) :
  Dec.int_of_digits (48%N :: l) = Dec.int_of_digits l.
Proof. reflexivity. Qed.

Lemma int_of_digits_zeros (k : Z) (l : list N) :
  Dec.int_of_digits (zeros k ++ l) = Dec.int_of_digits l.
Proof.
  unfold zeros. induction (Z.to_nat k) as [|n IH]; simpl; [reflexivity|].
  rewrite int_of_digits_zero. exact IH.
Qed.

(** The text of a finite decimal is a numeral that spells it. *)
Lemma Decimal_str_numeral (s : bool) (c : N) (e : Z) :
  exists ip frac ex,
    Decimal_str (Dec.Fin s c e) = Some (numeral s ip frac ex) /\
    ip <> [] /\ forallb Dec.is_digit ip = true /\
    forallb Dec.is_digit (default [] frac) = true /\
    numeral_value s ip frac ex = Dec.Fin s c e /\
    ((e <=? 0) && (-6 <? e + Dec.ndigits c) = true ->
     ex = None /\ Z.of_nat (length (default [] frac)) = - e /\
     (frac = None <-> e = 0)).
Proof.
  destruct (digits_spec c) as (Hd & Hi & Hl).
  destruct (digits_cons c) as (d0 & r0 & Hc & _).
  pose proof (ndigits_pos c) as Hn.
  unfold Decimal_str. set (len := Dec.ndigits c) in *.
  set (leftdigits := e + len).
  set (plain := (e <=? 0) && (-6 <? leftdigits)).
  set (dotplace := if plain then leftdigits else 1).
  set (ex := if leftdigits =? dotplace then None else Some (leftdigits - dotplace)).
  assert (Hex : (if leftdigits =? dotplace then []
                 else 69%N :: (if leftdigits - dotplace <? 0 then 45%N else 43%N)
                        :: digits (Z.abs_N (leftdigits - dotplace)))
                = match ex with
                  | Some x => 69%N :: (if x <? 0 then 45%N else 43%N) :: digits (Z.abs_N x)
                  | None => []
                  end).
  { unfold ex. destruct (leftdigits =? dotplace); reflexivity. }
  cbv zeta. fold len. fold leftdigits. fold plain. fold dotplace. rewrite Hex.
  assert (Hexv : default 0 ex = leftdigits - dotplace).
  { unfold ex. destruct (Z.eqb_spec leftdigits dotplace); simpl; lia. }
  assert (Hplain : plain = true -> ex = None /\ e <= 0).
  { unfold ex, dotplace. intros Hp. rewrite Hp, Z.eqb_refl.
    unfold plain in Hp. apply andb_true_iff in Hp as [Hp _]. apply Z.leb_le in Hp.
    split; [reflexivity|exact Hp]. }
  destruct (Z.leb_spec dotplace 0) as [Hdp|Hdp].
  - (* 0.000ddd *)
    assert (Hp : plain = true).
    { unfold dotplace in Hdp. destruct plain; [reflexivity|lia]. }
    assert (Hdot : dotplace = leftdigits) by (unfold dotplace; rewrite Hp; reflexivity).
    exists [48%N], (Some (zeros (- dotplace) ++ digits c)), ex.
    split; [reflexivity|]. split; [discriminate|]. split; [reflexivity|].
    cbn [from_option id]. split; [rewrite forallb_app, zeros_digit, Hd; reflexivity|].
    assert (Hlen : Z.of_nat (length (zeros (- dotplace) ++ digits c)) = - e).
    { rewrite length_app, Nat2Z.inj_add, zeros_length, Hl by lia.
      unfold leftdigits in Hdot. lia. }
    split.
    + unfold numeral_value. cbn [from_option id app].
      rewrite Hexv, int_of_digits_zero, int_of_digits_zeros, Hi, Hlen. f_equal.
      unfold leftdigits in *. lia.
    + intros _. destruct (Hplain Hp) as [-> He]. split; [reflexivity|].
      split; [exact Hlen|]. split; [discriminate|].
      intros ->. unfold leftdigits in Hdot. lia.
  - destruct (Z.leb_spec len dotplace) as [Hld|Hld].
    + (* ddd, no fraction *)
      assert (Heq : dotplace = len).
      { unfold dotplace, plain in *.
        destruct (Z.leb_spec e 0), (Z.ltb_spec (-6) leftdigits); cbn [andb] in *;
          unfold leftdigits in *; lia. }
      exists (digits c), None, ex.
      rewrite Heq, Z.sub_diag. change (zeros 0) with (@nil N). rewrite app_nil_r.
      split; [reflexivity|]. split; [rewrite Hc; discriminate|].
      split; [exact Hd|]. split; [reflexivity|]. split.
      * unfold numeral_value. cbn [from_option id length]. rewrite app_nil_r, Hi, Hexv.
        f_equal. unfold leftdigits. lia.
      * intros Hp. destruct (Hplain Hp) as [-> He]. split; [reflexivity|].
        assert (e = 0).
        { unfold dotplace in Heq. rewrite Hp in Heq. unfold leftdigits in Heq. lia. }
        subst e. split; [reflexivity|]. split; reflexivity.
    + (* d.ddd *)
      exists (take (Z.to_nat dotplace) (digits c)),
        (Some (drop (Z.to_nat dotplace) (digits c))), ex.
      split; [reflexivity|].
      assert (Htd : take (Z.to_nat dotplace) (digits c)
                      ++ drop (Z.to_nat dotplace) (digits c) = digits c)
        by apply take_drop.
      assert (Hdl : Z.of_nat (length (drop (Z.to_nat dotplace) (digits c)))
                    = len - dotplace).
      { rewrite length_drop. lia. }
      split.
      { intros E. apply (f_equal (@length N)) in E. rewrite length_take in E.
        simpl in E. lia. }
      rewrite forallb_forall in Hd.
      split.
      { apply forallb_forall. intros x Hx. apply Hd.
        rewrite <- Htd. apply in_or_app. left. exact Hx. }
      cbn [from_option id]. split.
      { apply forallb_forall. intros x Hx. apply Hd.
        rewrite <- Htd. apply in_or_app. right. exact Hx. }
      split.
      * unfold numeral_value. cbn [from_option id]. rewrite Htd, Hi, Hexv, Hdl. f_equal.
        unfold leftdigits. lia.
      * intros Hp. destruct (Hplain Hp) as [-> He]. split; [reflexivity|].
        assert (Hdot : dotplace = leftdigits) by (unfold dotplace; rewrite Hp; reflexivity).
        split; [rewrite Hdl; unfold leftdigits in Hdot; lia|].
        split; [discriminate|]. intros ->. unfold leftdigits in Hdot. lia.
Qed.

Lemma of_str_Decimal_str_aux (d : Decimal) (text : str) :
  Decimal_str d = Some text -> Dec.of_str text = OK d.
Proof.
  destruct d as [s c e|s|g]; [| |discriminate].
  - destruct (Decimal_str_numeral s c e) as (ip & frac & ex & -> & Hne & Hip & Hfp & Hv & _).
    intros [= <-]. rewrite of_str_numeral by assumption. rewrite Hv. reflexivity.
  - intros [= <-]. destruct s; vm_compute; reflexivity.
Qed.

(** X17. The constructor reads the text of a decimal back as the same decimal:
    [Decimal(str(d)) = d] with the same sign, digits and exponent, for
    every finite or infinite [d]. *)
Theorem of_str_Decimal_str (d : Decimal) (text : str) :
  Decimal_str d = Some text -> Dec.of_str text = OK d.
Proof. apply of_str_Decimal_str_aux. Qed.

Lemma of_str_Decimal_str_witness :
  Decimal_str (Dec.Fin true 12345 (-2)) = Some (PyStr.lit "-123.45") /\
  Dec.of_str (PyStr.lit "-123.45") = OK (Dec.Fin true 12345 (-2)).
Proof.
  assert (H : Decimal_str (Dec.Fin true 12345 (-2)) = Some (PyStr.lit "-123.45"))
    by (vm_compute; reflexivity).
  split; [exact H|]. exact (of_str_Decimal_str _ _ H).
Defined.
(** ** Quantizing *)

Lemma quantize_str_value (places : Z) :
  Dec.of_str (PyStr.lit "0." ++ zeros places)
  = OK (Dec.Fin false 0 (- Z.of_nat (Z.to_nat places))).
Proof.
  assert (H : PyStr.lit "0." ++ zeros places
              = numeral false [48%N] (Some (zeros places)) None).
  { unfold numeral. rewrite app_nil_r. reflexivity. }
  rewrite H, of_str_numeral; [|discriminate|reflexivity|apply zeros_digit].
  unfold numeral_value. cbn [from_option id].
  change ([48%N] ++ zeros places) with (48%N :: zeros places).
  rewrite int_of_digits_zero, <- (app_nil_r (zeros places)), int_of_digits_zeros.
  rewrite app_nil_r. unfold zeros. rewrite repeat_length. reflexivity.
Qed.

(** The coefficient that [rescale_half_up] leaves at a larger exponent:
    the quotient, plus one when the remainder is at least half. *)
Lemma rescale_down (s : bool) (c : N) (e x : Z) :
  e < x ->
  exists c',
    rescale_half_up s c e x = Dec.Fin s c' x /\
    (2 * c < 2 * c' * Dec.pow10 (x - e) + Dec.pow10 (x - e))%N /\
    (2 * c' * Dec.pow10 (x - e) <= 2 * c + Dec.pow10 (x - e))%N /\
    (Dec.ndigits c + e - x < 0 -> c' = 0%N).
Proof.
  intros Hex. unfold rescale_half_up.
  destruct (Z.leb_spec x e) as [?|_]; [lia|]. cbv zeta.
  pose proof (ndigits_pos c) as Hn.
  destruct (Z.ltb_spec (Dec.ndigits c + e - x) 0) as [Hneg|Hpos].
  - replace (x - (x - 1)) with 1 by lia.
    change (1 / Dec.pow10 1)%N with 0%N. change (1 mod Dec.pow10 1)%N with 1%N.
    change (5 * Dec.pow10 (1 - 1) <=? 1)%N with false. cbv iota.
    exists 0%N. split; [reflexivity|].
    assert (Hc : (10 * c < Dec.pow10 (x - e))%N).
    { destruct (N.eq_0_gt_0_cases c) as [->|Hc0]; [pose proof (pow10_pos (x - e)); lia|].
      destruct (ndigits_spec c Hc0) as (_ & _ & Hhi).
      pose proof (pow10_le (Dec.ndigits c + 1) (x - e) ltac:(lia)) as Hle.
      rewrite pow10_succ in Hle by lia.
      revert Hhi Hle. generalize (Dec.pow10 (Dec.ndigits c)), (Dec.pow10 (x - e)).
      intros p q Hhi Hle. lia. }
    revert Hc. generalize (Dec.pow10 (x - e)). intros p Hc.
    split; [lia|]. split; [lia|]. reflexivity.
  - set (k := x - e).
    assert (Hk : Dec.pow10 k = (10 * Dec.pow10 (k - 1))%N).
    { replace k with ((k - 1) + 1) at 1 by lia. apply pow10_succ. unfold k. lia. }
    pose proof (pow10_pos (k - 1)) as Hp.
    pose proof (N.div_mod c (Dec.pow10 k) ltac:(rewrite Hk; lia)) as Hdm.
    pose proof (N.mod_upper_bound c (Dec.pow10 k) ltac:(rewrite Hk; lia)) as Hm.
    set (q := (c / Dec.pow10 k)%N) in *. set (r := (c mod Dec.pow10 k)%N) in *.
    clearbody q r. rewrite Hk in *. revert Hp Hdm Hm.
    generalize (Dec.pow10 (k - 1)). intros p Hp Hdm Hm.
    destruct (N.leb_spec (5 * p) r) as [Hup|Hdown]; eexists;
      (split; [reflexivity|]); (split; [nia|]); (split; [nia|lia]).
Qed.

Lemma to_Q_false (c : N) (e : Z) : (Dec.to_Q false c e == inject_Z (Z.of_N c) * 10 ^ e)%Q.
Proof. reflexivity. Qed.

Lemma Qpower10_split (e k : Z) : (10 ^ (e + k) == 10 ^ e * 10 ^ k)%Q.
Proof. apply Qpower_plus. discriminate. Qed.

(** In rationals: the magnitude at exponent [x] is within half a unit of
    the last place of the magnitude it was rounded from, and a value
    halfway between two neighbours goes to the larger one. *)
Lemma rescale_error (s : bool) (c : N) (e x : Z) :
  exists c',
    rescale_half_up s c e x = Dec.Fin s c' x /\
    (- ((1 # 2) * 10 ^ x) < Dec.to_Q false c' x - Dec.to_Q false c e)%Q /\
    (Dec.to_Q false c' x - Dec.to_Q false c e <= (1 # 2) * 10 ^ x)%Q /\
    (e < x -> Dec.ndigits c + e - x < 0 -> c' = 0%N) /\
    (x <= e -> c' = (c * Dec.pow10 (e - x))%N).
Proof.
  destruct (Z.le_gt_cases x e) as [Hle|Hgt].
  - exists (c * Dec.pow10 (e - x))%N. unfold rescale_half_up.
    destruct (Z.leb_spec x e) as [_|?]; [|lia].
    split; [reflexivity|].
    assert (Heq : (Dec.to_Q false (c * Dec.pow10 (e - x)) x == Dec.to_Q false c e)%Q).
    { rewrite (to_Q_scale false c e x Hle). reflexivity. }
    pose proof (Qpower10_pos x) as Hp.
    assert (Hz : (Dec.to_Q false (c * Dec.pow10 (e - x)) x - Dec.to_Q false c e == 0)%Q)
      by (rewrite Heq; ring).
    assert (Hh : (0 < (1 # 2) * 10 ^ x)%Q)
      by (apply Qmult_lt_0_compat; [reflexivity|exact Hp]).
    split; [|split; [|split; [lia|reflexivity]]].
    + rewrite Hz. change 0%Q with (- 0)%Q. apply Qopp_lt_compat. exact Hh.
    + rewrite Hz. apply Qlt_le_weak. exact Hh.
  - destruct (rescale_down s c e x Hgt) as (c' & Hr & Hlo & Hhi & Hz).
    exists c'. split; [exact Hr|].
    assert (Hx : (10 ^ x == 10 ^ e * inject_Z (Z.of_N (Dec.pow10 (x - e))))%Q).
    { rewrite pow10_Z, Zpower_Qpower by lia.
      rewrite <- Qpower10_split. replace (e + (x - e)) with x by lia. reflexivity. }
    pose proof (Qpower10_pos e) as Hp.
    set (P := Dec.pow10 (x - e)) in *.
    assert (Hdiff : (Dec.to_Q false c' x - Dec.to_Q false c e ==
                     inject_Z (Z.of_N (c' * P) - Z.of_N c) * 10 ^ e)%Q).
    { rewrite !to_Q_false, Hx. unfold Zminus.
      rewrite inject_Z_plus, inject_Z_opp, N2Z.inj_mul, inject_Z_mult. ring. }
    assert (Hhalf : ((1 # 2) * 10 ^ x == inject_Z (Z.of_N P) * (1 # 2) * 10 ^ e)%Q)
      by (rewrite Hx; ring).
    split; [|split; [|split; [intros _; exact Hz|lia]]].
    + rewrite Hdiff, Hhalf.
      assert (Hn : (- (inject_Z (Z.of_N P) * (1 # 2) * 10 ^ e) ==
                    (- (inject_Z (Z.of_N P) * (1 # 2))) * 10 ^ e)%Q) by ring.
      rewrite Hn. apply Qmult_lt_r; [exact Hp|].
      unfold Qlt, Qopp, Qmult, inject_Z. simpl. lia.
    + rewrite Hdiff, Hhalf. apply Qmult_le_r; [exact Hp|].
      unfold Qle, Qmult, inject_Z. simpl. lia.
Qed.

Lemma rescale_digits (s : bool) (c c' : N) (e x : Z) :
  (0 < c)%N -> rescale_half_up s c e x = Dec.Fin s c' x ->
  Dec.ndigits c' <= Z.max 1 (Dec.adjusted c e - x + 2).
Proof.
  intros Hc Hr. pose proof (ndigits_pos c) as Hn.
  destruct (ndigits_spec c Hc) as (_ & Hlo & Hhi).
  destruct (N.eq_0_gt_0_cases c') as [->|Hc']; [change (Dec.ndigits 0) with 1; lia|].
  destruct (Z.le_gt_cases x e) as [Hle|Hgt].
  - unfold rescale_half_up in Hr. destruct (Z.leb_spec x e) as [_|?]; [|lia].
    injection Hr as <-. rewrite ndigits_mul_pow10 by lia. unfold Dec.adjusted. lia.
  - destruct (rescale_down s c e x Hgt) as (c2 & Hr2 & _ & Hup & Hz).
    rewrite Hr in Hr2. injection Hr2 as <-.
    destruct (Z.ltb_spec (Dec.ndigits c + e - x) 0) as [Hneg|Hpos];
      [specialize (Hz Hneg); lia|].
    unfold Dec.adjusted.
    assert (Dec.ndigits c' <= Dec.ndigits c + e - x + 1); [|lia].
    apply ndigits_le_lt; [lia| |exact Hc'].
    assert (E : Dec.pow10 (Dec.ndigits c) =
                (Dec.pow10 (Dec.ndigits c + e - x) * Dec.pow10 (x - e))%N).
    { rewrite <- pow10_add by lia. f_equal. lia. }
    rewrite pow10_succ by lia. rewrite E in Hhi.
    pose proof (pow10_pos (x - e)) as Hp.
    revert Hhi Hup Hp. generalize (Dec.pow10 (Dec.ndigits c + e - x)), (Dec.pow10 (x - e)).
    intros a p Hhi Hup Hp. nia.
Qed.

(** A finite decimal whose digits down to exponent [x] leave room for a
    carry is quantized to exponent [x] without an exception. *)
Lemma quantize_fits (s t : bool) (c q : N) (e x : Z) :
  -1000000 <= x <= 0 ->
  (c = 0%N \/ Dec.adjusted c e - x + 2 <= 28) ->
  exists c',
    quantize_half_up (Dec.Fin s c e) (Dec.Fin t q x) = OK (Dec.Fin s c' x) /\
    rescale_half_up s c e x = Dec.Fin s c' x.
Proof.
  intros Hx Hfit. unfold quantize_half_up.
  assert (Hrange : negb ((Dec.Etiny <=? x) && (x <=? Dec.Emax)) = false).
  { apply negb_false_iff, andb_true_iff. unfold Dec.Etiny, Dec.Emin, Dec.Emax, Dec.prec.
    split; apply Z.leb_le; lia. }
  rewrite Hrange.
  destruct (N.eqb_spec c 0) as [->|Hc].
  - exists 0%N. split.
    + apply (fix_representable s s). unfold representable.
      unfold Dec.Etiny, Dec.Emin, Dec.Emax, Dec.prec. simpl.
      apply andb_true_iff. split; apply Z.leb_le; lia.
    + unfold rescale_half_up. destruct (Z.leb_spec x e); [reflexivity|].
      cbv zeta. destruct (Dec.ndigits 0 + e - x <? 0); cbv iota beta.
      * replace (x - (x - 1)) with 1 by lia. reflexivity.
      * rewrite N.Div0.div_0_l, N.Div0.mod_0_l.
        pose proof (pow10_pos (x - e - 1)).
        destruct (N.leb_spec (5 * Dec.pow10 (x - e - 1)) 0); [lia|reflexivity].
  - destruct Hfit as [?|Hfit]; [contradiction|].
    assert (Hpos : (0 < c)%N) by lia.
    destruct (rescale_error s c e x) as (c' & Hr & _).
    pose proof (rescale_digits s c c' e x Hpos Hr) as Hnd.
    pose proof (ndigits_pos c'). pose proof (ndigits_pos c).
    unfold Dec.Emax, Dec.prec in *.
    destruct (Z.ltb_spec 999999 (Dec.adjusted c e)) as [?|_];
      [unfold Dec.adjusted in *; lia|].
    destruct (Z.ltb_spec 28 (Dec.adjusted c e - x + 1)) as [?|_]; [lia|].
    rewrite Hr.
    destruct (Z.ltb_spec 999999 (Dec.adjusted c' x)) as [?|_];
      [unfold Dec.adjusted in *; lia|].
    destruct (Z.ltb_spec 28 (Dec.ndigits c')) as [?|_]; [lia|].
    exists c'. split; [|reflexivity].
    apply (fix_representable s s).
    apply (ranged_representable x (x + 27)); unfold Dec.Etiny, Dec.Emin, Dec.Emax, Dec.prec;
      unfold Dec.adjusted; lia.
Qed.

(** ** format_decimal *)

Lemma numeral_clean (s : bool) (ip : str) (frac : option str) (ex : option Z) (x : N) :
  x = 37%N \/ x = 44%N ->
  forallb Dec.is_digit ip = true -> forallb Dec.is_digit (default [] frac) = true ->
  PyStr.contains [x] (numeral s ip frac ex) = false.
Proof.
  intros Hx Hip Hfp.
  assert (Hd : forall l, forallb Dec.is_digit l = true -> existsb (N.eqb x) l = false).
  { intros l Hl. rewrite forallb_forall in Hl.
    destruct (existsb (N.eqb x) l) eqn:E; [|reflexivity].
    apply existsb_exists in E as (c & Hc & Hxc). apply N.eqb_eq in Hxc. subst c.
    specialize (Hl _ Hc). destruct Hx as [-> | ->]; discriminate. }
  rewrite contains_single. unfold numeral. rewrite !existsb_app, (Hd _ Hip).
  assert (H1 : existsb (N.eqb x) (if s then [45%N] else []) = false)
    by (destruct s, Hx as [-> | ->]; reflexivity).
  assert (H2 : existsb (N.eqb x) (match frac with Some fp => 46%N :: fp | None => [] end)
               = false).
  { destruct frac as [fp|]; [|reflexivity].
    change (default [] (Some fp)) with fp in Hfp. cbn [existsb]. rewrite (Hd _ Hfp).
    destruct Hx as [-> | ->]; reflexivity. }
  assert (H3 : existsb (N.eqb x)
                 (match ex with
                  | Some z => 69%N :: (if z <? 0 then 45%N else 43%N) :: digits (Z.abs_N z)
                  | None => []
                  end) = false).
  { destruct ex as [z|]; [|reflexivity]. cbn [existsb].
    rewrite (Hd _ (digits_digit _)).
    destruct (z <? 0), Hx as [-> | ->]; reflexivity. }
  rewrite H1, H2, H3. reflexivity.
Qed.

(** X18. What the report prints, the reader of the quotes reads back:
    [safe_decimal] of the text of a finite or infinite decimal is that
    decimal, whatever the default. *)
Theorem safe_decimal_of_text (d : Decimal) (text : str) (default : option Decimal) :
  Decimal_str d = Some text -> safe_decimal (VStr text) default = d.
Proof.
  intros H. rewrite safe_decimal_try, cleaned_str.
  assert (Hclean : PyStr.replace 44 [] (PyStr.replace 37 [] text) = text).
  { destruct d as [s c e|s|g]; [| |discriminate].
    - destruct (Decimal_str_numeral s c e) as (ip & frac & ex & Hs & _ & Hip & Hfp & _).
      rewrite Hs in H. injection H as <-.
      rewrite (replace_absent 37) by (apply numeral_clean; auto).
      apply replace_absent. apply numeral_clean; auto.
    - injection H as <-. destruct s; reflexivity. }
  rewrite Hclean, of_str_strip, (of_str_Decimal_str_aux d text H). reflexivity.
Qed.

Lemma safe_decimal_of_text_witness :
  Decimal_str (Dec.Fin true 12345 (-2)) = Some (PyStr.lit "-123.45") /\
  safe_decimal (VStr (PyStr.lit "-123.45")) None = Dec.Fin true 12345 (-2).
Proof.
  assert (H : Decimal_str (Dec.Fin true 12345 (-2)) = Some (PyStr.lit "-123.45"))
    by (vm_compute; reflexivity).
  split; [exact H|]. exact (safe_decimal_of_text _ _ None H).
Defined.

Lemma format_decimal_quantize (d : Decimal) (places : option Z) :
  format_decimal (Some d) places =
  match quantize_half_up d (Dec.Fin false 0 (- Z.of_nat (Z.to_nat (arg 4 places)))) with
  | OK r => Decimal_str r
  | Raise _ => Decimal_str d
  end.
Proof. unfold format_decimal. rewrite quantize_str_value. reflexivity. Qed.

(** X19. [format_decimal] rounds half up: for a finite value whose digits down
    to the requested place fit the precision, the text printed spells the
    value at exactly [places] fractional digits, its magnitude within half
    a unit of the last place of the true magnitude, a value halfway between
    two neighbours going to the larger one; reading the text back gives
    that rounded decimal. *)
Theorem format_decimal_rounds (s : bool) (c : N) (e : Z) (places : Z) :
  0 <= places <= 1000000 ->
  (c = 0%N \/ Dec.adjusted c e + places + 2 <= 28) ->
  exists text c',
    format_decimal (Some (Dec.Fin s c e)) (Some places) = Some text /\
    Dec.of_str text = OK (Dec.Fin s c' (- places)) /\
    (- ((1 # 2) * 10 ^ (- places)) <
     Dec.to_Q false c' (- places) - Dec.to_Q false c e)%Q /\
    (Dec.to_Q false c' (- places) - Dec.to_Q false c e
     <= (1 # 2) * 10 ^ (- places))%Q.
Proof.
  intros Hp Hfit. rewrite format_decimal_quantize. cbn [arg].
  rewrite Z2Nat.id by lia.
  destruct (quantize_fits s false c 0 e (- places)) as (c' & -> & Hr);
    [lia|destruct Hfit; [left; assumption|right; lia]|].
  destruct (rescale_error s c e (- places)) as (c2 & Hr2 & Hlo & Hhi & _).
  rewrite Hr in Hr2. injection Hr2 as <-.
  destruct (Decimal_str_numeral s c' (- places))
    as (ip & frac & ex & Hs & Hne & Hip & Hfp & Hv & _).
  exists (numeral s ip frac ex), c'. split; [exact Hs|].
  split; [rewrite of_str_numeral by assumption; rewrite Hv; reflexivity|].
  split; assumption.
Qed.

Lemma format_decimal_rounds_witness :
  0 <= 2 <= 1000000 /\
  exists text c',
    format_decimal (Some (Dec.Fin true 12345 (-3))) (Some 2) = Some text /\
    Dec.of_str text = OK (Dec.Fin true c' (- 2)).
Proof.
  assert (Hp : 0 <= 2 <= 1000000) by lia.
  split; [exact Hp|].
  destruct (format_decimal_rounds true 12345 (-3) 2 Hp)
    as (text & c' & Ht & Ho & _); [right; vm_compute; discriminate|].
  exists text, c'. split; assumption.
Defined.



(** With seven places or more a small value is printed with an exponent. *)
Example format_decimal_exponent :
  format_decimal (Some Decimal_0) (Some 7) = Some (PyStr.lit "0E-7") /\
  format_decimal (Some Decimal_0) (Some 6) = Some (PyStr.lit "0.000000").
Proof. vm_compute. split; reflexivity. Qed.

(** X21. When there is nothing to round: a missing value prints as "N/A"; an
    infinity, and a finite value with more digits down to the requested
    place than the precision holds, make [quantize] raise, and the value is
    printed as it is, unrounded. *)
Theorem format_decimal_fallback (places : option Z) :
  format_decimal None places = Some (PyStr.lit "N/A") /\
  (forall s, format_decimal (Some (Dec.Inf s)) places = Decimal_str (Dec.Inf s)) /\
  (forall s c e,
     c <> 0%N -> 28 < Dec.adjusted c e + Z.max 0 (arg 4 places) + 1 ->
     format_decimal (Some (Dec.Fin s c e)) places = Decimal_str (Dec.Fin s c e)).
Proof.
  split; [reflexivity|]. split.
  - intros s. rewrite format_decimal_quantize. reflexivity.
  - intros s c e Hc Hbig. rewrite format_decimal_quantize.
    unfold quantize_half_up.
    destruct (negb _); [reflexivity|].
    destruct (N.eqb_spec c 0) as [?|_]; [contradiction|].
    destruct (Dec.Emax <? Dec.adjusted c e); [reflexivity|].
    destruct (Z.ltb_spec Dec.prec (Dec.adjusted c e
                - - Z.of_nat (Z.to_nat (arg 4 places)) + 1)) as [_|Hsmall];
      [reflexivity|].
    exfalso. unfold Dec.prec in Hsmall. lia.
Qed.

Lemma format_decimal_fallback_witness :
  28 < Dec.adjusted 1 30 + Z.max 0 (arg 4 (Some 2)) + 1 /\
  format_decimal (Some (Dec.Fin false 1 30)) (Some 2) = Some (PyStr.lit "1E+30").
Proof.
  assert (H : 28 < Dec.adjusted 1 30 + Z.max 0 (arg 4 (Some 2)) + 1)
    by (vm_compute; reflexivity).
  split; [exact H|].
  rewrite (proj2 (proj2 (format_decimal_fallback (Some 2))) false 1%N 30 ltac:(discriminate) H).
  vm_compute. reflexivity.
Defined.
(** ** The sign of the profit rate *)

(** X22. On ordinary inputs the profit rate tells the same story as the profit:
    when the actual cost is positive the rate is positive, zero or negative
    exactly when the profit is, and otherwise the rate is [Decimal('0')]. *)
Theorem profit_rate_sign (self : FundItem) (account : Account) (quantity : option Z) :
  ordinary_inputs self account (arg default_quantity quantity) = true ->
  exists self' v pr,
    arbitrage_locals self (parse_apply_fee self) account
      (arg default_quantity quantity) = OK v /\
    calculate_arbitrage_profit self account quantity = (self', OK (net_profit v)) /\
    profit self' = Some (net_profit v) /\ profit_rate self' = Some pr /\
    match Dec.cmp (actual_cost v) (Dec.of_int 0) with
    | Gt => Dec.cmp pr (Dec.of_int 0) = Dec.cmp (net_profit v) (Dec.of_int 0)
    | _ => pr = Decimal_0
    end.
Proof.
  intros Hord.
  destruct (calculate_total self account quantity Hord) as (v & pr & Hv & _ & _ & -> & Hs).
  eexists _, v, pr. split; [exact Hv|]. split; [reflexivity|].
  split; [reflexivity|]. split; [reflexivity|exact Hs].
Qed.

Lemma profit_rate_sign_witness :
  ordinary_inputs example_fund example_account 10000 = true /\
  exists self' v pr,
    calculate_arbitrage_profit example_fund example_account None
    = (self', OK (net_profit v)) /\
    profit_rate self' = Some pr /\
    match Dec.cmp (actual_cost v) (Dec.of_int 0) with
    | Gt => Dec.cmp pr (Dec.of_int 0) = Dec.cmp (net_profit v) (Dec.of_int 0)
    | _ => pr = Decimal_0
    end.
Proof.
  assert (H : ordinary_inputs example_fund example_account 10000 = true)
    by (vm_compute; reflexivity).
  split; [exact H|].
  destruct (profit_rate_sign example_fund example_account None H)
    as (self' & v & pr & _ & Hc & _ & Hr & Hs).
  exists self', v, pr. repeat split; assumption.
Defined.

(** ** What the exact profit implies *)

Lemma Qval_nonneg (d : Decimal) :
  Dec.is_finite d = true -> Dec.cmp d (Dec.of_int 0) <> Lt -> (0 <= Qval d)%Q.
Proof.
  intros Hf H. rewrite cmp_Qval in H by (exact Hf || reflexivity).
  apply (proj2 (Qge_alt _ _)) in H. exact H.
Qed.

Lemma Qval_le (a b : Decimal) :
  Dec.is_finite a = true -> Dec.is_finite b = true ->
  Dec.cmp a b <> Gt -> (Qval a <= Qval b)%Q.
Proof.
  intros Ha Hb H. rewrite cmp_Qval in H by assumption.
  apply (proj2 (Qle_alt _ _)). exact H.
Qed.

Lemma Qmax_shift (x y m d : Q) :
  (x <= y)%Q -> (y - x <= d)%Q -> (Qmax y m <= Qmax x m + d)%Q.
Proof.
  intros Hxy Hd. apply Q.max_lub.
  - pose proof (Q.le_max_l x m). lra.
  - pose proof (Q.le_max_r x m). lra.
Qed.

(** X23. Without a premium there is no profit: on plain inputs with a
    non-negative net asset value, fee rate, minimum commission and transfer
    fee, an exchange price that is not above the net asset value gives a
    profit that is not above zero. *)
Theorem no_premium_no_profit (self : FundItem) (account : Account) (quantity : Z) :
  plain_inputs self account quantity = true ->
  Dec.cmp (price self) (fund_nav self) <> Gt ->
  Dec.cmp (fund_nav self) (Dec.of_int 0) <> Lt ->
  Dec.cmp (parse_apply_fee self) (Dec.of_int 0) <> Lt ->
  Dec.cmp (min_commission account) (Dec.of_int 0) <> Lt ->
  Dec.cmp (transfer_fee account) (Dec.of_int 0) <> Lt ->
  exists p,
    (calculate_arbitrage_profit self account (Some quantity)).2 = OK p /\
    Dec.cmp p (Dec.of_int 0) <> Gt.
Proof.
  intros Hplain Hpn Hn Hr Hm Ht.
  destruct (plain_inputs_ranged _ _ _ Hplain) as (Rn & Rp & Rr & _ & Rm & Rt & Rq).
  destruct (plain_locals_exact self account quantity Hplain)
    as (v & Hv & Hc & Qa & Qf & Qc & Qs & Qm & Qp).
  exists (net_profit v). split; [exact Hc|].
  assert (Hq : (0 <= inject_Z quantity)%Q).
  { unfold plain_inputs in Hplain. apply andb_true_iff in Hplain as [H _].
    apply andb_true_iff in H as [_ H]. apply Z.leb_le in H.
    unfold Qle, inject_Z. simpl. lia. }
  pose proof (Qval_nonneg _ (ranged_finite _ _ _ Rn) Hn) as Nn.
  pose proof (Qval_nonneg _ (ranged_finite _ _ _ Rr) Hr) as Nr.
  pose proof (Qval_nonneg _ (ranged_finite _ _ _ Rm) Hm) as Nm.
  pose proof (Qval_nonneg _ (ranged_finite _ _ _ Rt) Ht) as Nt.
  pose proof (Qval_le _ _ (ranged_finite _ _ _ Rp) (ranged_finite _ _ _ Rn) Hpn) as Lpn.
  assert (Hfin : Dec.is_finite (net_profit v) = true).
  { destruct (calculate_total self account (Some quantity) (plain_ordinary _ _ _ Hplain))
      as (v0 & pr & Hv0 & Hf & _). cbn [arg] in Hv0. rewrite Hv in Hv0.
    injection Hv0 as <-. exact Hf. }
  rewrite cmp_Qval by (exact Hfin || reflexivity). apply (proj1 (Qle_alt _ _)).
  change (Qval (Dec.of_int 0)) with (Dec.to_Q false 0 0). rewrite to_Q_zero.
  assert (Ha : (0 <= Qval (subscribe_amount v))%Q)
    by (rewrite Qa; apply Qmult_le_0_compat; assumption).
  assert (Hf : (0 <= Qval (subscribe_fee v))%Q)
    by (rewrite Qf; apply Qmult_le_0_compat; assumption).
  assert (Hs : (Qval (sell_amount v) <= Qval (subscribe_amount v))%Q)
    by (rewrite Qs, Qa; apply Qmult_le_compat_r; assumption).
  assert (Hcm : (0 <= Qval (sell_commission v))%Q).
  { rewrite Qm. eapply Qle_trans; [exact Nm|apply Q.le_max_r]. }
  rewrite Qp, Qc. lra.
Qed.

Lemma no_premium_no_profit_witness :
  let fund := fund_with [] Decimal_0 (PyStr.lit "0.12%") in
  let par :=
    {| fund_id := []; fund_name := []; price := Decimal_1_0000;
       fund_nav := Decimal_1_0000; discount_rt := Decimal_0;
       apply_fee := PyStr.lit "0.12%"; redeem_fee := []; apply_status := [];
       redeem_status := []; volume := Decimal_0; amount := Decimal_0;
       issuer_nm := []; subscribe_fee_rate := None; estimated_sell_price := None;
       profit := None; profit_rate := None |} in
  plain_inputs par example_account 10000 = true /\
  exists p,
    (calculate_arbitrage_profit par example_account (Some 10000)).2 = OK p /\
    Dec.cmp p (Dec.of_int 0) <> Gt.
Proof.
  intros fund par.
  assert (H : plain_inputs par example_account 10000 = true) by (vm_compute; reflexivity).
  split; [exact H|].
  apply (no_premium_no_profit par example_account 10000 H);
    vm_compute; discriminate.
Defined.

(** X24. A better exchange price never gives a worse profit: for two quotes
    with plain figures that differ in the exchange price only, and a
    commission rate between 0 and 1, the profit at the higher price is not
    below the profit at the lower price. *)
Theorem profit_monotone_price (low high : FundItem) (account : Account)
    (quantity : Z) :
  plain_inputs low account quantity = true ->
  plain_inputs high account quantity = true ->
  fund_nav low = fund_nav high -> apply_fee low = apply_fee high ->
  Dec.cmp (price low) (price high) <> Gt ->
  Dec.cmp (commission_rate account) (Dec.of_int 0) <> Lt ->
  Dec.cmp (commission_rate account) (Dec.of_int 1) <> Gt ->
  exists p1 p2,
    (calculate_arbitrage_profit low account (Some quantity)).2 = OK p1 /\
    (calculate_arbitrage_profit high account (Some quantity)).2 = OK p2 /\
    Dec.cmp p1 p2 <> Gt.
Proof.
  intros H1 H2 Hnav Hfee Hpp Hc0 Hc1.
  destruct (plain_inputs_ranged _ _ _ H1) as (_ & Rp1 & _ & Rc & _ & _ & _).
  destruct (plain_inputs_ranged _ _ _ H2) as (_ & Rp2 & _ & _ & _ & _ & _).
  destruct (plain_locals_exact low account quantity H1)
    as (v1 & Hv1 & Hr1 & Qa1 & Qf1 & Qc1 & Qs1 & Qm1 & Qp1).
  destruct (plain_locals_exact high account quantity H2)
    as (v2 & Hv2 & Hr2 & Qa2 & Qf2 & Qc2 & Qs2 & Qm2 & Qp2).
  exists (net_profit v1), (net_profit v2).
  split; [exact Hr1|]. split; [exact Hr2|].
  assert (Hrate : parse_apply_fee low = parse_apply_fee high)
    by (unfold parse_apply_fee, parse_apply_fee_body; rewrite Hfee; reflexivity).
  assert (Hq : (0 <= inject_Z quantity)%Q).
  { unfold plain_inputs in H1. apply andb_true_iff in H1 as [H _].
    apply andb_true_iff in H as [_ H]. apply Z.leb_le in H.
    unfold Qle, inject_Z. simpl. lia. }
  assert (Hfin : forall f v, plain_inputs f account quantity = true ->
            arbitrage_locals f (parse_apply_fee f) account quantity = OK v ->
            Dec.is_finite (net_profit v) = true).
  { intros f v Hp Hv.
    destruct (calculate_total f account (Some quantity) (plain_ordinary _ _ _ Hp))
      as (v0 & pr & Hv0 & Hf & _). cbn [arg] in Hv0. rewrite Hv in Hv0.
    injection Hv0 as <-. exact Hf. }
  rewrite cmp_Qval by eauto. apply (proj1 (Qle_alt _ _)).
  pose proof (Qval_le _ _ (ranged_finite _ _ _ Rp1) (ranged_finite _ _ _ Rp2) Hpp) as Lp.
  pose proof (Qval_nonneg _ (ranged_finite _ _ _ Rc) Hc0) as Nc.
  assert (Lc : (Qval (commission_rate account) <= 1)%Q).
  { pose proof (Qval_le _ (Dec.of_int 1) (ranged_finite _ _ _ Rc) eq_refl Hc1) as L.
    exact L. }
  assert (Hs : (Qval (sell_amount v1) <= Qval (sell_amount v2))%Q)
    by (rewrite Qs1, Qs2; apply Qmult_le_compat_r; assumption).
  assert (Hcost : (Qval (actual_cost v1) == Qval (actual_cost v2))%Q).
  { rewrite Qc1, Qc2, Qf1, Qf2, Qa1, Qa2, Hnav, Hrate. reflexivity. }
  set (d := (Qval (sell_amount v2) - Qval (sell_amount v1))%Q).
  assert (Hd0 : (0 <= d)%Q) by (unfold d; lra).
  assert (Hdc : (Qval (sell_amount v2) * Qval (commission_rate account)
                 - Qval (sell_amount v1) * Qval (commission_rate account) <= d)%Q).
  { assert (E : (Qval (sell_amount v2) * Qval (commission_rate account)
                 - Qval (sell_amount v1) * Qval (commission_rate account)
                 == d * Qval (commission_rate account))%Q) by (unfold d; ring).
    rewrite E. rewrite <- (Qmult_1_r d) at 2.
    rewrite (Qmult_comm d (Qval (commission_rate account))), (Qmult_comm d 1).
    apply Qmult_le_compat_r; assumption. }
  assert (Hmono : (Qval (sell_amount v1) * Qval (commission_rate account)
                   <= Qval (sell_amount v2) * Qval (commission_rate account))%Q)
    by (apply Qmult_le_compat_r; assumption).
  pose proof (Qmax_shift _ _ (Qval (min_commission account)) d Hmono Hdc) as Hmax.
  rewrite Qp1, Qp2, Qm1, Qm2, Hcost. unfold d in Hmax. lra.
Qed.

Lemma profit_monotone_price_witness :
  let low :=
    {| fund_id := []; fund_name := []; price := Decimal_1_0000;
       fund_nav := Decimal_1_0000; discount_rt := Decimal_0;
       apply_fee := PyStr.lit "0.12%"; redeem_fee := PyStr.lit "0.50%";
       apply_status := []; redeem_status := []; volume := Decimal_0;
       amount := Decimal_0; issuer_nm := []; subscribe_fee_rate := None;
       estimated_sell_price := None; profit := None; profit_rate := None |} in
  plain_inputs low example_account 10000 = true /\
  plain_inputs example_fund example_account 10000 = true /\
  exists p1 p2,
    (calculate_arbitrage_profit low example_account (Some 10000)).2 = OK p1 /\
    (calculate_arbitrage_profit example_fund example_account (Some 10000)).2 = OK p2 /\
    Dec.cmp p1 p2 <> Gt.
Proof.
  intros low.
  assert (H1 : plain_inputs low example_account 10000 = true) by (vm_compute; reflexivity).
  assert (H2 : plain_inputs example_fund example_account 10000 = true)
    by (vm_compute; reflexivity).
  split; [exact H1|]. split; [exact H2|].
  apply (profit_monotone_price low example_fund example_account 10000 H1 H2);
    try reflexivity; vm_compute; discriminate.
Defined.
(** ** The account loop as a pure pipeline *)

Section SortNatural.

Context {Ref : Type} (deref : Ref -> FundItem).

Let lift (p : option Decimal * Ref) : option Decimal * FundItem := (p.1, deref p.2).

Lemma insert_by_key_natural (x : option Decimal * Ref) (l : list (option Decimal * Ref)) :
  insert_by_key (lift x) (map lift l)
  = match insert_by_key x l with
    | OK l' => OK (map lift l')
    | Raise e => Raise e
    end.
Proof.
  induction l as [|y r IH]; [reflexivity|].
  cbn [map insert_by_key]. change (lift x).1 with x.1. change (lift y).1 with y.1.
  destruct (key_lt x.1 y.1) as [[|]|e]; cbn [rbind]; [reflexivity| |reflexivity].
  rewrite IH. destruct (insert_by_key x r); reflexivity.
Qed.

Lemma sort_keyed_natural (todo done : list (option Decimal * Ref)) :
  sort_keyed (map lift done) (map lift todo)
  = match sort_keyed done todo with
    | OK s => OK (map lift s)
    | Raise e => Raise e
    end.
Proof.
  revert done. induction todo as [|x r IH]; intros done; [reflexivity|].
  cbn [map sort_keyed]. rewrite insert_by_key_natural.
  destruct (insert_by_key x done) as [d|e]; cbn [rbind]; [apply IH|reflexivity].
Qed.

(** Sorting references by a key of the objects they point to, and then
    looking the objects up, is sorting the objects. *)
Lemma sorted_natural (key : FundItem -> option Decimal) (reverse : bool)
    (l : list Ref) :
  sorted id (map deref l) key reverse
  = match sorted deref l key reverse with
    | OK out => OK (map deref out)
    | Raise e => Raise e
    end.
Proof.
  unfold sorted.
  assert (Hk : map (fun x : FundItem => (key (id x), x)) (map deref l)
               = map lift (map (fun x => (key (deref x), x)) l)).
  { rewrite !map_map. reflexivity. }
  rewrite Hk.
  assert (Hin : (if reverse then rev (map lift (map (fun x => (key (deref x), x)) l))
                 else map lift (map (fun x => (key (deref x), x)) l))
                = map lift (if reverse then rev (map (fun x => (key (deref x), x)) l)
                            else map (fun x => (key (deref x), x)) l)).
  { destruct reverse; [symmetry; apply map_rev|reflexivity]. }
  rewrite Hin. change (@nil (option Decimal * FundItem)) with (map lift []).
  rewrite sort_keyed_natural.
  destruct (sort_keyed [] _) as [s|e]; cbn [rbind]; [|reflexivity].
  f_equal. destruct reverse; rewrite <- ?map_rev, !map_map; reflexivity.
Qed.

End SortNatural.

Lemma Forall2_map_eq {A B C : Type} (f : A -> C) (g : B -> C) (l : list A) (k : list B) :
  Forall2 (fun x y => f x = g y) l k -> map f l = map g k.
Proof. induction 1 as [|x y l k Hxy _ IH]; simpl; [reflexivity|]. rewrite Hxy, IH. reflexivity. Qed.

(** The list that one turn of the loop of [main] hands to the reports
    holds, in the store it leaves, the records of [report] on the quotes as
    the opportunities held them before the turn. *)
Lemma main_account_report (opportunities funds : list loc) (account : Account)
    (h h' : gmap loc FundItem) (r : result (list loc)) :
  (forall l, l ∈ opportunities ->
     l ∈ dom h /\ ordinary_inputs (obj h l) account QUANTITY = true) ->
  main_account opportunities account h = (h', funds, r) ->
  exists ranked,
    r = OK ranked /\ (forall l, l ∈ ranked -> l ∈ dom h') /\
    report account (map (obj h) opportunities) = OK (map (obj h') ranked).
Proof.
  intros Hin. unfold main_account, deepcopy, calculate_all_profits.
  pose proof (deepcopy_loop_untouched opportunities ∅ h) as Hu.
  pose proof (deepcopy_loop_spec (dom h) opportunities ∅ h) as Hs.
  destruct (deepcopy_loop opportunities ∅ h) as [h1 copies].
  destruct Hs as (memo' & _ & [Hval _] & _ & Hall);
    [reflexivity|intros l Hl; apply Hin, Hl| |].
  { split; intros *; rewrite lookup_empty; discriminate. }
  assert (Hcopy : Forall2 (fun o c => o ∈ opportunities /\ c ∈ dom h1 /\
                                      obj h1 c = obj h o) opportunities copies).
  { apply Forall2_same_length_lookup. split; [exact (Forall2_length _ _ _ Hall)|].
    intros i o c Ho Hc. split; [eapply list_elem_of_lookup_2; exact Ho|].
    pose proof (Forall2_lookup_lr _ _ _ _ _ _ Hall Ho Hc) as Hm. cbv beta in Hm.
    destruct (Hval _ _ Hm) as (Hk & Hd & _ & Hobj).
    split; [exact Hd|]. rewrite Hobj. apply obj_lookup, Hu, Hk. }
  assert (Hord : forall c, c ∈ copies ->
            c ∈ dom h1 /\ ordinary_inputs (obj h1 c) account QUANTITY = true).
  { intros c Hc. apply list_elem_of_lookup in Hc as (i & Hi).
    destruct (Forall2_lookup_r _ _ _ _ _ Hcopy Hi) as (o & _ & Ho & Hd & Hobj).
    split; [exact Hd|]. unfold ordinary_inputs in *. rewrite Hobj. apply Hin, Ho. }
  pose proof (calculate_loop_spec copies account
                (Some (arg default_quantity (Some QUANTITY))) (obj h1) h1
                (fun l => or_introl eq_refl)) as Hc.
  pose proof (calculate_loop_dom copies account
                (Some (arg default_quantity (Some QUANTITY))) h1) as Hdom.
  destruct (calculate_loop copies account _ h1) as [h2 r1]. cbn [fst] in Hdom.
  intros [= <- <- <-].
  destruct r1 as [u|e]; cbn [rbind].
  - assert (Hmap : map (evaluated account) (map (obj h) opportunities)
                   = map (obj h2) copies).
    { rewrite map_map. apply Forall2_map_eq.
      apply Forall2_same_length_lookup. split; [exact (Forall2_length _ _ _ Hcopy)|].
      intros i o c Ho Hci.
      destruct (Forall2_lookup_lr _ _ _ _ _ _ Hcopy Ho Hci) as (_ & _ & Hobj).
      destruct (Hc c (list_elem_of_lookup_2 _ _ _ Hci)) as (p & Hp).
      unfold evaluated. rewrite <- Hobj. cbn [arg] in Hp. rewrite Hp. reflexivity. }
    assert (Hcomp : Forall (fun c => orderable (profit (obj h2 c)) = true) copies).
    { apply Forall_forall. intros c Hcin.
      destruct (Hc c Hcin) as (p & Hp).
      destruct (calculate_computed (obj h1 c) account (Some QUANTITY)
                  (proj2 (Hord c Hcin))) as (self' & p' & Hp' & Hcmp).
      cbn [arg] in Hp. rewrite Hp' in Hp. injection Hp as <- _.
      apply andb_true_iff in Hcmp. apply Hcmp. }
    destruct (sorted_spec (obj h2) profit true copies Hcomp)
      as (ranked & Hr & Hperm & _).
    exists ranked. split; [exact Hr|]. split.
    + intros l Hl. apply Hdom. apply Hord. rewrite Hperm. exact Hl.
    + unfold report, sort_by_profit. cbn [arg]. rewrite Hmap, sorted_natural.
      unfold sort_by_profit in Hr. cbn [arg] in Hr. rewrite Hr. reflexivity.
  - exfalso. destruct Hc as (c & Hcin & He).
    destruct (calculate_computed (obj h1 c) account (Some QUANTITY) (proj2 (Hord c Hcin)))
      as (self' & p' & Hp' & _).
    cbn [arg] in He. rewrite Hp' in He. discriminate.
Qed.

(** X25. One turn of the loop of [main] computes a function of the quotes: for
    valid opportunities with ordinary figures, the records of the ranked
    list it returns are the quotes evaluated for the account and ranked by
    profit, best first; the copies, the store and the order in which the
    updates were made leave no other trace. *)
Theorem main_account_pure (opportunities funds : list loc) (account : Account)
    (h h' : gmap loc FundItem) (r : result (list loc)) :
  (forall l, l ∈ opportunities ->
     l ∈ dom h /\ ordinary_inputs (obj h l) account QUANTITY = true) ->
  main_account opportunities account h = (h', funds, r) ->
  exists ranked,
    r = OK ranked /\
    report account (map (obj h) opportunities) = OK (map (obj h') ranked).
Proof.
  intros Hin Hm.
  destruct (main_account_report _ _ _ _ _ _ Hin Hm) as (ranked & Hr & _ & Hrep).
  exists ranked. split; assumption.
Qed.

Lemma main_account_pure_witness :
  let t := main_account [1; 2; 1]%positive example_account example_store in
  (forall l, l ∈ [1; 2; 1]%positive ->
     l ∈ dom example_store /\
     ordinary_inputs (obj example_store l) example_account QUANTITY = true) /\
  exists ranked,
    t.2 = OK ranked /\
    report example_account (map (obj example_store) [1; 2; 1]%positive)
    = OK (map (obj t.1.1) ranked).
Proof.
  intros t.
  assert (Hin : forall l, l ∈ [1; 2; 1]%positive ->
            l ∈ dom example_store /\
            ordinary_inputs (obj example_store l) example_account QUANTITY = true).
  { intros l Hl.
    repeat (apply elem_of_cons in Hl as [->|Hl];
            [split; [apply elem_of_dom; vm_compute; eauto|vm_compute; reflexivity]|]).
    inversion Hl. }
  split; [exact Hin|].
  assert (Ht : main_account [1; 2; 1]%positive example_account example_store
               = (t.1.1, t.1.2, t.2)).
  { subst t. destruct (main_account [1; 2; 1]%positive example_account example_store)
      as [[? ?] ?]; reflexivity. }
  exact (main_account_pure _ _ _ _ _ _ Hin Ht).
Defined.

(** X26. The accounts can be evaluated in either order: for two accounts and
    valid opportunities with ordinary figures, the report of each account
    (the records of its ranked list, in the store the loop leaves) is the
    same whether that account's turn comes first or second. *)
Theorem accounts_independent (opportunities : list loc) (a b : Account)
    (h h1 h2 k1 k2 : gmap loc FundItem) (fa fb ga gb : list loc)
    (ra rb sa sb : result (list loc)) :
  (forall l, l ∈ opportunities ->
     l ∈ dom h /\ ordinary_inputs (obj h l) a QUANTITY = true /\
     ordinary_inputs (obj h l) b QUANTITY = true) ->
  main_account opportunities a h = (h1, fa, ra) ->
  main_account opportunities b h1 = (h2, fb, rb) ->
  main_account opportunities b h = (k1, gb, sb) ->
  main_account opportunities a k1 = (k2, ga, sa) ->
  exists la lb la' lb',
    ra = OK la /\ rb = OK lb /\ sa = OK la' /\ sb = OK lb' /\
    map (obj h2) la = map (obj k2) la' /\
    map (obj h2) lb = map (obj k2) lb'.
Proof.
  intros Hin Ha Hb Hb' Ha'.
  assert (Hframe : forall acc s s' f r,
            main_account opportunities acc s = (s', f, r) ->
            (forall l, l ∈ dom s -> s' !! l = s !! l)).
  { intros acc s s' f r Hm. pose proof (main_account_frame opportunities acc s) as F.
    rewrite Hm in F. apply F. }
  assert (Hsame : forall acc s s' f r,
            main_account opportunities acc s = (s', f, r) ->
            (forall l, l ∈ opportunities -> l ∈ dom s /\ obj s l = obj h l) ->
            forall l, l ∈ opportunities -> l ∈ dom s' /\ obj s' l = obj h l).
  { intros acc s s' f r Hm Hs l Hl. destruct (Hs l Hl) as [Hd Ho].
    pose proof (Hframe _ _ _ _ _ Hm l Hd) as E. split.
    - apply elem_of_dom. rewrite E. apply elem_of_dom. exact Hd.
    - rewrite <- Ho. apply obj_lookup, E. }
  assert (H0 : forall l, l ∈ opportunities -> l ∈ dom h /\ obj h l = obj h l)
    by (intros l Hl; split; [apply Hin, Hl|reflexivity]).
  pose proof (Hsame _ _ _ _ _ Ha H0) as S1.
  pose proof (Hsame _ _ _ _ _ Hb' H0) as T1.
  assert (Hquotes : forall s, (forall l, l ∈ opportunities -> l ∈ dom s /\ obj s l = obj h l) ->
            map (obj s) opportunities = map (obj h) opportunities).
  { intros s Hs. apply map_ext_in. intros l Hl. apply Hs.
    apply list_elem_of_In. exact Hl. }
  destruct (main_account_report _ _ _ _ _ _
              (fun l Hl => conj (proj1 (Hin l Hl)) (proj1 (proj2 (Hin l Hl)))) Ha)
    as (la & -> & Da & Ea).
  destruct (main_account_report _ _ _ _ _ _
              (fun l Hl => conj (proj1 (Hin l Hl)) (proj2 (proj2 (Hin l Hl)))) Hb')
    as (lb' & -> & Db' & Eb').
  assert (Hin1 : forall l, l ∈ opportunities ->
            l ∈ dom h1 /\ ordinary_inputs (obj h1 l) b QUANTITY = true).
  { intros l Hl. destruct (S1 l Hl) as [Hd Ho]. split; [exact Hd|].
    unfold ordinary_inputs in *. rewrite Ho. apply Hin, Hl. }
  assert (Hin2 : forall l, l ∈ opportunities ->
            l ∈ dom k1 /\ ordinary_inputs (obj k1 l) a QUANTITY = true).
  { intros l Hl. destruct (T1 l Hl) as [Hd Ho]. split; [exact Hd|].
    unfold ordinary_inputs in *. rewrite Ho. apply Hin, Hl. }
  destruct (main_account_report _ _ _ _ _ _ Hin1 Hb) as (lb & -> & Db & Eb).
  destruct (main_account_report _ _ _ _ _ _ Hin2 Ha') as (la' & -> & Da' & Ea').
  rewrite (Hquotes h1 S1) in Eb. rewrite (Hquotes k1 T1) in Ea'.
  exists la, lb, la', lb'. repeat (split; [reflexivity|]).
  assert (Hla : map (obj h2) la = map (obj h1) la).
  { apply map_ext_in. intros l Hl. apply obj_lookup, (Hframe _ _ _ _ _ Hb), Da.
    apply list_elem_of_In. exact Hl. }
  assert (Hlb' : map (obj k2) lb' = map (obj k1) lb').
  { apply map_ext_in. intros l Hl. apply obj_lookup, (Hframe _ _ _ _ _ Ha'), Db'.
    apply list_elem_of_In. exact Hl. }
  rewrite Hla, Hlb'. split; congruence.
Qed.

Lemma accounts_independent_witness :
  let opps := [1; 2; 1]%positive in
  let t1 := main_account opps example_account example_store in
  let t2 := main_account opps other_account t1.1.1 in
  let u1 := main_account opps other_account example_store in
  let u2 := main_account opps example_account u1.1.1 in
  exists la lb la' lb',
    t1.2 = OK la /\ t2.2 = OK lb /\ u2.2 = OK la' /\ u1.2 = OK lb' /\
    map (obj t2.1.1) la = map (obj u2.1.1) la' /\
    map (obj t2.1.1) lb = map (obj u2.1.1) lb'.
Proof.
  intros opps t1 t2 u1 u2.
  assert (Hin : forall l, l ∈ opps ->
            l ∈ dom example_store /\
            ordinary_inputs (obj example_store l) example_account QUANTITY = true /\
            ordinary_inputs (obj example_store l) other_account QUANTITY = true).
  { intros l Hl. unfold opps in Hl.
    repeat (apply elem_of_cons in Hl as [->|Hl];
            [split; [apply elem_of_dom; vm_compute; eauto|
                     split; vm_compute; reflexivity]|]).
    inversion Hl. }
  assert (E : forall acc s, main_account opps acc s
              = ((main_account opps acc s).1.1, (main_account opps acc s).1.2,
                 (main_account opps acc s).2)).
  { intros acc s. destruct (main_account opps acc s) as [[? ?] ?]. reflexivity. }
  exact (accounts_independent opps example_account other_account example_store
           _ _ _ _ _ _ _ _ _ _ _ _ Hin (E _ _) (E _ _) (E _ _) (E _ _)).
Defined.
(** ** The summary report *)

Lemma add_nonneg (La Ua Lb Ub : Z) (ca cb : N) (ea eb : Z) :
  ranged La Ua (Dec.Fin false ca ea) -> ranged Lb Ub (Dec.Fin false cb eb) ->
  Dec.Etiny <= Z.min La Lb -> Z.max Ua Ub + 2 <= Dec.Emax ->
  exists c e,
    Dec.add (Dec.Fin false ca ea) (Dec.Fin false cb eb) = OK (Dec.Fin false c e) /\
    ranged (Z.min La Lb) (Z.max Ua Ub + 2) (Dec.Fin false c e) /\
    (c = 0%N -> ca = 0%N /\ cb = 0%N).
Proof.
  intros [Hla Hua] [Hlb Hub] HL HU. cbn [Dec.add andb].
  set (m := Z.min ea eb). set (M := Z.max Ua Ub).
  pose proof (ndigits_pos ca). pose proof (ndigits_pos cb).
  assert (Hea : ea <= Ua) by (unfold Dec.adjusted in *; lia).
  assert (Heb : eb <= Ub) by (unfold Dec.adjusted in *; lia).
  pose proof (scaled_lt ca ea m M ltac:(lia) ltac:(lia)) as HA.
  pose proof (scaled_lt cb eb m M ltac:(lia) ltac:(lia)) as HB.
  pose proof (pow10_pos (ea - m)) as Pa. pose proof (pow10_pos (eb - m)) as Pb.
  assert (Hzero : (ca * Dec.pow10 (ea - m) = 0 -> ca = 0)%N) by nia.
  assert (Hzero' : (cb * Dec.pow10 (eb - m) = 0 -> cb = 0)%N) by nia.
  set (A := (ca * Dec.pow10 (ea - m))%N) in *.
  set (B := (cb * Dec.pow10 (eb - m))%N) in *.
  clearbody A B.
  unfold Dec.signed. set (z := Z.of_N A + Z.of_N B).
  destruct (Z.eqb_spec z 0) as [Hz|Hz].
  - destruct (fix_ranged (Z.min La Lb) (M + 1) false 0 m)
      as (c' & e' & -> & Hl' & Hu' & Hz'); try lia.
    { unfold Dec.adjusted. change (Dec.ndigits 0) with 1. lia. }
    exists c', e'. split; [reflexivity|]. split; [simpl; lia|].
    intros _. split; [apply Hzero|apply Hzero']; lia.
  - assert (Hpos : (z <? 0) = false) by (apply Z.ltb_ge; lia).
    rewrite Hpos.
    assert (Hlt : (Z.abs_N z < Dec.pow10 (M + 2 - m))%N).
    { replace (M + 2 - m) with ((M + 1 - m) + 1) by lia.
      rewrite pow10_succ by lia. lia. }
    assert (Hadj : Dec.adjusted (Z.abs_N z) m <= M + 1).
    { unfold Dec.adjusted.
      pose proof (ndigits_le_lt (Z.abs_N z) (M + 2 - m) ltac:(lia) Hlt ltac:(lia)). lia. }
    destruct (fix_ranged (Z.min La Lb) (M + 1) false (Z.abs_N z) m)
      as (c' & e' & -> & Hl' & Hu' & Hz'); try lia.
    exists c', e'. split; [reflexivity|]. split; [simpl; lia|].
    intros Hc. exfalso. apply Hz'  in Hc. lia.
Qed.

Section ReportFacts.
Context {Ref : Type} (deref : Ref -> FundItem).

(** A sum of ordinary terms raises nothing. *)
Lemma sum_from_ranged (term : FundItem -> result Decimal) (L U : Z)
    (funds : list Ref) :
  Dec.Etiny <= L ->
  Forall (fun f => exists x, term (deref f) = OK x /\ ranged L U x) funds ->
  forall (acc : Decimal) (n : Z),
  0 <= n -> ranged L (U + 2 * n) acc ->
  U + 2 * (n + Z.of_nat (length funds)) <= Dec.Emax ->
  exists r, sum_from deref acc term funds = OK r /\
            ranged L (U + 2 * (n + Z.of_nat (length funds))) r.
Proof.
  intros HL. induction 1 as [|f rest (x & Hx & Rx) _ IH]; intros acc n Hn Ra Hmax.
  - exists acc. split; [reflexivity|]. cbn [length]. rewrite Z.add_0_r. exact Ra.
  - cbn [sum_from length] in *. rewrite Hx. cbn [rbind].
    rewrite Nat2Z.inj_succ in *.
    destruct (add_ranged L (U + 2 * n) L U acc x Ra Rx) as (r1 & -> & R1 & _);
      [lia|lia|]. cbn [rbind].
    destruct (IH r1 (n + 1)) as (r & Hr & Rr); [lia| |lia|].
    { apply (ranged_weaken (Z.min L L) (Z.max (U + 2 * n) U + 2) L (U + 2 * (n + 1)));
        [lia|lia|exact R1]. }
    exists r. split; [exact Hr|].
    replace (n + Z.succ (Z.of_nat (length rest)))
      with (n + 1 + Z.of_nat (length rest)) by lia. exact Rr.
Qed.

(** A sum of ordinary positive terms is positive. *)
Lemma sum_from_positive (term : FundItem -> result Decimal) (L U : Z)
    (funds : list Ref) :
  Dec.Etiny <= L ->
  Forall (fun f => exists c e, term (deref f) = OK (Dec.Fin false c e) /\
                               c <> 0%N /\ ranged L U (Dec.Fin false c e)) funds ->
  forall (ca : N) (ea n : Z),
  0 <= n -> ranged L (U + 2 * n) (Dec.Fin false ca ea) ->
  U + 2 * (n + Z.of_nat (length funds)) <= Dec.Emax ->
  exists c e,
    sum_from deref (Dec.Fin false ca ea) term funds = OK (Dec.Fin false c e) /\
    (c = 0%N -> ca = 0%N /\ funds = []).
Proof.
  intros HL. induction 1 as [|f rest (cx & ex & Hx & Hcx & Rx) _ IH];
    intros ca ea n Hn Ra Hmax.
  - exists ca, ea. split; [reflexivity|]. intros ->. split; reflexivity.
  - cbn [sum_from length] in *. rewrite Hx. cbn [rbind].
    rewrite Nat2Z.inj_succ in *.
    destruct (add_nonneg L (U + 2 * n) L U ca cx ea ex Ra Rx)
      as (c1 & e1 & -> & R1 & Hz1); [lia|lia|]. cbn [rbind].
    destruct (IH c1 e1 (n + 1)) as (c & e & Hr & Hz); [lia| |lia|].
    { apply (ranged_weaken (Z.min L L) (Z.max (U + 2 * n) U + 2) L (U + 2 * (n + 1)));
        [lia|lia|exact R1]. }
    exists c, e. split; [exact Hr|].
    intros Hc. exfalso. apply Hcx. apply Hz1. apply Hz. exact Hc.
Qed.

Lemma profit_positive_spec (f : FundItem) (p : Decimal) :
  profit f = Some p -> Dec.is_nan p = false ->
  profit_positive f
  = OK (match Dec.cmp p (Dec.of_int 0) with Gt => true | _ => false end).
Proof.
  intros Hp Hn. unfold profit_positive. rewrite Hp.
  apply gt_spec; [exact Hn|reflexivity].
Qed.

Lemma profitable_none (funds : list Ref) :
  Forall (fun f => profit_positive (deref f) = OK false) funds ->
  profitable deref funds = OK [].
Proof.
  induction 1 as [|f rest Hf _ IH]; [reflexivity|].
  cbn [profitable]. rewrite Hf, IH. reflexivity.
Qed.

(** In a list in descending order of profit the funds with a positive
    profit come first. *)
Lemma profitable_leading (funds : list Ref) :
  Forall (fun f => orderable (profit (deref f)) = true) funds ->
  metric_sorted deref profit true funds ->
  exists kept rest,
    funds = kept ++ rest /\ profitable deref funds = OK kept /\
    Forall (fun f => profit_positive (deref f) = OK true) kept /\
    Forall (fun f => profit_positive (deref f) = OK false) rest.
Proof.
  unfold metric_sorted.
  induction 1 as [|f l Hf Hl IH]; intros Hs.
  - exists [], []. repeat split; constructor.
  - apply StronglySorted_inv in Hs as [Hs Hall].
    destruct (profit (deref f)) as [p|] eqn:Hp; [|discriminate].
    cbn [orderable] in Hf. apply negb_true_iff in Hf.
    pose proof (profit_positive_spec _ _ Hp Hf) as Hpos.
    destruct (Dec.cmp p (Dec.of_int 0)) eqn:Hc.
    1, 2: (assert (Hno : Forall (fun x => profit_positive (deref x) = OK false) l);
      [ rewrite Forall_forall in *; intros x Hx;
        specialize (Hall x Hx); specialize (Hl x Hx);
        destruct (profit (deref x)) as [px|] eqn:Hpx; [|discriminate];
        cbn [orderable] in Hl; apply negb_true_iff in Hl;
        rewrite (profit_positive_spec _ _ Hpx Hl);
        unfold key_ge, key_cmp in Hall; try rewrite Hp in Hall;
        try rewrite Hpx in Hall; cbv beta iota in Hall;
        assert (Hle : Dec.cmp px (Dec.of_int 0) <> Gt)
          by (apply (cmp_le_trans px p (Dec.of_int 0) Hl Hf eq_refl);
              [rewrite cmp_opp; destruct (Dec.cmp p px); simpl; congruence
              |rewrite Hc; discriminate]);
        destruct (Dec.cmp px (Dec.of_int 0)); [reflexivity|reflexivity|congruence]
      | exists [], (f :: l); split; [reflexivity|]; split;
        [apply profitable_none; constructor; assumption|];
        split; constructor; assumption ]).
    destruct (IH Hs) as (kept & rest & -> & Hk & Hkept & Hrest).
    exists (f :: kept), rest. split; [reflexivity|]. split.
    + cbn [profitable]. rewrite Hpos, Hk. reflexivity.
    + split; [constructor; assumption|assumption].
Qed.

(** The summary of a ranked list of results with ordinary figures. *)
Lemma summary_locals_spec (funds : list Ref) (quantity : Z) :
  Forall (fun f => exists p, profit (deref f) = Some p /\ ranged (-3000) 3012 p /\
                             ordinary (fund_nav (deref f)) = true) funds ->
  metric_sorted deref profit true funds ->
  ordinary (Dec.of_int quantity) = true ->
  Z.of_nat (length funds) <= 100000 ->
  exists kept rest,
    funds = kept ++ rest /\
    Forall (fun f => profit_positive (deref f) = OK true) kept /\
    Forall (fun f => profit_positive (deref f) = OK false) rest /\
    match kept with
    | [] => summary_locals deref funds quantity = OK None
    | _ =>
      exists tp tc,
        summary_locals deref funds quantity
        = OK (Some {| profitable_funds := kept; total_profit := tp;
                      total_cost := tc |}) /\
        Dec.cmp tp (Dec.of_int 0) = Gt /\ Dec.is_finite tc = true
    end.
Proof.
  intros Hall Hs Hq Hlen.
  assert (Hord : Forall (fun f => orderable (profit (deref f)) = true) funds).
  { eapply Forall_impl; [exact Hall|]. cbv beta. intros f (p & -> & Rp & _).
    cbn [orderable]. rewrite (ranged_not_nan _ _ _ Rp). reflexivity. }
  destruct (profitable_leading funds Hord Hs) as (kept & rest & Hfunds & Hk & Hkept & Hrest).
  exists kept, rest. split; [exact Hfunds|]. split; [exact Hkept|]. split; [exact Hrest|].
  assert (Hsum : summary_locals deref funds quantity =
                 match kept with
                 | [] => OK None
                 | _ =>
                   let! tp := py_sum deref profit_term kept in
                   let! tc := py_sum deref (cost_term quantity) kept in
                   OK (Some {| profitable_funds := kept; total_profit := tp;
                               total_cost := tc |})
                 end).
  { unfold summary_locals. destruct funds as [|f l].
    - destruct kept; [reflexivity|discriminate].
    - rewrite Hk. reflexivity. }
  rewrite Hsum. destruct kept as [|k kept']; [reflexivity|].
  set (kept := k :: kept') in *.
  assert (Hkall : Forall (fun f => exists p, profit (deref f) = Some p /\
                            ranged (-3000) 3012 p /\
                            ordinary (fund_nav (deref f)) = true) kept).
  { rewrite Hfunds in Hall. apply Forall_app in Hall. apply Hall. }
  assert (Hklen : Z.of_nat (length kept) <= 100000).
  { rewrite Hfunds, length_app in Hlen. lia. }
  assert (Hterms : Forall (fun f => exists c e,
                      profit_term (deref f) = OK (Dec.Fin false c e) /\
                      c <> 0%N /\ ranged (-3000) 3012 (Dec.Fin false c e)) kept).
  { rewrite Forall_forall in *. intros f Hf.
    destruct (Hkall f Hf) as (p & Hp & Rp & _). specialize (Hkept f Hf).
    rewrite (profit_positive_spec _ _ Hp (ranged_not_nan _ _ _ Rp)) in Hkept.
    destruct p as [s c e| |]; [|destruct Rp|destruct Rp].
    rewrite cmp_zero in Hkept. unfold profit_term. rewrite Hp.
    destruct (N.eqb_spec c 0) as [?|Hc]; [discriminate|].
    destruct s; [discriminate|]. exists c, e. split; [reflexivity|]. split; assumption. }
  destruct (sum_from_positive profit_term (-3000) 3012 kept ltac:(vm_compute; discriminate)
              Hterms 0%N 0 0 ltac:(lia))
    as (c & e & Htp & Hz).
  { split; [lia|]. vm_compute. discriminate. }
  { unfold Dec.Emax. lia. }
  assert (Hcost : Forall (fun f => exists x, cost_term quantity (deref f) = OK x /\
                            ranged (-2000) 2002 x) kept).
  { eapply Forall_impl; [exact Hkall|]. cbv beta. intros f (_ & _ & _ & Hnav).
    destruct (mul_ranged (-1000) 1000 (-1000) 1000 _ _
                (ordinary_ranged _ Hnav) (ordinary_ranged _ Hq))
      as (x & Hx & Rx & _); [vm_compute; discriminate|vm_compute; discriminate|].
    exists x. split; [exact Hx|exact Rx]. }
  destruct (sum_from_ranged (cost_term quantity) (-2000) 2002 kept
              ltac:(vm_compute; discriminate) Hcost (Dec.Fin false 0 0) 0 ltac:(lia))
    as (tc & Htc & Rtc).
  { split; [lia|]. vm_compute. discriminate. }
  { unfold Dec.Emax. lia. }
  exists (Dec.Fin false c e), tc. unfold py_sum.
  change (Dec.of_int 0) with (Dec.Fin false 0 0).
  rewrite Htp. cbn [rbind]. rewrite Htc. cbn [rbind].
  split; [reflexivity|]. split.
  - change (Dec.Fin false 0 0) with (Dec.of_int 0). rewrite cmp_zero.
    destruct (N.eqb_spec c 0) as [Hc|_]; [|reflexivity].
    destruct (Hz Hc) as [_ Habs]. discriminate.
  - exact (ranged_finite _ _ _ Rtc).
Qed.

(** X27. The summary lists the head of the ranking: for results whose
    profits are numbers, the funds [print_summary_format] keeps from a list
    ranked by [sort_by_profit], best first, are a leading segment of that
    list, in rank order; every fund behind them has a profit that is not
    positive. *)
Theorem summary_funds_leading (funds ranked : list Ref) :
  Forall (fun f => orderable (profit (deref f)) = true) funds ->
  sort_by_profit deref funds (Some true) = OK ranked ->
  exists kept rest,
    ranked = kept ++ rest /\ profitable deref ranked = OK kept /\
    Forall (fun f => profit_positive (deref f) = OK true) kept /\
    Forall (fun f => profit_positive (deref f) = OK false) rest.
Proof.
  intros Hord Hsort.
  destruct (sorted_spec deref profit true funds Hord) as (out & Hout & Hperm & Hs & _).
  unfold sort_by_profit in Hsort. cbn [arg] in Hsort.
  rewrite Hout in Hsort. injection Hsort as ->.
  apply profitable_leading; [|exact Hs].
  rewrite Forall_forall in *. intros f Hf. apply Hord.
  apply list_elem_of_In. rewrite Hperm. apply list_elem_of_In. exact Hf.
Qed.

End ReportFacts.

Lemma summary_funds_leading_witness :
  let a := result_with (PyStr.lit "a") Decimal_5 Decimal_1_0 in
  let b := result_with (PyStr.lit "b") (Dec.Fin true 100 0) Decimal_0 in
  let c := result_with (PyStr.lit "c") (Dec.Fin false 50 (-1)) Decimal_1_0 in
  Forall (fun f => orderable (profit (id f)) = true) [a; b; c] /\
  sort_by_profit id [a; b; c] (Some true) = OK [a; c; b] /\
  exists kept rest,
    [a; c; b] = kept ++ rest /\ profitable id [a; c; b] = OK kept.
Proof.
  intros a b c.
  assert (Hord : Forall (fun f => orderable (profit (id f)) = true) [a; b; c])
    by (repeat constructor).
  assert (Hsort : sort_by_profit id [a; b; c] (Some true) = OK [a; c; b])
    by (vm_compute; reflexivity).
  split; [exact Hord|]. split; [exact Hsort|].
  destruct (summary_funds_leading id [a; b; c] [a; c; b] Hord Hsort)
    as (kept & rest & H1 & H2 & _).
  exists kept, rest. split; assumption.
Defined.

Lemma evaluated_record (account : Account) (quote : FundItem) :
  ordinary_inputs quote account QUANTITY = true ->
  exists p, profit (evaluated account quote) = Some p /\ ranged (-3000) 3012 p /\
            ordinary (fund_nav (evaluated account quote)) = true.
Proof.
  intros Hord.
  destruct (arbitrage_locals_total quote account QUANTITY Hord) as (v & Hv & _ & Rn & _).
  destruct (calculate_total quote account (Some QUANTITY) Hord)
    as (v' & pr & Hv' & _ & _ & Hc & _).
  cbn [arg] in Hv'. rewrite Hv in Hv'. injection Hv' as <-.
  unfold evaluated. rewrite Hc. cbn [fst].
  exists (net_profit v). split; [reflexivity|]. split; [exact Rn|].
  cbn [fund_nav set_profit_rate set_estimated_sell_price set_profit
       set_subscribe_fee_rate].
  unfold ordinary_inputs in Hord. repeat (apply andb_true_iff in Hord as [Hord ?]).
  exact Hord.
Qed.

(** X28. The summary of one account of [main]: for at most 100000 valid
    opportunities with ordinary figures, the computations of
    [print_summary_format] on the ranked list raise nothing; the funds of
    the summary are the leading entries of the ranking, exactly those with
    a positive profit; when there is none no summary is made, and otherwise
    the total profit announced is positive and the money taken is a finite
    number. *)
Theorem summary_of_main (opportunities funds : list loc) (account : Account)
    (h h' : gmap loc FundItem) (r : result (list loc)) :
  (forall l, l ∈ opportunities ->
     l ∈ dom h /\ ordinary_inputs (obj h l) account QUANTITY = true) ->
  Z.of_nat (length opportunities) <= 100000 ->
  main_account opportunities account h = (h', funds, r) ->
  exists ranked kept rest,
    r = OK ranked /\ ranked = kept ++ rest /\
    Forall (fun l => profit_positive (obj h' l) = OK true) kept /\
    Forall (fun l => profit_positive (obj h' l) = OK false) rest /\
    match kept with
    | [] => summary_locals (obj h') ranked QUANTITY = OK None
    | _ =>
      exists tp tc,
        summary_locals (obj h') ranked QUANTITY
        = OK (Some {| profitable_funds := kept; total_profit := tp;
                      total_cost := tc |}) /\
        Dec.cmp tp (Dec.of_int 0) = Gt /\ Dec.is_finite tc = true
    end.
Proof.
  intros Hin Hlen Hm.
  destruct (main_account_report _ _ _ _ _ _ Hin Hm) as (ranked & -> & _ & Hrep).
  unfold report, sort_by_profit in Hrep. cbn [arg] in Hrep.
  set (quotes := map (evaluated account) (map (obj h) opportunities)) in *.
  assert (Hq : Forall (fun q => exists p, profit (id q) = Some p /\
                         ranged (-3000) 3012 p /\
                         ordinary (fund_nav (id q)) = true) quotes).
  { unfold quotes. rewrite map_map. apply Forall_map. apply Forall_forall.
    intros l Hl. apply evaluated_record. apply Hin. exact Hl. }
  assert (Hord : Forall (fun q => orderable (profit (id q)) = true) quotes).
  { eapply Forall_impl; [exact Hq|]. cbv beta. intros q (p & -> & Rp & _).
    cbn [orderable]. rewrite (ranged_not_nan _ _ _ Rp). reflexivity. }
  destruct (sorted_spec id profit true quotes Hord) as (out & Hout & Hperm & Hs & _).
  rewrite Hout in Hrep. injection Hrep as ->.
  assert (Hall : Forall (fun l => exists p, profit (obj h' l) = Some p /\
                           ranged (-3000) 3012 p /\
                           ordinary (fund_nav (obj h' l)) = true) ranked).
  { apply Forall_map with (f := obj h')
      (P := fun q => exists p, profit q = Some p /\ ranged (-3000) 3012 p /\
                               ordinary (fund_nav q) = true).
    eapply Permutation_Forall; [exact Hperm|exact Hq]. }
  assert (Hsorted : metric_sorted (obj h') profit true ranked).
  { unfold metric_sorted in *. apply StronglySorted_map_inv in Hs. exact Hs. }
  assert (Hlen' : Z.of_nat (length ranked) <= 100000).
  { rewrite <- (length_map (obj h') ranked), <- (Permutation_length Hperm).
    unfold quotes. rewrite !length_map. exact Hlen. }
  destruct (summary_locals_spec (obj h') ranked QUANTITY Hall Hsorted eq_refl Hlen')
    as (kept & rest & H1 & H2 & H3 & H4).
  exists ranked, kept, rest. repeat (split; [assumption || reflexivity|]). exact H4.
Qed.

Lemma summary_of_main_witness :
  let t := main_account [1; 2; 1]%positive example_account example_store in
  (forall l, l ∈ [1; 2; 1]%positive ->
     l ∈ dom example_store /\
     ordinary_inputs (obj example_store l) example_account QUANTITY = true) /\
  Z.of_nat (length [1; 2; 1]%positive) <= 100000 /\
  exists ranked kept rest,
    t.2 = OK ranked /\ ranked = kept ++ rest /\
    Forall (fun l => profit_positive (obj t.1.1 l) = OK true) kept.
Proof.
  intros t.
  assert (Hin : forall l, l ∈ [1; 2; 1]%positive ->
            l ∈ dom example_store /\
            ordinary_inputs (obj example_store l) example_account QUANTITY = true).
  { intros l Hl.
    repeat (apply elem_of_cons in Hl as [->|Hl];
            [split; [apply elem_of_dom; vm_compute; eauto|vm_compute; reflexivity]|]).
    inversion Hl. }
  assert (Hlen : Z.of_nat (length [1; 2; 1]%positive) <= 100000) by (simpl; lia).
  split; [exact Hin|]. split; [exact Hlen|].
  assert (Ht : main_account [1; 2; 1]%positive example_account example_store
               = (t.1.1, t.1.2, t.2)).
  { subst t. destruct (main_account [1; 2; 1]%positive example_account example_store)
      as [[? ?] ?]; reflexivity. }
  destruct (summary_of_main _ _ _ _ _ _ Hin Hlen Ht)
    as (ranked & kept & rest & Hr & Hk & Hpos & _).
  exists ranked, kept, rest. repeat split; assumption.
Defined.
